(** * MemOS memory scheduler: a shallow embedding and its properties

    The development follows the Python sources of the scheduler
    ([memos/mem_scheduler]) and of the history manager
    ([memos/memories/textual/tree_text_memory/organize]).  Python values are
    modelled as follows:

    - [str] is [string], a character standing for a code point below 256;
    - [int] is [Z], with Python's slicing and indexing rules written out;
    - [list] is [list]; a [dict] used as a finite map is a [gmap], a [dict]
      whose iteration order matters is an association list in insertion order;
    - a function that may raise returns [result] (or [option] when only the
      fact of raising matters);
    - collaborators whose code is outside the modules followed here (the LLM,
      the prompt builder, the text filters, the monitor, the dispatcher) are
      the fields of a class, one class for each module that calls them. *)

From Stdlib Require Import ZArith Ascii SpecFloat.
From Stdlib Require String.
From stdpp Require Import base option list strings gmap pretty sorting.

Local Open Scope Z_scope.
#[local] Set Warnings "-clear-no-such-hyp".

(** ** Python primitives *)

(** A computation that may raise. *)
Inductive result (A : Type) : Type :=
| Ok (a : A)
| Raise (exn : string).
Arguments Ok {A} a.
Arguments Raise {A} exn.

Definition bind_result {A B} (r : result A) (k : A → result B) : result B :=
  match r with
  | Ok a => k a
  | Raise e => Raise e
  end.

Module PyList.

(** [l[:k]]: a negative [k] counts from the end. *)
Definition slice_to {A} (k : Z) (l : list A) : list A :=
  if k <? 0 then take (Z.to_nat (Z.of_nat (length l) + k)) l
  else take (Z.to_nat k) l.

(** [l[i]]: [None] stands for [IndexError]. *)
Definition index {A} (l : list A) (i : Z) : option A :=
  let n := Z.of_nat (length l) in
  if (0 <=? i) && (i <? n) then l !! Z.to_nat i
  else if (- n <=? i) && (i <? 0) then l !! Z.to_nat (n + i)
  else None.

(** [list(dict.fromkeys(l))]: the first occurrence of every element, in order. *)
Fixpoint fromkeys_go (seen : list string) (l : list string) : list string :=
  match l with
  | [] => []
  | x :: r =>
      if bool_decide (x ∈ seen) then fromkeys_go seen r
      else x :: fromkeys_go (x :: seen) r
  end.

Definition fromkeys (l : list string) : list string := fromkeys_go [] l.

End PyList.

Module PyStr.

Definition nl : string := String "010"%char "".

(** [len(s)] *)
Definition len (s : string) : nat := String.length s.

(** [s[:n]] for [0 <= n] *)
Fixpoint prefix_of_len (n : nat) (s : string) : string :=
  match n, s with
  | S k, String c r => String c (prefix_of_len k r)
  | _, _ => ""
  end.

(** [s[n:]] for [0 <= n] *)
Fixpoint suffix_from (n : nat) (s : string) : string :=
  match n, s with
  | S k, String _ r => suffix_from k r
  | _, _ => s
  end.

(** [s.startswith(p)] *)
Fixpoint startswith (p s : string) : bool :=
  match p, s with
  | "", _ => true
  | String a p', String b s' => if Ascii.eqb a b then startswith p' s' else false
  | String _ _, "" => false
  end.

(** [s.find(sub)]: the lowest index at which [sub] occurs; [None] is -1. *)
Fixpoint find (sub s : string) : option nat :=
  if startswith sub s then Some 0%nat
  else match s with
       | "" => None
       | String _ r => S <$> find sub r
       end.

(** Scan for [s.count(sub)] with a non-empty [sub]: occurrences do not
    overlap, so after a match the next [skip] characters are passed over. *)
Fixpoint count_go (sub s : string) (skip : nat) : nat :=
  match s with
  | "" => 0
  | String _ r =>
      match skip with
      | S k => count_go sub r k
      | O =>
          if startswith sub s then S (count_go sub r (len sub - 1))
          else count_go sub r 0
      end
  end%nat.

(** [s.count(sub)]; the empty string occurs [len(s) + 1] times. *)
Definition count (s sub : string) : nat :=
  match sub with
  | "" => S (len s)
  | _ => count_go sub s 0
  end.

(** The white space of [str.strip()], [str.isspace()] and [\s] among the
    code points below 256: tab to carriage return, the four separators
    [\x1c] to [\x1f], the space, [\x85] and [\xa0]. *)
Definition is_space (c : ascii) : bool :=
  let n := nat_of_ascii c in
  ((9 <=? n) && (n <=? 13) || (28 <=? n) && (n <=? 32)
   || (n =? 133) || (n =? 160))%nat.

Fixpoint lstrip (s : string) : string :=
  match s with
  | String c r => if is_space c then lstrip r else s
  | "" => ""
  end.

Definition strip (s : string) : string :=
  String.rev (lstrip (String.rev (lstrip s))).

(** [s.split(sep)] for a separator of one character. *)
Fixpoint split (sep : ascii) (s : string) : list string :=
  match s with
  | "" => [""]
  | String c r =>
      if Ascii.eqb c sep then "" :: split sep r
      else match split sep r with
           | part :: parts => String c part :: parts
           | [] => [String c ""]
           end
  end.

(** [c in s] for one character. *)
Fixpoint contains (c : ascii) (s : string) : bool :=
  match s with
  | "" => false
  | String d r => Ascii.eqb d c || contains c r
  end.

(** [sep.join(parts)] *)
Fixpoint join (sep : string) (parts : list string) : string :=
  match parts with
  | [] => ""
  | [part] => part
  | part :: rest => part +:+ sep +:+ join sep rest
  end.

End PyStr.

(** ** Memory items ([memos/memories/textual/item.py], fields used here) *)

Record TextualMemoryMetadata : Type := mkMetadata {
  user_id : string;
  memory_type : string;
  tags : list string;
}.

Record TextualMemoryItem : Type := mkItem {
  id : string;
  memory : string;
  metadata : TextualMemoryMetadata;
}.

#[global] Instance TextualMemoryMetadata_eq_dec : EqDecision TextualMemoryMetadata.
Proof. solve_decision. Defined.

#[global] Instance TextualMemoryItem_eq_dec : EqDecision TextualMemoryItem.
Proof. solve_decision. Defined.

(** [item.memory = text] *)
Definition set_memory (item : TextualMemoryItem) (text : string) : TextualMemoryItem :=
  {| id := id item; memory := text; metadata := metadata item |}.

(** ** History manager
    ([memories/textual/tree_text_memory/organize/history_manager.py]) *)

Module HistoryManager.
Import PyStr.

Definition CONFLICT_MEMORY_TITLE : string := "[possibly conflicting memories]".
Definition DUPLICATE_MEMORY_TITLE : string := "[possibly duplicate memories]".

Definition max_per_item_len : nat := 200.
Definition max_section_len : nat := 1000.

(** The loop of [_format_section]; [section_content] is the text built so far
    and the [break] ends the recursion. *)
Fixpoint format_items (section_content : string) (items : list string) : string :=
  match items with
  | [] => section_content
  | mem :: rest =>
      let snippet :=
        if (max_per_item_len <? len mem)%nat
        then prefix_of_len max_per_item_len mem +:+ "..."
        else mem in
      if (max_section_len <? len section_content + len snippet + 5)%nat
      then section_content +:+ nl +:+ "- ... (more items truncated)"
      else format_items (section_content +:+ nl +:+ "- " +:+ snippet) rest
  end.

Definition _format_section (title : string) (items : list string) : string :=
  match items with
  | [] => ""
  | _ => nl +:+ nl +:+ title +:+ ":" +:+ format_items "" items
  end.

Definition _append_related_content
    (new_item : TextualMemoryItem) (duplicates conflicts : list string)
    : TextualMemoryItem :=
  let append_text :=
    _format_section CONFLICT_MEMORY_TITLE conflicts
    +:+ _format_section DUPLICATE_MEMORY_TITLE duplicates in
  match append_text with
  | "" => new_item
  | _ => set_memory new_item (memory new_item +:+ append_text)
  end.

Definition markers : list string :=
  [ nl +:+ nl +:+ CONFLICT_MEMORY_TITLE +:+ ":";
    nl +:+ nl +:+ DUPLICATE_MEMORY_TITLE +:+ ":" ].

(** One round of the marker loop; [cut_index = -1] is [None]. *)
Definition cut_step (text : string) (cut_index : option nat) (marker : string)
    : option nat :=
  match find marker text with
  | Some idx =>
      match cut_index with
      | None => Some idx
      | Some c => if (idx <? c)%nat then Some idx else Some c
      end
  | None => cut_index
  end.

Definition _detach_related_content (new_item : TextualMemoryItem) : TextualMemoryItem :=
  match foldl (cut_step (memory new_item)) None markers with
  | Some cut_index => set_memory new_item (prefix_of_len cut_index (memory new_item))
  | None => new_item
  end.

(** Neither marker occurs in the text. *)
Definition marker_free (text : string) : bool :=
  forallb (λ marker, bool_decide (find marker text = None)) markers.

(** The item of [tests/memories/textual/test_history_manager.py]. *)
Definition test_item : TextualMemoryItem :=
  mkItem "m0" "This is the original memory content." (mkMetadata "" "" []).

(** An item whose own text quotes a marker. *)
Definition quoting_item : TextualMemoryItem :=
  mkItem "m1"
    ("Report" +:+ nl +:+ nl +:+ "[possibly duplicate memories]: none so far")
    (mkMetadata "" "" []).

(** [p] cannot start a text whose first two characters are [x] and [y]. *)
Definition head2_clash (p : string) (x y : ascii) : bool :=
  match p with
  | "" => false
  | String c "" => negb (Ascii.eqb c x)
  | String c (String d _) => negb (Ascii.eqb c x && Ascii.eqb d y)
  end.

(** No proper suffix of [marker] can start a text that opens with two line
    feeds: an occurrence of the marker cannot run over the seam between the
    original text and an appended section. *)
Definition seam_safe (marker : string) : bool :=
  forallb (λ k, head2_clash (suffix_from k marker) "010"%char "010"%char)
          (seq 1 (len marker - 1)).

End HistoryManager.

(** ** JSON values, as [extract_json_obj] hands them to the pipelines; a
    [float] is a [spec_float], the IEEE 754 values of the standard library *)

#[local] Set Warnings "-register-all".

Inductive json : Type :=
| JNull
| JBool (b : bool)
| JInt (n : Z)
| JFloat (f : spec_float)
| JStr (s : string)
| JArr (items : list json)
| JObj (fields : list (string * json)).

Module PyJson.

(** Lookup in the items of a [dict]. *)
Fixpoint assoc (key : string) (fields : list (string * json)) : option json :=
  match fields with
  | [] => None
  | (k, v) :: rest => if bool_decide (k = key) then Some v else assoc key rest
  end.

(** [v[key]] for a string key: [None] stands for the [KeyError] of a [dict]
    without the key and for the [TypeError] of any other value. *)
Definition getitem (v : json) (key : string) : option json :=
  match v with
  | JObj fields => assoc key fields
  | _ => None
  end.

(** [v[:k]]: lists and strings can be sliced, [None] stands for the
    exception of any other value. *)
Definition slice_to (v : json) (k : Z) : option json :=
  match v with
  | JArr items => Some (JArr (PyList.slice_to k items))
  | JStr s =>
      Some (JStr (String.string_of_list_ascii
                    (PyList.slice_to k (String.list_ascii_of_string s))))
  | _ => None
  end.

(** [l[idx]] with the index taken from JSON: only an [int] (a [bool] is one)
    indexes a list. *)
Definition index_by {A} (l : list A) (idx : json) : option A :=
  match idx with
  | JInt n => PyList.index l n
  | JBool b => PyList.index l (if b then 1 else 0)
  | _ => None
  end.

(** [[l[idx] for idx in order]]: iterating a non-empty string yields
    characters, which index nothing. *)
Definition select {A} (l : list A) (order : json) : option (list A) :=
  match order with
  | JArr idxs => mapM (index_by l) idxs
  | JStr "" => Some []
  | _ => None
  end.

(** [key in v] for a string [key]: among the keys of a [dict], among the
    elements of a list, as a substring of a string; [None] stands for the
    [TypeError] of a value that is not iterable. *)
Definition contains (key : string) (v : json) : option bool :=
  match v with
  | JObj fields => Some (bool_decide (is_Some (assoc key fields)))
  | JArr items =>
      Some (existsb (λ item, match item with
                             | JStr s => bool_decide (s = key)
                             | _ => false
                             end) items)
  | JStr s => Some (bool_decide (is_Some (PyStr.find key s)))
  | _ => None
  end.

(** [len(v)]; [None] stands for the [TypeError] of a value without a length. *)
Definition len (v : json) : option nat :=
  match v with
  | JStr s => Some (PyStr.len s)
  | JArr items => Some (length items)
  | JObj fields => Some (length fields)
  | _ => None
  end.

End PyJson.

(** ** Collaborators of the retriever whose code lies outside the scheduler
    modules modelled here: the key normaliser and the text filters of
    [utils/filter_utils.py], the JSON extractor of [utils/misc_utils.py], the
    prompt builder, the LLM, and the LLM-backed [MemoryFilter]. *)

Class Retriever : Type := {
  transform_name_to_key : string → string;
  (** called with [similarity_threshold = 0.75] *)
  filter_vector_based_similar_memories : list string → list string;
  (** second argument: [min_length_threshold] *)
  filter_too_short_memories : list string → Z → list string;
  (** template name, [queries], [current_order] *)
  build_prompt : string → list string → list string → string;
  (** [process_llm.generate] on a single user message *)
  generate : string → string;
  (** [None]: the extractor raised *)
  extract_json_obj : string → option json;
  (** [query_history], [memories] *)
  filter_unrelated_memories :
    list string → list TextualMemoryItem → list TextualMemoryItem * bool;
}.

(** ** Rerank pipeline ([memory_manage_modules/rerank_pipeline.py]; the
    same two methods are repeated in
    [memory_manage_modules/post_processor.py], which differs in its comments
    and log calls only) *)

Module RerankPipeline.
Section Defs.
Context `{Retriever}.

Definition filter_min_length_threshold : Z := 6.

(** The body of the [try] block of [rerank_memories]; [None] when any of
    its steps raises. *)
Definition rerank_try (response : string) (original_memories : list string)
    (top_k : Z) : option (list string) :=
  parsed ← extract_json_obj response;
  order ← PyJson.getitem parsed "new_order";
  new_order ← PyJson.slice_to order top_k;
  text_memories_with_new_order ← PyJson.select original_memories new_order;
  _ ← PyJson.getitem parsed "reasoning";
  Some text_memories_with_new_order.

Definition rerank_prompt (query : string) (original_memories : list string) : string :=
  build_prompt "memory_reranking"
    ["[0] " +:+ query]
    (imap (λ i mem, "[" +:+ pretty i +:+ "] " +:+ mem) original_memories).

(** [queries[0]] is read before the [try]: an empty [queries] raises. *)
Definition rerank_memories (queries original_memories : list string) (top_k : Z)
    : result (list string * bool) :=
  match queries with
  | [] => Raise "IndexError"
  | query :: _ =>
      let response := generate (rerank_prompt query original_memories) in
      match rerank_try response original_memories top_k with
      | Some text_memories_with_new_order => Ok (text_memories_with_new_order, true)
      | None => Ok (PyList.slice_to top_k original_memories, false)
      end
  end.

(** [{transform_name_to_key(m.memory): m for m in combined_memory}] *)
Definition memory_map (combined_memory : list TextualMemoryItem)
    : gmap string TextualMemoryItem :=
  foldl (λ m mem_obj, <[transform_name_to_key (memory mem_obj) := mem_obj]> m)
        ∅ combined_memory.

(** The final loop: texts whose key is not in the map are skipped. *)
Definition map_back (mm : gmap string TextualMemoryItem) (texts : list string)
    : list TextualMemoryItem :=
  omap (λ text, mm !! transform_name_to_key text) texts.

(** The list handed to the reranker: merged, similarity-filtered,
    length-filtered, without repeated texts. *)
Definition unique_memory (original_memory new_memory : list TextualMemoryItem)
    : list string :=
  let combined_text_memory := memory <$> (original_memory ++ new_memory) in
  let filtered_combined_text_memory :=
    filter_vector_based_similar_memories combined_text_memory in
  let filtered_combined_text_memory :=
    filter_too_short_memories filtered_combined_text_memory
      filter_min_length_threshold in
  PyList.fromkeys filtered_combined_text_memory.

Definition process_and_rerank_memories
    (queries : list string) (original_memory new_memory : list TextualMemoryItem)
    (top_k : Z) : result (list TextualMemoryItem * bool) :=
  let combined_memory := original_memory ++ new_memory in
  let mm := memory_map combined_memory in
  bind_result
    (rerank_memories queries (unique_memory original_memory new_memory) top_k)
    (λ '(text_memories_with_new_order, success_flag),
       Ok (map_back mm text_memories_with_new_order, success_flag)).

End Defs.
End RerankPipeline.

(** ** Monitor entries and the monitor
    ([schemas/monitor_schemas.py] and [monitors/general_monitor.py] are
    outside the modules modelled here) *)

Record MemoryMonitorItem : Type := mkMonitor {
  memory_text : string;
  tree_memory_item : TextualMemoryItem;
  tree_memory_item_mapping_key : string;
  sorting_score : Z;
  keywords_score : Z;
  recording_count : Z;
}.

(** [one.sorting_score = score] *)
Definition set_sorting_score (score : Z) (one : MemoryMonitorItem) : MemoryMonitorItem :=
  {| memory_text := memory_text one;
     tree_memory_item := tree_memory_item one;
     tree_memory_item_mapping_key := tree_memory_item_mapping_key one;
     sorting_score := score;
     keywords_score := keywords_score one;
     recording_count := recording_count one |}.

(** The monitor of one (user, mem-cube) pair, over a state [S] of its own:
    the query monitor ([sync_with_orm], [get_queries_with_timesort],
    [get_keywords_collections]) and the working-memory monitor
    ([update_working_memory_monitors], then
    [get_sorted_mem_monitors(reverse=True)]). *)
Class Monitor (S : Type) : Type := {
  sync_with_orm : S → S;
  get_queries_with_timesort : S → list string;
  get_keywords_collections : S → list (string * Z);
  update_working_memory_monitors : list MemoryMonitorItem → S → S;
  get_sorted_mem_monitors : S → list MemoryMonitorItem;
}.

(** What [mem_cube.text_mem] is an instance of. *)
Inductive TextMemKind : Type :=
| TreeTextMemory
| NaiveTextMemory
| UnsupportedTextMemory.

(** ** The monitor, after the specification *)

Module WorkingMemoryMonitor.

(** Modelled from the spec: the working-memory monitor
    ([monitors/general_monitor.py], [schemas/monitor_schemas.py]) is not among
    the sources.  Section 3 has, within a working set, a [mapping_key] that
    "is unique (duplicate texts collapse)".  Of the entries with one key the
    first is kept; [seen] holds the keys met so far. *)
Fixpoint collapse (seen : list string) (entries : list MemoryMonitorItem)
    : list MemoryMonitorItem :=
  match entries with
  | [] => []
  | one :: rest =>
      if bool_decide (tree_memory_item_mapping_key one ∈ seen) then collapse seen rest
      else one :: collapse (tree_memory_item_mapping_key one :: seen) rest
  end.

(** Modelled from the spec: section 4.4 replaces the working set "with a
    sort by [sorting_score] desc, stable".  An entry is put before the first
    one that does not score higher, so that entries of equal score keep their
    order. *)
Fixpoint insert_desc (one : MemoryMonitorItem) (sorted : list MemoryMonitorItem)
    : list MemoryMonitorItem :=
  match sorted with
  | [] => [one]
  | other :: rest =>
      if sorting_score other <=? sorting_score one then one :: sorted
      else other :: insert_desc one rest
  end.

(** Modelled from the spec: the stable sort by descending [sorting_score] of
    section 4.4. *)
Definition sort_desc (entries : list MemoryMonitorItem) : list MemoryMonitorItem :=
  foldr insert_desc [] entries.

(** The monitors of one (user, mem-cube) pair: the query history, in the
    order in which [get_queries_with_timesort] gives it, the keyword counts of
    the query monitor, and the entries of the working set. *)
Record state : Type := mkState {
  queries : list string;
  keywords : list (string * Z);
  entries : list MemoryMonitorItem;
}.

(** Modelled from the spec: the monitor of section 3 and section 4.7, which
    is not among the sources.  The query monitor hands out what it holds; an
    update makes the working set of the entries it is given, duplicates
    collapsed ("a working-set entry exists from first insertion until evicted
    by a later replace"); the snapshot is sorted by [sorting_score],
    descending. *)
Definition monitor : Monitor state := {|
  sync_with_orm := λ st, st;
  get_queries_with_timesort := queries;
  get_keywords_collections := keywords;
  update_working_memory_monitors := λ new_working_memory_monitors st,
    mkState (queries st) (keywords st) (collapse [] new_working_memory_monitors);
  get_sorted_mem_monitors := λ st, sort_desc (entries st);
|}.

End WorkingMemoryMonitor.

(** ** Working-memory operations ([base_mixins/memory_ops.py]) *)

Module MemoryOps.
Section Defs.
Context `{Retriever} {S : Type} `{Monitor S}.

(** The keyword loop of [transform_working_memories_to_monitors];
    [query_keywords] holds the items of the keyword counter. *)
Definition keywords_score_of (query_keywords : list (string * Z)) (text_mem : string) : Z :=
  if bool_decide (query_keywords ≠ []) && bool_decide (text_mem ≠ "") then
    foldl (λ keywords_score kc,
             let keyword_count := Z.of_nat (PyStr.count text_mem kc.1) in
             if 0 <? keyword_count then keywords_score + keyword_count * kc.2
             else keywords_score)
          0 query_keywords
  else 0.

Definition transform_working_memories_to_monitors
    (query_keywords : list (string * Z)) (memories : list TextualMemoryItem)
    : list MemoryMonitorItem :=
  let mem_length := Z.of_nat (length memories) in
  imap (λ idx mem,
          {| memory_text := memory mem;
             tree_memory_item := mem;
             tree_memory_item_mapping_key := transform_name_to_key (memory mem);
             sorting_score := mem_length - Z.of_nat idx;
             keywords_score := keywords_score_of query_keywords (memory mem);
             recording_count := 1 |})
       memories.

(** The effects of one call of [replace_working_memory]: the monitor
    afterwards, the list passed to [text_mem_base.replace_working_memory] (if
    it was called), and the returned list. *)
Record Replaced : Type := mkReplaced {
  monitor_after : S;
  written_back : option (list TextualMemoryItem);
  returned : list TextualMemoryItem;
}.

Definition replace_working_memory
    (top_k : Z) (text_mem_base : TextMemKind) (monitor : S)
    (original_memory new_memory : list TextualMemoryItem) : result Replaced :=
  match text_mem_base with
  | TreeTextMemory =>
      let monitor := sync_with_orm monitor in
      let query_history := get_queries_with_timesort monitor in
      let filtered_original_memory :=
        filter (λ origin_mem, "mode:fast" ∉ tags (metadata origin_mem))
               original_memory in
      bind_result
        (RerankPipeline.process_and_rerank_memories
           query_history filtered_original_memory new_memory top_k)
        (λ '(memories_with_new_order, rerank_success_flag),
           let '(filtered_memories, filter_success_flag) :=
             filter_unrelated_memories query_history memories_with_new_order in
           let memories_with_new_order :=
             if filter_success_flag : bool then filtered_memories
             else memories_with_new_order in
           let query_keywords := get_keywords_collections monitor in
           let new_working_memory_monitors :=
             transform_working_memories_to_monitors
               query_keywords memories_with_new_order in
           let new_working_memory_monitors :=
             if rerank_success_flag : bool then new_working_memory_monitors
             else set_sorting_score 0 <$> new_working_memory_monitors in
           let monitor :=
             update_working_memory_monitors new_working_memory_monitors monitor in
           let mem_monitors := get_sorted_mem_monitors monitor in
           let new_working_memories := tree_memory_item <$> mem_monitors in
           Ok {| monitor_after := monitor;
                 written_back := Some new_working_memories;
                 returned := memories_with_new_order |})
  | NaiveTextMemory =>
      let monitor := sync_with_orm monitor in
      let query_keywords := get_keywords_collections monitor in
      let new_working_memory_monitors :=
        transform_working_memories_to_monitors query_keywords new_memory in
      let monitor :=
        update_working_memory_monitors new_working_memory_monitors monitor in
      Ok {| monitor_after := monitor; written_back := None; returned := new_memory |}
  | UnsupportedTextMemory =>
      Ok {| monitor_after := monitor; written_back := None; returned := new_memory |}
  end.

(** The working set written back to the mem-cube, if any. *)
Definition written (outcome : result Replaced) : option (list TextualMemoryItem) :=
  match outcome with
  | Ok replaced => written_back replaced
  | Raise _ => None
  end.

(** The sum the specification gives for [keywords_score]: occurrences times
    frequency, over the keywords that occur at least once. *)
Definition weighted_occurrences (query_keywords : list (string * Z)) (text : string) : Z :=
  foldr Z.add 0
    ((λ kc, Z.of_nat (PyStr.count text kc.1) * kc.2)
       <$> filter (λ kc, (0 < PyStr.count text kc.1)%nat) query_keywords).

End Defs.
End MemoryOps.

(** ** What the memory-update handler reaches through its context *)

Record IntentResult : Type := mkIntent {
  trigger_retrieval : bool;
  missing_evidences : list string;
}.

(** What the handler reaches through its scheduler context: the mem-cube's
    working memory, the monitor's intent detection and timer, and the two
    search entry points ([None]: the naive search raised). *)
Class HandlerContext : Type := {
  get_working_memory : list TextualMemoryItem;
  detect_intent : list string → list string → IntentResult;
  timed_trigger : bool;
  retriever_search : string → Z → list TextualMemoryItem;
  naive_search : string → Z → option (list TextualMemoryItem);
}.

(** ** Stand-ins for the collaborators, used to run the model on examples *)

Module Mock.

(** Keys are the texts themselves, the similarity filter keeps everything,
    the length filter drops texts shorter than the threshold, the unrelated
    filter keeps everything, and the LLM's reply parses to [answer]. *)
Definition retriever (answer : option json) : Retriever := {|
  transform_name_to_key := λ name, name;
  filter_vector_based_similar_memories := λ text_memories, text_memories;
  filter_too_short_memories := λ text_memories min_length_threshold,
    filter (λ text, min_length_threshold ≤ Z.of_nat (PyStr.len text)) text_memories;
  build_prompt := λ template_name _ _, template_name;
  generate := λ _, "reply";
  extract_json_obj := λ _, answer;
  filter_unrelated_memories := λ _ memories, (memories, true);
|}.

Definition item (name text : string) (item_tags : list string) : TextualMemoryItem :=
  mkItem name text (mkMetadata "user" "LongTermMemory" item_tags).

(** A well-formed reply of the reranker. *)
Definition reply (new_order : list Z) : json :=
  JObj [("new_order", JArr (JInt <$> new_order)); ("reasoning", JStr "by relevance")].

Definition x : TextualMemoryItem := item "x" "x-ray memory" [].
Definition y : TextualMemoryItem := item "y" "yankee memory" [].
Definition z : TextualMemoryItem := item "z" "zulu memory" [].
Definition w : TextualMemoryItem := item "w" "whiskey memory" [].

(** The monitor of the examples is the monitor of the specification. *)
Definition monitor : Monitor WorkingMemoryMonitor.state := WorkingMemoryMonitor.monitor.

(** Scenario S1 of the specification: working set [A, B, C], the search
    brings [D, E], the reranker answers [D, A, B]. *)
Definition A : TextualMemoryItem := item "A" "alpha memory" [].
Definition B : TextualMemoryItem := item "B" "bravo memory" [].
Definition C : TextualMemoryItem := item "C" "charlie memory" [].
Definition D : TextualMemoryItem := item "D" "delta memory" [].
Definition E : TextualMemoryItem := item "E" "echo memory" [].

Definition s1_monitor : WorkingMemoryMonitor.state :=
  WorkingMemoryMonitor.mkState ["tell me about d"] [("d", 1)] [].

(** A memory of the fast mode. *)
Definition F : TextualMemoryItem := item "F" "foxtrot memory" ["mode:fast"].

(** A turn in which the intent detector sees nothing missing and the
    timer has not elapsed. *)
Definition quiet_context : HandlerContext := {|
  get_working_memory := [A; B; C];
  detect_intent := λ _ _, mkIntent false [];
  timed_trigger := false;
  retriever_search := λ _ _, [D; E];
  naive_search := λ _ _, Some [];
|}.

(** A turn in which the intent detector misses an evidence for every query,
    and a search that gives the first [k] of two items. *)
Definition busy_context : HandlerContext := {|
  get_working_memory := [A; B; C];
  detect_intent := λ q_list _, mkIntent true q_list;
  timed_trigger := false;
  retriever_search := λ _ k, take (Z.to_nat k) [D; E];
  naive_search := λ _ k, Some (take (Z.to_nat k) [D; E]);
|}.

End Mock.

(** ** Memory-update handler
    ([task_schedule_modules/handlers/memory_update_handler.py]) *)

Module MemoryUpdateHandler.
Section Defs.
Context `{Retriever} {S : Type} `{Monitor S} `{HandlerContext}.

(** The search loop over the missing evidences. *)
Definition search_evidences (text_mem_base : TextMemKind)
    (missing : list string) (k_per_evidence : Z) : list TextualMemoryItem :=
  missing ≫= λ item,
    match text_mem_base with
    | NaiveTextMemory => default [] (naive_search item k_per_evidence)
    | _ => retriever_search item k_per_evidence
    end.

(** [None] is Python's [None], the value of the bare [return]. *)
Definition process_session_turn
    (text_mem_base : TextMemKind) (queries : list string) (top_k : Z)
    : option (list TextualMemoryItem * list TextualMemoryItem) :=
  match text_mem_base with
  | UnsupportedTextMemory => Some ([], [])
  | _ =>
      let cur_working_memory :=
        match text_mem_base with
        | TreeTextMemory => PyList.slice_to top_k get_working_memory
        | _ => []
        end in
      let text_working_memory := memory <$> cur_working_memory in
      let intent_result := detect_intent queries text_working_memory in
      let time_trigger_flag := timed_trigger in
      if negb (trigger_retrieval intent_result) && negb time_trigger_flag then None
      else
        let missing :=
          if negb (trigger_retrieval intent_result) && time_trigger_flag
          then queries
          else missing_evidences intent_result in
        let num_evidence := Z.of_nat (length missing) in
        let k_per_evidence := Z.max 1 (top_k `div` Z.max 1 num_evidence) in
        Some (cur_working_memory,
              search_evidences text_mem_base missing k_per_evidence)
  end.

(** [a, b = value]: unpacking [None] raises. *)
Definition unpack_pair {A B} (value : option (A * B)) : result (A * B) :=
  match value with
  | Some both => Ok both
  | None => Raise "TypeError"
  end.

(** [long_memory_update_process] from the point where the queries of the
    batch have been recorded in the query monitor: the session turn, the
    unpacking of its value, and the replacement of the working memory.  (With
    an empty batch the name bound inside the recording loop is still unbound
    when it is used after the loop.) *)
Definition long_memory_update_process
    (text_mem_base : TextMemKind) (top_k : Z) (monitor : S) (contents : list string)
    : result MemoryOps.Replaced :=
  match contents with
  | [] => Raise "UnboundLocalError"
  | _ =>
      let queries := contents in
      bind_result
        (unpack_pair (process_session_turn text_mem_base queries top_k))
        (λ '(cur_working_memory, new_candidates),
           MemoryOps.replace_working_memory top_k text_mem_base monitor
             cur_working_memory new_candidates)
  end.

End Defs.
End MemoryUpdateHandler.

(** ** Messages and the submitting path ([base_mixins/queue_ops.py],
    [task_schedule_modules/registry.py]) *)

Inductive TaskPriorityLevel : Type :=
| LEVEL_1
| LEVEL_2
| LEVEL_3.

#[global] Instance TaskPriorityLevel_eq_dec : EqDecision TaskPriorityLevel.
Proof. solve_decision. Defined.

Module Msg.

(** [ScheduleMessageItem], the fields [submit_messages] reads or sets, and
    the attribute [_dequeue_ts] it attaches to a message ([None]: not set).  A
    time stamp is a [datetime] and the attribute a reading of the clock; both
    are kept as numbers. *)
Record ScheduleMessageItem : Type := mk {
  item_id : string;
  task_id : string;
  user_id : string;
  mem_cube_id : string;
  label : string;
  content : string;
  timestamp : option Z;
  trace_id : option string;
  _dequeue_ts : option Z;
}.

#[global] Instance eq_dec : EqDecision ScheduleMessageItem.
Proof. solve_decision. Defined.

End Msg.

Abbreviation ScheduleMessageItem := Msg.ScheduleMessageItem.

(** Python dictionaries of lists, in insertion order. *)
Module PyDict.

(** [groups.setdefault(k, []).append(v)] *)
Fixpoint setdefault_append {K V} `{EqDecision K}
    (k : K) (v : V) (groups : list (K * list V)) : list (K * list V) :=
  match groups with
  | [] => [(k, [v])]
  | (k', vs) :: rest =>
      if decide (k' = k) then (k', vs ++ [v]) :: rest
      else (k', vs) :: setdefault_append k v rest
  end.

Definition group_by {K V} `{EqDecision K} (key : V → K) (l : list V)
    : list (K * list V) :=
  foldl (λ groups v, setdefault_append (key v) v groups) [] l.

End PyDict.

(** Modelled from the spec: [group_messages_by_user_and_mem_cube] of
    [utils/misc_utils.py] is not among the sources; section 4.3 has a batch
    grouped by user and mem-cube, each group keeping the order of the batch. *)
Definition group_messages_by_user_and_mem_cube (messages : list ScheduleMessageItem)
    : list (string * list (string * list ScheduleMessageItem)) :=
  (λ user_group, (user_group.1, PyDict.group_by Msg.mem_cube_id user_group.2))
    <$> PyDict.group_by Msg.user_id messages.

(** What the scheduler object holds when [submit_messages] runs; [Handler]
    is the type of the registered callables. *)
Class Scheduler (Handler : Type) : Type := {
  get_current_trace_id : option string;
  get_utc_now : Z;
  (** [time.time()], as read when the inline message at the given position
      is taken up *)
  time_time : nat → Z;
  disabled_handlers : option (list string);
  (** [orchestrator.get_task_priority] *)
  get_task_priority : string → TaskPriorityLevel;
  (** [dispatcher.handlers] *)
  handlers : gmap string Handler;
  _default_message_handler : Handler;
}.

Module QueueOps.
Section Defs.
Context {Handler : Type} `{Scheduler Handler}.

(** One call of [dispatcher.execute_task]. *)
Record ExecuteTask : Type := mkExecuteTask {
  call_user_id : string;
  call_mem_cube_id : string;
  call_task_label : string;
  call_msgs : list ScheduleMessageItem;
  call_handler : Handler;
}.

(** The calls [submit_messages] makes on the dispatcher and on the task
    queue (metrics, status tracking and monitor events are left out; a call
    of [dispatcher.execute_task] is taken to return). *)
Record Submitted : Type := mkSubmitted {
  executed : list ExecuteTask;
  queue_submitted : option (list ScheduleMessageItem);
}.

(** The trace id and time stamp a message gets at the head of the loop. *)
Definition stamp (msg : ScheduleMessageItem) : ScheduleMessageItem :=
  {| Msg.item_id := Msg.item_id msg;
     Msg.task_id := Msg.task_id msg;
     Msg.user_id := Msg.user_id msg;
     Msg.mem_cube_id := Msg.mem_cube_id msg;
     Msg.label := Msg.label msg;
     Msg.content := Msg.content msg;
     Msg.timestamp :=
       match Msg.timestamp msg with
       | None => Some get_utc_now
       | Some ts => Some ts
       end;
     Msg.trace_id :=
       match get_current_trace_id with
       | Some current_trace_id =>
           if bool_decide (current_trace_id = "") then Msg.trace_id msg
           else Some current_trace_id
       | None => Msg.trace_id msg
       end;
     Msg._dequeue_ts := Msg._dequeue_ts msg |}.

(** [object.__setattr__(m, "_dequeue_ts", now)] *)
Definition set_dequeue_ts (now : Z) (m : ScheduleMessageItem) : ScheduleMessageItem :=
  {| Msg.item_id := Msg.item_id m;
     Msg.task_id := Msg.task_id m;
     Msg.user_id := Msg.user_id m;
     Msg.mem_cube_id := Msg.mem_cube_id m;
     Msg.label := Msg.label m;
     Msg.content := Msg.content m;
     Msg.timestamp := Msg.timestamp m;
     Msg.trace_id := Msg.trace_id m;
     Msg._dequeue_ts := Some now |}.

(** The loop that takes up the inline messages one by one: each gets the
    reading of the clock at its turn.  (Reading the time stamp of a message
    does not raise; the calls of the [try] block that may raise come after the
    attribute is set.) *)
Definition dequeue_immediate (immediate_msgs : list ScheduleMessageItem)
    : list ScheduleMessageItem :=
  imap (λ position m, set_dequeue_ts (time_time position) m) immediate_msgs.

(** A message without the attribute, to compare messages up to it. *)
Definition without_dequeue_ts (m : ScheduleMessageItem) : ScheduleMessageItem :=
  {| Msg.item_id := Msg.item_id m;
     Msg.task_id := Msg.task_id m;
     Msg.user_id := Msg.user_id m;
     Msg.mem_cube_id := Msg.mem_cube_id m;
     Msg.label := Msg.label m;
     Msg.content := Msg.content m;
     Msg.timestamp := Msg.timestamp m;
     Msg.trace_id := Msg.trace_id m;
     Msg._dequeue_ts := None |}.

(** [self.disabled_handlers and msg.label in self.disabled_handlers] *)
Definition is_disabled (msg : ScheduleMessageItem) : bool :=
  match disabled_handlers with
  | Some disabled => bool_decide (disabled ≠ []) && bool_decide (Msg.label msg ∈ disabled)
  | None => false
  end.

Definition is_immediate (msg : ScheduleMessageItem) : bool :=
  negb (is_disabled msg)
  && bool_decide (get_task_priority (Msg.label msg) = LEVEL_1).

Definition is_queued (msg : ScheduleMessageItem) : bool :=
  negb (is_disabled msg)
  && negb (bool_decide (get_task_priority (Msg.label msg) = LEVEL_1)).

(** [self.dispatcher.handlers.get(label, self.dispatcher._default_message_handler)] *)
Definition handler_for (label : string) : Handler :=
  default _default_message_handler (handlers !! label).

(** The nested loops over users, mem-cubes and labels. *)
Definition execute_immediate (immediate_msgs : list ScheduleMessageItem)
    : list ExecuteTask :=
  group_messages_by_user_and_mem_cube immediate_msgs ≫= λ user_group,
    user_group.2 ≫= λ cube_group,
      (λ label_group,
         mkExecuteTask user_group.1 cube_group.1 label_group.1 label_group.2
           (handler_for label_group.1))
      <$> PyDict.group_by Msg.label cube_group.2.

Definition submit_messages (messages : list ScheduleMessageItem) : Submitted :=
  let stamped := stamp <$> messages in
  let immediate_msgs := filter (λ msg, is_immediate msg = true) stamped in
  let queued_msgs := filter (λ msg, is_queued msg = true) stamped in
  {| executed := execute_immediate (dequeue_immediate immediate_msgs);
     queue_submitted :=
       match queued_msgs with
       | [] => None
       | _ => Some queued_msgs
       end |}.

(** The messages on the task queue after the call. *)
Definition on_queue (outcome : Submitted) : list ScheduleMessageItem :=
  default [] (queue_submitted outcome).

End Defs.
End QueueOps.

(** ** The handler registry ([task_schedule_modules/registry.py]) *)

Module Registry.

(** Modelled from the spec: the label constants of
    [schemas/task_schemas.py] are not among the sources; these are the label
    names of section 3. *)
Definition QUERY_TASK_LABEL : string := "query".
Definition ANSWER_TASK_LABEL : string := "answer".
Definition ADD_TASK_LABEL : string := "add".
Definition MEM_UPDATE_TASK_LABEL : string := "memory_update".
Definition MEM_READ_TASK_LABEL : string := "mem_read".
Definition MEM_ORGANIZE_TASK_LABEL : string := "mem_reorganize".
Definition MEM_FEEDBACK_TASK_LABEL : string := "mem_feedback".
Definition PREF_ADD_TASK_LABEL : string := "pref_add".

(** [build_dispatch_map]: label, handler (by the attribute that holds it),
    priority and time-to-live in milliseconds; an entry that is a bare
    handler has neither. *)
Definition build_dispatch_map
    : list (string * (string * option TaskPriorityLevel * option Z)) :=
  [ (QUERY_TASK_LABEL, ("query", Some LEVEL_1, None));
    (ANSWER_TASK_LABEL, ("answer", Some LEVEL_1, None));
    (MEM_UPDATE_TASK_LABEL, ("memory_update", None, None));
    (ADD_TASK_LABEL, ("add", Some LEVEL_1, None));
    (MEM_READ_TASK_LABEL, ("mem_read", None, None));
    (MEM_ORGANIZE_TASK_LABEL, ("mem_reorganize", None, None));
    (PREF_ADD_TASK_LABEL, ("pref_add", None, Some 600000));
    (MEM_FEEDBACK_TASK_LABEL, ("mem_feedback", None, None)) ].

(** Modelled from the spec: [SchedulerOrchestrator] is not among the
    sources; section 4.2 makes the priority a function of the label.  A label
    gets the priority the dispatch map registers for it, and [LEVEL_3] when it
    registers none. *)
Definition registered_priority (label : string) : TaskPriorityLevel :=
  match (list_to_map build_dispatch_map
           : gmap string (string * option TaskPriorityLevel * option Z)) !! label with
  | Some (_, Some priority, _) => priority
  | _ => LEVEL_3
  end.

(** The scheduler after [register_handlers(build_dispatch_map())]. *)
Definition scheduler (disabled : option (list string)) : Scheduler string := {|
  get_current_trace_id := Some "trace-1";
  get_utc_now := 1700000000;
  time_time := λ position, 1700000002 + Z.of_nat position;
  disabled_handlers := disabled;
  get_task_priority := registered_priority;
  handlers := list_to_map ((λ entry, (entry.1, entry.2.1.1)) <$> build_dispatch_map);
  _default_message_handler := "_default_message_handler";
|}.

Definition message (name label : string) : ScheduleMessageItem :=
  Msg.mk name "task" "user" "cube" label "content" None None None.

End Registry.

(** ** Activation memory manager
    ([memory_manage_modules/activation_memory_manager.py]) *)

(** The records of a cache item ([memories/activation/item.py] is outside
    the modules modelled here; these are the fields the manager reads or
    writes). *)
Record KVCacheRecords : Type := mkRecords {
  text_memories : list string;
  composed_text_memory : string;
  records_timestamp : Z;
}.

Record VLLMKVCacheItem : Type := mkCacheItem {
  cache_payload : string;
  records : KVCacheRecords;
}.

(** What [mem_cube.act_mem] is an instance of. *)
Inductive ActMemKind : Type :=
| VLLMKVCacheMemory
| KVCacheMemory
| UnsupportedActMem.

(** The activation memory of the mem-cube, the log function and the prompt
    template.  The cache of [act_mem] is a list, read by [get_all], emptied by
    [delete_all] and extended by [add] (reading and emptying it are taken to
    return); the calls that follow [delete_all] in the [try] block may raise:
    [act_mem.extract] ([None]: it raised), [act_mem.add] on the items given
    ([false]: it raised, and stored nothing), [act_mem.dump] of the cache
    given ([false]: it raised) and [log_activation_memory_update_func] on the
    old and the new texts ([false]: it raised). *)
Class ActivationMemory : Type := {
  act_mem_kind : ActMemKind;
  extract : string → option VLLMKVCacheItem;
  act_mem_add : list VLLMKVCacheItem → bool;
  act_mem_dump : list VLLMKVCacheItem → bool;
  log_activation_memory_update_func : list string → list string → bool;
  MEMORY_ASSEMBLY_TEMPLATE : string → string;
}.

(** [new_memories] is a list of texts or a list of items, told apart by
    its first element. *)
Inductive NewMemories : Type :=
| Texts (texts : list string)
| Items (items : list TextualMemoryItem).

Module ActivationMemoryManager.
Section Defs.
Context `{ActivationMemory}.

(** The cache held by [act_mem], with counters for the calls made on it
    and on the log function (a call that raises is counted as well) and for
    the exceptions caught by the handler of the [try] block. *)
Record ActState : Type := mkActState {
  cache : list VLLMKVCacheItem;
  n_delete_all : nat;
  n_extract : nat;
  n_add : nat;
  n_dump : nat;
  n_logged : nat;
  n_caught : nat;
}.

Definition text_list (new_memories : NewMemories) : list string :=
  match new_memories with
  | Texts texts => texts
  | Items items => memory <$> items
  end.

(** The numbered lines: blank sentences are skipped and keep their number. *)
Definition numbered_lines (new_text_memories : list string) : list string :=
  omap (λ line, line)
    (imap (λ i sentence,
             if bool_decide (PyStr.strip sentence = "") then None
             else Some (pretty (i + 1)%nat +:+ ". " +:+ PyStr.strip sentence +:+ PyStr.nl))
          new_text_memories).

Definition compose (new_text_memories : list string) : string :=
  MEMORY_ASSEMBLY_TEMPLATE (foldr String.append "" (numbered_lines new_text_memories)).

(** [cache_item.records.text_memories = ...; cache_item.records.timestamp = ...] *)
Definition stamp_records (new_text_memories : list string) (now : Z)
    (cache_item : VLLMKVCacheItem) : VLLMKVCacheItem :=
  {| cache_payload := cache_payload cache_item;
     records :=
       {| text_memories := new_text_memories;
          composed_text_memory := composed_text_memory (records cache_item);
          records_timestamp := now |} |}.

(** The calls, as they show in the state. *)
Definition called_extract (st : ActState) : ActState :=
  mkActState (cache st) (n_delete_all st) (S (n_extract st)) (n_add st) (n_dump st)
    (n_logged st) (n_caught st).

Definition called_add (st : ActState) : ActState :=
  mkActState (cache st) (n_delete_all st) (n_extract st) (S (n_add st)) (n_dump st)
    (n_logged st) (n_caught st).

Definition stored (cache_item : VLLMKVCacheItem) (st : ActState) : ActState :=
  mkActState (cache st ++ [cache_item]) (n_delete_all st) (n_extract st) (n_add st)
    (n_dump st) (n_logged st) (n_caught st).

Definition called_dump (st : ActState) : ActState :=
  mkActState (cache st) (n_delete_all st) (n_extract st) (n_add st) (S (n_dump st))
    (n_logged st) (n_caught st).

Definition called_log (st : ActState) : ActState :=
  mkActState (cache st) (n_delete_all st) (n_extract st) (n_add st) (n_dump st)
    (S (n_logged st)) (n_caught st).

(** The handler of the [try] block: the exception is logged and the call
    ends. *)
Definition caught (st : ActState) : ActState :=
  mkActState (cache st) (n_delete_all st) (n_extract st) (n_add st) (n_dump st)
    (n_logged st) (S (n_caught st)).

(** From [act_mem.extract] to the log call, with [original_text_memories]
    the texts of the last item of the old cache.  An exception raised by any
    of the four calls goes to the handler: the calls after it are not made. *)
Definition extract_and_add (original_text_memories new_text_memories : list string)
    (new_text_memory : string) (now : Z) (st : ActState) : ActState :=
  let st := called_extract st in
  match extract new_text_memory with
  | None => caught st
  | Some cache_item =>
      let cache_item := stamp_records new_text_memories now cache_item in
      let st := called_add st in
      if act_mem_add [cache_item] then
        let st := called_dump (stored cache_item st) in
        if act_mem_dump (cache st) then
          let st := called_log st in
          if log_activation_memory_update_func original_text_memories new_text_memories
          then st
          else caught st
        else caught st
      else caught st
  end.

(** [act_mem.delete_all()] *)
Definition delete_all (st : ActState) : ActState :=
  mkActState [] (S (n_delete_all st)) (n_extract st) (n_add st) (n_dump st)
    (n_logged st) (n_caught st).

Definition update_activation_memory
    (new_memories : NewMemories) (now : Z) (st : ActState) : ActState :=
  match text_list new_memories with
  | [] => st
  | _ =>
      let new_text_memories := text_list new_memories in
      match act_mem_kind with
      | UnsupportedActMem => st
      | _ =>
          let new_text_memory := compose new_text_memories in
          match last (cache st) with
          | Some pre_cache_item =>
              if bool_decide
                   (composed_text_memory (records pre_cache_item) = new_text_memory)
              then st
              else extract_and_add (text_memories (records pre_cache_item))
                     new_text_memories new_text_memory now (delete_all st)
          | None => extract_and_add [] new_text_memories new_text_memory now st
          end
      end
  end.

End Defs.
End ActivationMemoryManager.

Module MockActivation.

Definition template (memory_text : string) : string :=
  "Working memories:" +:+ PyStr.nl +:+ memory_text.

(** An activation memory whose extractor records the text it was given. *)
Definition recording : ActivationMemory := {|
  act_mem_kind := VLLMKVCacheMemory;
  extract := λ text, Some (mkCacheItem "kv" (mkRecords [] text 0));
  act_mem_add := λ _, true;
  act_mem_dump := λ _, true;
  log_activation_memory_update_func := λ _ _, true;
  MEMORY_ASSEMBLY_TEMPLATE := template;
|}.

(** One whose extractor leaves the composed text of the records at its
    default, the empty string. *)
Definition forgetful : ActivationMemory := {|
  act_mem_kind := VLLMKVCacheMemory;
  extract := λ text, Some (mkCacheItem "kv" (mkRecords [] "" 0));
  act_mem_add := λ _, true;
  act_mem_dump := λ _, true;
  log_activation_memory_update_func := λ _ _, true;
  MEMORY_ASSEMBLY_TEMPLATE := template;
|}.

Definition empty_state : ActivationMemoryManager.ActState :=
  ActivationMemoryManager.mkActState [] 0 0 0 0 0 0.

(** Scenario S5 of the specification: the working set [m1, m2]. *)
Definition s5_memories : NewMemories := Texts ["m1 likes tea"; "m2 lives in Oslo"].

(** An activation memory whose extractor raises. *)
Definition failing : ActivationMemory := {|
  act_mem_kind := VLLMKVCacheMemory;
  extract := λ _, None;
  act_mem_add := λ _, true;
  act_mem_dump := λ _, true;
  log_activation_memory_update_func := λ _ _, true;
  MEMORY_ASSEMBLY_TEMPLATE := template;
|}.

(** A cache that holds one item, extracted from another prompt. *)
Definition stale_state : ActivationMemoryManager.ActState :=
  ActivationMemoryManager.mkActState
    [mkCacheItem "kv" (mkRecords ["old"] "old prompt" 1)] 0 0 0 0 0 0.

End MockActivation.

(** ** Web-log plane ([base_mixins/web_log_ops.py]) *)

Module WebLog.

(** [ScheduleLogForWebItem], the fields the normalisation reads; the
    entries of [memcube_log_content] and [metadata] are dictionaries. *)
Record ScheduleLogForWebItem : Type := mk {
  item_id : string;
  task_id : string;
  user_id : string;
  mem_cube_id : string;
  label : string;
  log_content : string;
  memcube_log_content : option (list (list (string * json)));
  metadata : option (list (list (string * json)));
  memcube_name : option string;
  memory_len : option Z;
}.

(** The dictionary [get_web_log_messages] returns for one item. *)
Record Normalized : Type := mkNormalized {
  n_item_id : string;
  n_task_id : string;
  n_user_id : string;
  n_mem_cube_id : string;
  n_label : string;
  n_log_content : string;
  n_memcube_log_content : list (list (string * json));
  n_metadata : list (list (string * json));
  n_memcube_name : option string;
  n_memory_len : Z;
  n_log_title : string;
}.

End WebLog.

(** The label constants of [schemas/task_schemas.py] used by the label
    mapping, the name mapping of the logger module, and the broker:
    [rabbitmq_publish_message] answers [false] when publishing raised. *)
Class WebLogEnv : Type := {
  QUERY_TASK_LABEL : string;
  ANSWER_TASK_LABEL : string;
  ADD_TASK_LABEL : string;
  MEM_UPDATE_TASK_LABEL : string;
  MEM_ORGANIZE_TASK_LABEL : string;
  MEM_ARCHIVE_TASK_LABEL : string;
  _map_memcube_name : string → string;
  rabbitmq_publish_message : WebLog.ScheduleLogForWebItem → bool;
}.

Module WebLogOps.
Section Defs.
Context `{WebLogEnv}.

(** The scheduler's [rabbitmq_config], its [_web_log_message_queue] (oldest
    first) and the messages handed to the broker so far. *)
Record WebLogState : Type := mkWebLogState {
  rabbitmq_config : option string;
  _web_log_message_queue : list WebLog.ScheduleLogForWebItem;
  published : list WebLog.ScheduleLogForWebItem;
}.

(** The loop returns at its first message when no broker is configured;
    nothing in it puts a message on the queue, whose size it logs at the
    end. *)
Definition _submit_web_logs (st : WebLogState)
    (messages : list WebLog.ScheduleLogForWebItem) : WebLogState :=
  match rabbitmq_config st with
  | None => st
  | Some _ =>
      {| rabbitmq_config := rabbitmq_config st;
         _web_log_message_queue := _web_log_message_queue st;
         published :=
           published st ++ filter (λ message, rabbitmq_publish_message message = true)
                                  messages |}
  end.

(** Python truthiness of a JSON value; of the floats the two zeros are
    false. *)
Definition truthy (v : json) : bool :=
  match v with
  | JNull => false
  | JBool b => b
  | JInt n => negb (n =? 0)
  | JFloat (S754_zero _) => false
  | JFloat _ => true
  | JStr s => negb (bool_decide (s = ""))
  | JArr items => negb (bool_decide (items = []))
  | JObj fields => negb (bool_decide (fields = []))
  end.

(** The label mapping: a dictionary built from the six constants, a later
    entry replacing an earlier one with the same key. *)
Definition label_mapping : gmap string string :=
  <[MEM_ARCHIVE_TASK_LABEL := "archiveMemory"]>
  (<[MEM_ORGANIZE_TASK_LABEL := "mergeMemory"]>
  (<[MEM_UPDATE_TASK_LABEL := "updateMemory"]>
  (<[ADD_TASK_LABEL := "addMemory"]>
  (<[ANSWER_TASK_LABEL := "addMessage"]>
  (<[QUERY_TASK_LABEL := "addMessage"]> ∅))))).

Definition _map_label (label : string) : string :=
  default label (label_mapping !! label).

(** [enriched.get("updated_at") or enriched.get("update_at")] *)
Definition updated_at_of (meta : list (string * json)) : json :=
  match PyJson.assoc "updated_at" meta with
  | Some v => if truthy v then v else default JNull (PyJson.assoc "update_at" meta)
  | None => default JNull (PyJson.assoc "update_at" meta)
  end.

Definition _with_memory_time (meta : list (string * json)) : list (string * json) :=
  match PyJson.assoc "memory_time" meta with
  | Some _ => meta
  | None => meta ++ [("memory_time", updated_at_of meta)]
  end.

(** [c.get("type") != "postMerge"] *)
Definition not_post_merge (c : list (string * json)) : bool :=
  match PyJson.assoc "type" c with
  | Some (JStr "postMerge") => false
  | _ => true
  end.

Definition _normalize_item (item : WebLog.ScheduleLogForWebItem) : WebLog.Normalized :=
  let label := _map_label (WebLog.label item) in
  let memcube_content := default [] (WebLog.memcube_log_content item) in
  let metadata := default [] (WebLog.metadata item) in
  let memcube_name :=
    match WebLog.memcube_name item with
    | Some name =>
        if bool_decide (name = "") then Some (_map_memcube_name (WebLog.mem_cube_id item))
        else Some name
    | None => Some (_map_memcube_name (WebLog.mem_cube_id item))
    end in
  let memory_len :=
    match WebLog.memory_len item with
    | Some n => n
    | None =>
        if bool_decide (label = "mergeMemory")
        then Z.of_nat (length (filter (λ c, not_post_merge c = true) memcube_content))
        else match memcube_content with
             | _ :: _ => Z.of_nat (length memcube_content)
             | [] => if bool_decide (WebLog.log_content item = "") then 0 else 1
             end
    end in
  {| WebLog.n_item_id := WebLog.item_id item;
     WebLog.n_task_id := WebLog.task_id item;
     WebLog.n_user_id := WebLog.user_id item;
     WebLog.n_mem_cube_id := WebLog.mem_cube_id item;
     WebLog.n_label := label;
     WebLog.n_log_content := WebLog.log_content item;
     WebLog.n_memcube_log_content := memcube_content;
     WebLog.n_metadata := _with_memory_time <$> metadata;
     WebLog.n_memcube_name := memcube_name;
     WebLog.n_memory_len := memory_len;
     WebLog.n_log_title := "" |}.

(** The queue is drained with [get_nowait] until it is empty. *)
Definition get_web_log_messages (st : WebLogState)
    : list WebLog.Normalized * WebLogState :=
  (_normalize_item <$> _web_log_message_queue st,
   {| rabbitmq_config := rabbitmq_config st;
      _web_log_message_queue := [];
      published := published st |}).

End Defs.
End WebLogOps.

Module MockWebLog.

Definition env : WebLogEnv := {|
  QUERY_TASK_LABEL := "query";
  ANSWER_TASK_LABEL := "answer";
  ADD_TASK_LABEL := "add";
  MEM_UPDATE_TASK_LABEL := "memory_update";
  MEM_ORGANIZE_TASK_LABEL := "mem_reorganize";
  MEM_ARCHIVE_TASK_LABEL := "mem_archive";
  _map_memcube_name := λ mem_cube_id, "cube " +:+ mem_cube_id;
  rabbitmq_publish_message := λ _, true;
|}.

Definition event (name label : string) : WebLog.ScheduleLogForWebItem :=
  WebLog.mk name "task" "user" "c1" label "said hello" None None None None.

End MockWebLog.

(** ** The batch splitter of the enhancement pipeline
    ([EnhancementPipeline._split_batches]) *)

Module SplitBatches.

(** An index of a slice, brought into [0 .. n] as Python does. *)
Definition clamp (n i : Z) : Z :=
  if i <? 0 then Z.max 0 (i + n) else Z.min i n.

(** [l[start:stop]] *)
Definition slice {A} (start stop : Z) (l : list A) : list A :=
  let n := Z.of_nat (length l) in
  take (Z.to_nat (clamp n stop - clamp n start)) (drop (Z.to_nat (clamp n start)) l).

(** [while start < n]: every round appends [(start, end, memories[start:end])]
    and goes on from [end]; [fuel] bounds the unfolding and [None] means it
    ran out. *)
Fixpoint split_loop {A} (fuel : nat) (memories : list A) (batch_size start : Z)
    : option (list (Z * Z * list A)) :=
  match fuel with
  | O => None
  | S fuel' =>
      let n := Z.of_nat (length memories) in
      if start <? n then
        let stop := Z.min (start + batch_size) n in
        batches ← split_loop fuel' memories batch_size stop;
        Some ((start, stop, slice start stop memories) :: batches)
      else Some []
  end.

Definition _split_batches {A} (fuel : nat) (memories : list A) (batch_size : Z)
    : option (list (Z * Z * list A)) :=
  split_loop fuel memories batch_size 0.

(** The consecutive slices of a list, [size] elements each but for the
    last: what the loop makes of a positive batch size. *)
Fixpoint slices_go {A} (fuel : nat) (size : nat) (l : list A) : list (list A) :=
  match fuel, l with
  | S fuel', _ :: _ => take size l :: slices_go fuel' size (drop size l)
  | _, _ => []
  end.

Definition slices {A} (memories : list A) (size : Z) : list (list A) :=
  slices_go (length memories) (Z.to_nat size) memories.

End SplitBatches.

(** ** Enhancement pipeline ([memory_manage_modules/enhancement_pipeline.py]) *)

Inductive FineStrategy : Type :=
| REWRITE
| RECREATE
| OtherStrategy.

(** The strategy constant of [types/general_types.py], the LLM, the list
    extractor of [utils/misc_utils.py], the id a fresh item gets, and the
    order in which the batch futures complete.  [llm_items b a] is what
    [generate] followed by [extract_list_items_in_answer] yields at call
    number [a] of batch [b]; [None] when either raised. *)
Class Enhancer : Type := {
  FINE_STRATEGY : FineStrategy;
  llm_items : nat → nat → option (list string);
  fresh_id : nat → nat → string;
  as_completed : ∀ {A : Type}, list A → list A;
  batch_size : option Z;
  retries_config : Z;
}.

Module EnhancementPipeline.
Section Defs.
Context `{Enhancer}.

Definition is_digit (c : ascii) : bool :=
  let n := nat_of_ascii c in ((48 <=? n) && (n <=? 57))%nat.

(** The longest run of digits at the head, and what follows it. *)
Fixpoint span_digits (s : string) : string * string :=
  match s with
  | String c r =>
      if is_digit c then (String c (span_digits r).1, (span_digits r).2)
      else ("", s)
  | "" => ("", "")
  end.

(** [int(digits)] *)
Definition int_of_digits (digits : string) : nat :=
  foldl (λ acc c, 10 * acc + (nat_of_ascii c - 48))%nat 0%nat
        (String.list_ascii_of_string digits).

Definition has_line_feed (s : string) : bool :=
  existsb (λ c, Ascii.eqb c "010"%char) (String.list_ascii_of_string s).

(** The tail [\s*(.+)$] of both patterns: after the white space at least
    one character must follow, and no line feed up to the end. *)
Definition text_group (tail : string) : option string :=
  let text := PyStr.lstrip tail in
  if bool_decide (text = "") || has_line_feed text then None
  else Some (PyStr.strip text).

(** [^\s*\[(\d+)\]\s*(.+)$] on a stripped string *)
Definition match_bracketed (s : string) : option (nat * string) :=
  match s with
  | String "[" r =>
      let '(digits, after) := span_digits r in
      match digits, after with
      | String _ _, String "]" tail =>
          text ← text_group tail; Some (int_of_digits digits, text)
      | _, _ => None
      end
  | _ => None
  end.

(** [^\s*(\d+)\s*[:\-\)]\s*(.+)$] on a stripped string *)
Definition match_numbered (s : string) : option (nat * string) :=
  let '(digits, after) := span_digits s in
  match digits, PyStr.lstrip after with
  | String _ _, String sep tail =>
      if Ascii.eqb sep ":" || Ascii.eqb sep "-" || Ascii.eqb sep ")"
      then text ← text_group tail; Some (int_of_digits digits, text)
      else None
  | _, _ => None
  end.

Definition _parse_index_and_text (s : string) : option nat * string :=
  let s := PyStr.strip s in
  match match_bracketed s with
  | Some (idx, text) => (Some idx, text)
  | None =>
      match match_numbered s with
      | Some (idx, text) => (Some idx, text)
      | None => (None, s)
      end
  end.

(** The [REWRITE] loop: the item named by the parsed index, else the item
    at the same position, keeps its id and metadata and gets the new text. *)
Definition rewrite_items (memories : list TextualMemoryItem)
    (processed_text_memories : list string) : list TextualMemoryItem :=
  omap (λ orig, orig)
    (imap (λ j item,
             let '(idx, new_text) := _parse_index_and_text item in
             let orig :=
               match idx with
               | Some i =>
                   match memories !! i with
                   | Some found => Some found
                   | None => memories !! j
                   end
               | None => memories !! j
               end in
             (λ o, mkItem (id o) new_text (metadata o)) <$> orig)
          processed_text_memories).

(** The [RECREATE] loop: fresh long-term items that inherit the user id. *)
Definition recreate_items (batch_index : nat) (requester : string)
    (processed_text_memories : list string) : list TextualMemoryItem :=
  imap (λ j new_mem,
          mkItem (fresh_id batch_index j) new_mem
                 (mkMetadata requester "LongTermMemory" []))
       processed_text_memories.

(** One pass through the [try] block; [None] when it raised. *)
Definition try_enhance (batch_index attempt : nat) (memories : list TextualMemoryItem)
    : option (list TextualMemoryItem) :=
  processed_text_memories ← llm_items batch_index attempt;
  match processed_text_memories, memories with
  | [], _ => None
  | _, [] => None
  | _, first :: _ =>
      Some match FINE_STRATEGY with
           | RECREATE =>
               recreate_items batch_index (user_id (metadata first))
                 processed_text_memories
           | REWRITE => rewrite_items memories processed_text_memories
           | OtherStrategy => []
           end
  end.

(** What a batch yields, with the number of LLM calls it made. *)
Record BatchOutcome : Type := mkBatchOutcome {
  enhanced : list TextualMemoryItem;
  ok : bool;
  llm_calls : nat;
}.

(** [while attempt <= max(0, retries) + 1]: [attempt] counts the failed
    passes so far; [fuel] bounds the unfolding and [None] means it ran out. *)
Fixpoint attempt_loop (fuel : nat) (batch_index : nat)
    (memories : list TextualMemoryItem) (retries : Z) (attempt : nat)
    : option BatchOutcome :=
  match fuel with
  | O => None
  | S fuel' =>
      if Z.of_nat attempt <=? Z.max 0 retries + 1 then
        match try_enhance batch_index attempt memories with
        | Some enhanced_memories =>
            Some (mkBatchOutcome enhanced_memories true (S attempt))
        | None => attempt_loop fuel' batch_index memories retries (S attempt)
        end
      else Some (mkBatchOutcome memories false attempt)
  end.

(** The number of passes the loop makes when every pass fails. *)
Definition passes (retries : Z) : nat := Z.to_nat (Z.max 0 retries + 2).

(** Fuel that always suffices. *)
Definition enough_fuel (retries : Z) : nat := Z.to_nat (Z.max 0 retries + 3).

(** The prompt is built before the loop; [query_history[0]] raises for an
    empty history. *)
Definition _process_enhancement_batch (batch_index : nat)
    (query_history : list string) (memories : list TextualMemoryItem) (retries : Z)
    : result BatchOutcome :=
  match query_history with
  | [] => Raise "IndexError"
  | _ =>
      match attempt_loop (enough_fuel retries) batch_index memories retries 0 with
      | Some outcome => Ok outcome
      | None => Raise "out of fuel"
      end
  end.

(** All batches run; an exception of any of them surfaces at [fut.result()]. *)
Fixpoint run_batches (batch_index : nat) (query_history : list string)
    (batches : list (list TextualMemoryItem)) (retries : Z)
    : result (list BatchOutcome) :=
  match batches with
  | [] => Ok []
  | batch :: rest =>
      bind_result (_process_enhancement_batch batch_index query_history batch retries)
        (λ outcome,
           bind_result (run_batches (S batch_index) query_history rest retries)
             (λ outcomes, Ok (outcome :: outcomes)))
  end.

(** [None]: the call does not return.  That is the case when the splitter
    is called with a batch size that is not positive, on which its loop never
    ends; for every other size the fuel given to the loop, one round for each
    memory and one more, suffices. *)
Definition enhance_memories_with_query
    (query_history : list string) (memories : list TextualMemoryItem)
    : option (list TextualMemoryItem * bool) :=
  match memories with
  | [] => Some (memories, true)
  | _ =>
      let num_of_memories := Z.of_nat (length memories) in
      let single :=
        match batch_size with
        | None => true
        | Some size => num_of_memories <=? size
        end in
      if single then
        Some match _process_enhancement_batch 0 query_history memories
                     retries_config with
             | Ok outcome => (enhanced outcome, ok outcome)
             | Raise _ => (memories, false)
             end
      else
        batches ← SplitBatches._split_batches (S (length memories)) memories
                    (default 0 batch_size);
        Some match run_batches 0 query_history (batches.*2) retries_config with
             | Ok outcomes =>
                 let finished := as_completed outcomes in
                 (finished ≫= enhanced, forallb ok finished)
             | Raise _ => (memories, false)
             end
  end.

End Defs.
End EnhancementPipeline.

Module MockEnhancer.

(** An LLM that fails on every call, with the default of one retry. *)
Definition failing : Enhancer := {|
  FINE_STRATEGY := REWRITE;
  llm_items := λ _ _, None;
  fresh_id := λ b j, "new-" +:+ pretty b +:+ "-" +:+ pretty j;
  as_completed := λ A l, l;
  batch_size := Some 2;
  retries_config := 1;
|}.

(** An LLM that answers the rewrite prompt on its first call. *)
Definition rewriting : Enhancer := {|
  FINE_STRATEGY := REWRITE;
  llm_items := λ _ _, Some ["[1] yankee, rewritten"; "0: x-ray, rewritten"];
  fresh_id := λ b j, "new-" +:+ pretty b +:+ "-" +:+ pretty j;
  as_completed := λ A l, l;
  batch_size := None;
  retries_config := 1;
|}.

End MockEnhancer.

(** ** History manager: resolution through the NLI service
    ([MemoryHistoryManager.resolve_history_via_nli]) *)

(** [NLIResult] of [extras/nli_model/types.py]; the manager tells two of its
    values from all the others. *)
Inductive NLIResult : Type :=
| DUPLICATE
| CONTRADICTION
| OtherNLIResult.

#[global] Instance NLIResult_eq_dec : EqDecision NLIResult.
Proof. solve_decision. Defined.

(** [ArchivedTextualMemory], as the manager builds it. *)
Module Archived.

Record ArchivedTextualMemory : Type := mk {
  version : Z;
  is_fast : bool;
  memory : string;
  update_type : string;
  archived_memory_id : string;
  created_at : option string;
}.

End Archived.

(** A related item: the item with the metadata fields the manager reads
    from it ([None] is Python's [None]; a time stamp is kept as its text). *)
Module Related.

Record RelatedItem : Type := mk {
  item : TextualMemoryItem;
  version : option Z;
  is_fast : option bool;
  created_at : option string;
  updated_at : option string;
}.

End Related.

(** [nli_client.compare_one_to_many]; it may raise. *)
Class NLIClient : Type := {
  compare_one_to_many : string → list string → result (list NLIResult);
}.

Module MemoryHistoryManager.
Section Defs.
Context `{NLIClient}.

Definition update_type_of (nli_res : NLIResult) : string :=
  match nli_res with
  | DUPLICATE => "duplicate"
  | CONTRADICTION => "conflict"
  | OtherNLIResult => "unrelated"
  end.

(** [getattr(r_item.metadata, "created_at", None) or r_item.metadata.updated_at] *)
Definition created_at_of (r_item : Related.RelatedItem) : option string :=
  match Related.created_at r_item with
  | Some created =>
      if bool_decide (created = "") then Related.updated_at r_item else Some created
  | None => Related.updated_at r_item
  end.

Definition archive (r_item : Related.RelatedItem) (nli_res : NLIResult)
    : Archived.ArchivedTextualMemory :=
  {| Archived.version :=
       match Related.version r_item with
       | Some v => if v =? 0 then 1 else v
       | None => 1
       end;
     Archived.is_fast := default false (Related.is_fast r_item);
     Archived.memory := memory (Related.item r_item);
     Archived.update_type := update_type_of nli_res;
     Archived.archived_memory_id := id (Related.item r_item);
     Archived.created_at := created_at_of r_item |}.

(** What the loop over [zip(related_items, nli_results)] has built so far;
    [history] is [new_item.metadata.history], [None] when it is unset. *)
Record Resolving : Type := mkResolving {
  duplicate_memories : list string;
  conflict_memories : list string;
  history : option (list Archived.ArchivedTextualMemory);
}.

(** One round of the loop; appending to an unset history raises. *)
Definition resolve_step (acc : result Resolving)
    (judged : Related.RelatedItem * NLIResult) : result Resolving :=
  bind_result acc (λ st,
    let '(r_item, nli_res) := judged in
    let duplicates :=
      match nli_res with
      | DUPLICATE => duplicate_memories st ++ [memory (Related.item r_item)]
      | _ => duplicate_memories st
      end in
    let conflicts :=
      match nli_res with
      | CONTRADICTION => conflict_memories st ++ [memory (Related.item r_item)]
      | _ => conflict_memories st
      end in
    match history st with
    | Some archived =>
        Ok (mkResolving duplicates conflicts (Some (archived ++ [archive r_item nli_res])))
    | None => Raise "AttributeError"
    end).

(** The new item afterwards, its history, and the returned list. *)
Definition resolve_history_via_nli
    (new_item : TextualMemoryItem)
    (new_item_history : option (list Archived.ArchivedTextualMemory))
    (related_items : list Related.RelatedItem)
    : result (TextualMemoryItem * option (list Archived.ArchivedTextualMemory)
              * list string) :=
  match related_items with
  | [] => Ok (new_item, new_item_history, [])
  | _ =>
      bind_result
        (compare_one_to_many (memory new_item)
           ((λ r, memory (Related.item r)) <$> related_items))
        (λ nli_results,
           bind_result
             (foldl resolve_step (Ok (mkResolving [] [] new_item_history))
                    (zip related_items nli_results))
             (λ st,
                Ok (HistoryManager._append_related_content new_item
                      (duplicate_memories st) (conflict_memories st),
                    history st,
                    duplicate_memories st ++ conflict_memories st)))
  end.

(** The memories judged to be [verdict], in the order of the related items. *)
Definition judged_as (verdict : NLIResult)
    (judged : list (Related.RelatedItem * NLIResult)) : list string :=
  (λ p, memory (Related.item p.1)) <$> filter (λ p, p.2 = verdict) judged.

End Defs.
End MemoryHistoryManager.

Module MockNLI.

(** An NLI service that answers with a fixed list of judgements. *)
Definition answering (judgements : list NLIResult) : NLIClient := {|
  compare_one_to_many := λ _ _, Ok judgements;
|}.

Definition related (name text : string) : Related.RelatedItem :=
  Related.mk (mkItem name text (mkMetadata "" "" [])) None None None (Some "2024-01-01").

End MockNLI.

(** ** The metrics monitor of the queue ([_monitor_loop] of
    [base_mixins/queue_ops.py]) *)

(** [metrics.update_queue_length]; [false] when the call raises. *)
Class QueueMetrics : Type := {
  update_queue_length : Z → string → bool;
}.

Module QueueMonitor.
Section Defs.
Context `{QueueMetrics}.

(** The user a stream key is reported under, if it is reported at all. *)
Definition reported_user (stream_key : string) : option string :=
  if bool_decide (stream_key = "total_size") then None
  else
    let parts := PyStr.split ":" stream_key in
    if (3 <=? length parts)%nat then PyList.index parts (-3)
    else if PyStr.contains ":" stream_key then None
    else Some stream_key.

(** The loop over [q_sizes.items()]: the calls of [update_queue_length] it
    makes; a call that raises ends the round. *)
Fixpoint report (items : list (string * Z)) : list (Z * string) :=
  match items with
  | [] => []
  | (stream_key, queue_length) :: rest =>
      match reported_user stream_key with
      | Some user_id =>
          (queue_length, user_id)
          :: (if update_queue_length queue_length user_id then report rest else [])
      | None => report rest
      end
  end.

(** One round of [_monitor_loop]; [q_sizes] is [None] when [qsize()] raises
    or gives something that is not a [dict]. *)
Definition _monitor_round (q_sizes : option (list (string * Z))) : list (Z * string) :=
  match q_sizes with
  | Some items => report items
  | None => []
  end.

End Defs.
End QueueMonitor.

(** ** Search pipeline ([memory_manage_modules/search_pipeline.py]) *)

Module SearchCall.

(** The keyword arguments of one call of [mem_cube.text_mem.search]. *)
Record SearchCall : Type := mk {
  query : string;
  user_name : json;
  top_k : Z;
  manual_close_internet : bool;
  memory_type : string;
  search_filter : json;
  search_priority : option (list (string * json));
  info : json;
  plugin : bool;
  search_tool_memory : json;
  tool_mem_top_k : json;
  playground_search_goal_parser : json;
}.

End SearchCall.

(** The two method names of [schemas/general_schemas.py] and the search of
    the tree text memory ([None]: it raised). *)
Class TreeSearch : Type := {
  TreeTextMemory_SEARCH_METHOD : string;
  TreeTextMemory_FINE_SEARCH_METHOD : string;
  text_mem_search : SearchCall.SearchCall → option (list TextualMemoryItem);
}.

Module SearchPipeline.
Section Defs.
Context `{TreeSearch}.

(** [search_args.get(key, default)] *)
Definition get (search_args : list (string * json)) (key : string) (default_value : json)
    : json :=
  default default_value (PyJson.assoc key search_args).

(** The call made for one memory type. *)
Definition search_call (query user_id mem_cube_id : string) (top_k : Z)
    (search_args : list (string * json)) (memory_type : string)
    : SearchCall.SearchCall :=
  let session_id := get search_args "session_id" (JStr "default_session") in
  let target_session_id := session_id in
  let search_priority :=
    match PyJson.assoc "session_id" search_args with
    | Some _ => Some [("session_id", target_session_id)]
    | None => None
    end in
  let search_filter := get search_args "filter" JNull in
  let search_source := get search_args "source" JNull in
  let plugin :=
    match search_source with
    | JStr source => bool_decide (source = "plugin")
    | _ => false
    end in
  let user_name := get search_args "user_name" (JStr mem_cube_id) in
  let internet_search := get search_args "internet_search" (JBool false) in
  let chat_history := get search_args "chat_history" JNull in
  let search_tool_memory := get search_args "search_tool_memory" (JBool false) in
  let tool_mem_top_k := get search_args "tool_mem_top_k" (JInt 6) in
  let playground_search_goal_parser :=
    get search_args "playground_search_goal_parser" (JBool false) in
  let info :=
    get search_args "info"
      (JObj [("user_id", JStr user_id); ("session_id", target_session_id);
             ("chat_history", chat_history)]) in
  {| SearchCall.query := query;
     SearchCall.user_name := user_name;
     SearchCall.top_k := top_k;
     SearchCall.manual_close_internet := negb (WebLogOps.truthy internet_search);
     SearchCall.memory_type := memory_type;
     SearchCall.search_filter := search_filter;
     SearchCall.search_priority := search_priority;
     SearchCall.info := info;
     SearchCall.plugin := plugin;
     SearchCall.search_tool_memory := search_tool_memory;
     SearchCall.tool_mem_top_k := tool_mem_top_k;
     SearchCall.playground_search_goal_parser := playground_search_goal_parser |}.

(** Every exception of the [try] block, the failed [assert] and the
    [NotImplementedError] included, ends in the empty list. *)
Definition search (text_mem_base : TextMemKind) (query user_id mem_cube_id : string)
    (top_k : Z) (method : string) (search_args : option (list (string * json)))
    : list TextualMemoryItem :=
  let search_args := default [] search_args in
  let attempt : option (list TextualMemoryItem) :=
    if bool_decide (method ∈ [TreeTextMemory_SEARCH_METHOD;
                              TreeTextMemory_FINE_SEARCH_METHOD])
    then
      match text_mem_base with
      | TreeTextMemory =>
          results_long_term ←
            text_mem_search
              (search_call query user_id mem_cube_id top_k search_args "LongTermMemory");
          results_user ←
            text_mem_search
              (search_call query user_id mem_cube_id top_k search_args "UserMemory");
          Some (results_long_term ++ results_user)
      | _ => None
      end
    else None in
  default [] attempt.

End Defs.
End SearchPipeline.

(** ** The answerability check and the recall hint of the enhancement
    pipeline ([evaluate_memory_answer_ability], [recall_for_missing_memories]) *)

Module LLM.

(** The prompt builder (template name, keyword arguments), the LLM on a
    single user message, and the JSON extractor of [utils/misc_utils.py]
    ([None]: it raised). *)
Class ProcessLLM : Type := {
  build_prompt : string → list (string * string) → string;
  generate : string → string;
  extract_json_obj : string → option json;
}.

End LLM.

Module Answerability.
Section Defs.
Context `{LLM.ProcessLLM}.

(** ["\n".join([f"- {memory}" for memory in memories])] *)
Definition bullet_list (memories : list string) : string :=
  PyStr.join PyStr.nl ((λ memory, "- " +:+ memory) <$> memories).

Definition answerability_prompt (query : string) (memory_texts : list string)
    (top_k : option Z) : string :=
  let limited_memories :=
    match top_k with
    | Some k => PyList.slice_to k memory_texts
    | None => memory_texts
    end in
  LLM.build_prompt "memory_answer_ability_evaluation"
    [("query", query);
     ("memory_list",
      match limited_memories with
      | [] => "No memories available"
      | _ => bullet_list limited_memories
      end)].

(** The value is whatever the reply holds under ["result"]; [False] is
    [JBool false]. *)
Definition evaluate_memory_answer_ability (query : string) (memory_texts : list string)
    (top_k : option Z) : json :=
  let response := LLM.generate (answerability_prompt query memory_texts top_k) in
  match LLM.extract_json_obj response with
  | Some result =>
      match PyJson.contains "result" result with
      | Some true => default (JBool false) (PyJson.getitem result "result")
      | Some false => JBool false
      | None => JBool false
      end
  | None => JBool false
  end.

(** Nothing is caught here: the exception of the extractor (whatever its
    class, written ["ValueError"]), of [.get] on a value that is not a [dict],
    and of [len] on a hint without a length. *)
Definition recall_for_missing_memories (query : string) (memories : list string)
    : result (json * json) :=
  let prompt :=
    LLM.build_prompt "enlarge_recall"
      [("query", query); ("memories_inline", bullet_list memories)] in
  let llm_response := LLM.generate prompt in
  match LLM.extract_json_obj llm_response with
  | Some (JObj fields) =>
      let hint := default (JStr "") (PyJson.assoc "hint" fields) in
      match PyJson.len hint with
      | Some O => Ok (hint, JBool false)
      | Some _ => Ok (hint, default (JBool false) (PyJson.assoc "trigger_recall" fields))
      | None => Raise "TypeError"
      end
  | Some _ => Raise "AttributeError"
  | None => Raise "ValueError"
  end.

End Defs.
End Answerability.

Module MockLLM.

Definition replying (reply : option json) : LLM.ProcessLLM := {|
  LLM.build_prompt := λ template_name _, template_name;
  LLM.generate := λ _, "reply";
  LLM.extract_json_obj := λ _, reply;
|}.

End MockLLM.

Module MockSearch.

(** A tree text memory that finds [x] and [y] among the long-term memories
    and fails on the user memories. *)
Definition half_failing : TreeSearch := {|
  TreeTextMemory_SEARCH_METHOD := "tree_text_memory_search";
  TreeTextMemory_FINE_SEARCH_METHOD := "tree_text_memory_fine_search";
  text_mem_search := λ call,
    if bool_decide (SearchCall.memory_type call = "LongTermMemory")
    then Some [Mock.x; Mock.y] else None;
|}.

(** One that finds an item of each type. *)
Definition finding : TreeSearch := {|
  TreeTextMemory_SEARCH_METHOD := "tree_text_memory_search";
  TreeTextMemory_FINE_SEARCH_METHOD := "tree_text_memory_fine_search";
  text_mem_search := λ call,
    if bool_decide (SearchCall.memory_type call = "LongTermMemory")
    then Some [Mock.x] else Some [Mock.y];
|}.

End MockSearch.

(** * Properties *)

(** ** Facts about the string primitives *)

Module PyStrFacts.
Import PyStr.

Lemma app_cons c s t : String c s +:+ t = String c (s +:+ t).
Proof. reflexivity. Qed.

Lemma app_empty_l t : "" +:+ t = t.
Proof. reflexivity. Qed.

Lemma len_app s t : len (s +:+ t) = (len s + len t)%nat.
Proof.
  induction s as [|c s IH]; [done|].
  rewrite app_cons. unfold len in *. simpl. by rewrite IH.
Qed.

Lemma app_assoc s t u : (s +:+ t) +:+ u = s +:+ (t +:+ u).
Proof.
  induction s as [|c s IH]; [done|]. by rewrite !app_cons, IH.
Qed.

Lemma startswith_empty s : startswith "" s = true.
Proof. by destruct s. Qed.

Lemma startswith_cons a p b s :
  startswith (String a p) (String b s) = true ↔ a = b ∧ startswith p s = true.
Proof.
  simpl. destruct (Ascii.eqb_spec a b) as [->|Hne]; split; try done.
  - by intros [_ ?].
  - by intros [? _].
Qed.

Lemma startswith_app p t : startswith p (p +:+ t) = true.
Proof.
  induction p as [|c p IH]; [apply startswith_empty|].
  rewrite app_cons. by apply startswith_cons.
Qed.

Lemma prefix_of_len_app s t : prefix_of_len (len s) (s +:+ t) = s.
Proof.
  induction s as [|c s IH]; [by destruct t|].
  rewrite app_cons. unfold len in *. simpl. by rewrite IH.
Qed.

Lemma find_unfold sub s :
  find sub s =
    if startswith sub s then Some 0%nat
    else match s with
         | "" => None
         | String _ r => S <$> find sub r
         end.
Proof. by destruct s. Qed.

(** A match against [t +:+ a] lies inside [t] or runs over the seam. *)
Lemma startswith_app_inv p t a :
  startswith p (t +:+ a) = true →
  startswith p t = true ∨
  ((len t < len p)%nat ∧ startswith (suffix_from (len t) p) a = true).
Proof.
  revert p. induction t as [|c t IH]; intros p Hp.
  - rewrite app_empty_l in Hp. destruct p as [|d p]; [by left|].
    right. split; [unfold len; simpl; lia|done].
  - destruct p as [|d p]; [by left|].
    rewrite app_cons in Hp. apply startswith_cons in Hp as [-> Hp].
    destruct (IH _ Hp) as [Hin|[Hlt Hseam]].
    + left. by apply startswith_cons.
    + right. split; [unfold len in *; simpl; lia|done].
Qed.

(** An occurrence anywhere makes [find] succeed. *)
Lemma find_occurrence p u t :
  startswith p t = true → is_Some (find p (u +:+ t)).
Proof.
  intros Hp. induction u as [|c u IH].
  - rewrite app_empty_l, find_unfold, Hp. by eexists.
  - rewrite app_cons, find_unfold.
    destruct (startswith p (String c (u +:+ t))); [by eexists|].
    destruct IH as [j ->]. by eexists.
Qed.

(** When no match starts inside [s], searching [s +:+ a] is searching [a]. *)
Lemma find_app_skip p s a :
  (∀ u t, s = u +:+ t → t ≠ "" → startswith p (t +:+ a) = false) →
  find p (s +:+ a) = (λ j, len s + j)%nat <$> find p a.
Proof.
  induction s as [|c s IH]; intros Hfree.
  - rewrite app_empty_l. by destruct (find p a).
  - rewrite find_unfold, (Hfree "" (String c s)) by done.
    rewrite app_cons, IH.
    + by destruct (find p a).
    + intros u t -> Ht. by apply (Hfree (String c u) t).
Qed.

Lemma len_prefix_of_len n s : (len (prefix_of_len n s) ≤ n)%nat.
Proof.
  revert s. induction n as [|n IH]; intros [|c s]; unfold len in *; simpl; try lia.
  specialize (IH s). lia.
Qed.

Lemma prefix_suffix n s : prefix_of_len n s +:+ suffix_from n s = s.
Proof.
  revert s. induction n as [|n IH]; intros [|c s]; try done.
  simpl. by rewrite app_cons, IH.
Qed.

(** A match inside a prefix of [s] is a match inside [s], and it ends
    before the cut. *)
Lemma startswith_prefix_of_len p n s :
  startswith p (prefix_of_len n s) = true →
  startswith p s = true ∧ (len p ≤ n)%nat.
Proof.
  revert n s. induction p as [|a p IH]; intros n s Hp.
  - split; [apply startswith_empty|unfold len; simpl; lia].
  - destruct n as [|n], s as [|b s]; try done.
    cbn [prefix_of_len] in Hp. apply startswith_cons in Hp as [-> Hp].
    apply IH in Hp as [Hp Hlen]. split; [by apply startswith_cons|].
    unfold len in *. simpl. lia.
Qed.

(** Cutting a text at or before the first occurrence of a non-empty string
    leaves no occurrence of it. *)
Lemma find_prefix_of_len p n s :
  p ≠ "" →
  (∀ j, find p s = Some j → (n ≤ j)%nat) →
  find p (prefix_of_len n s) = None.
Proof.
  intros Hp. revert n. induction s as [|c s IH]; intros n Hfirst.
  - destruct n, p; done.
  - rewrite find_unfold in Hfirst. rewrite find_unfold.
    destruct (startswith p (prefix_of_len n (String c s))) eqn:Hhere.
    + apply startswith_prefix_of_len in Hhere as [Hhere Hlen].
      rewrite Hhere in Hfirst. specialize (Hfirst 0%nat eq_refl).
      destruct p; [done|]. unfold len in Hlen. simpl in Hlen. lia.
    + destruct n as [|n]; [done|]. cbn [prefix_of_len].
      rewrite IH; [done|]. intros j Hj.
      destruct (startswith p (String c s)).
      * specialize (Hfirst 0%nat eq_refl). lia.
      * rewrite Hj in Hfirst. specialize (Hfirst (S j) eq_refl). lia.
Qed.

Lemma split_nonempty sep s : split sep s ≠ [].
Proof.
  destruct s as [|c r]; [done|]. simpl.
  destruct (Ascii.eqb c sep); [done|]. by destruct (split sep r).
Qed.

(** A separator ends a field. *)
Lemma split_app sep s t :
  split sep (s +:+ String sep t) = split sep s ++ split sep t.
Proof.
  induction s as [|c s IH].
  - rewrite app_empty_l. simpl. by rewrite Ascii.eqb_refl.
  - rewrite app_cons. simpl. destruct (Ascii.eqb c sep); [by rewrite IH|].
    rewrite IH. pose proof (split_nonempty sep s).
    by destruct (split sep s).
Qed.

Lemma split_free sep s : contains sep s = false → split sep s = [s].
Proof.
  induction s as [|c s IH]; [done|]. simpl.
  intros [Hc Hs]%orb_false_elim. rewrite Hc. by rewrite IH.
Qed.

Lemma contains_app sep s t : contains sep (s +:+ t) = contains sep s || contains sep t.
Proof.
  induction s as [|c s IH]; [done|]. rewrite app_cons. simpl.
  by rewrite IH, orb_assoc.
Qed.

Lemma app_empty_r s : s +:+ "" = s.
Proof. induction s as [|c s IH]; [done|]. by rewrite app_cons, IH. Qed.

Lemma rev_app_acc s acc : String.rev_app s acc = String.rev s +:+ acc.
Proof.
  unfold String.rev. revert acc. induction s as [|c s IH]; intros acc; [done|].
  simpl. rewrite (IH (String c "")), IH. by rewrite app_assoc.
Qed.

Lemma rev_cons c s : String.rev (String c s) = String.rev s +:+ String c "".
Proof. unfold String.rev at 1. simpl. apply rev_app_acc. Qed.

Lemma rev_app s t : String.rev (s +:+ t) = String.rev t +:+ String.rev s.
Proof.
  induction s as [|c s IH]; [by rewrite app_empty_l, app_empty_r|].
  by rewrite app_cons, !rev_cons, IH, app_assoc.
Qed.




End PyStrFacts.

(** ** Facts about the history manager *)

Module HistoryManagerFacts.
Import PyStr PyStrFacts HistoryManager.

Lemma head2_clash_sound p x y rest :
  head2_clash p x y = true → startswith p (String x (String y rest)) = false.
Proof.
  destruct p as [|c [|d p]]; simpl; [done| |].
  - destruct (Ascii.eqb c x); [done|]. by intros _.
  - destruct (Ascii.eqb c x), (Ascii.eqb d y); try done.
Qed.

Lemma markers_seam_safe marker : marker ∈ markers → seam_safe marker = true.
Proof.
  unfold markers. rewrite !elem_of_cons, elem_of_nil.
  intros [->|[->|[]]]; by vm_compute.
Qed.

(** Every appended section opens with two line feeds. *)
Lemma _format_section_head title items :
  _format_section title items = "" ∨
  ∃ rest, _format_section title items = String "010" (String "010" rest).
Proof. destruct items; [by left|right]. by eexists. Qed.

Lemma _format_section_marker title items :
  items ≠ [] →
  ∃ rest, _format_section title items = (nl +:+ nl +:+ title +:+ ":") +:+ rest.
Proof.
  intros Hne. destruct items as [|mem items]; [done|].
  exists (format_items "" (mem :: items)). unfold _format_section.
  by rewrite !app_assoc.
Qed.

(** In a marker-free text followed by a section, no marker starts inside the
    text, not even one that would end inside the section. *)
Lemma marker_free_find text marker :
  marker_free text = true → marker ∈ markers → find marker text = None.
Proof.
  unfold marker_free. rewrite forallb_forall. intros Hfree Hin.
  apply list_elem_of_In, Hfree in Hin. by apply bool_decide_eq_true in Hin.
Qed.

Lemma marker_not_inside text rest marker u t :
  marker_free text = true → marker ∈ markers →
  text = u +:+ t → t ≠ "" →
  startswith marker (t +:+ String "010" (String "010" rest)) = false.
Proof.
  intros Hfree Hin -> Ht.
  destruct (startswith marker _) eqn:Hsw; [exfalso|done].
  apply startswith_app_inv in Hsw as [Hinside|[Hlt Hseam]].
  - destruct (find_occurrence marker u t Hinside) as [j Hj].
    by rewrite (marker_free_find _ _ Hfree Hin) in Hj.
  - pose proof (markers_seam_safe marker Hin) as Hsafe.
    unfold seam_safe in Hsafe. rewrite forallb_forall in Hsafe.
    assert (len t ≠ 0%nat) by (by destruct t).
    rewrite (head2_clash_sound _ _ _ rest) in Hseam; [done|].
    apply Hsafe, in_seq. lia.
Qed.

Lemma find_marker_after text rest marker :
  marker_free text = true → marker ∈ markers →
  find marker (text +:+ String "010" (String "010" rest)) =
    (λ j, len text + j)%nat <$> find marker (String "010" (String "010" rest)).
Proof.
  intros Hfree Hin. apply find_app_skip.
  intros u t. by apply marker_not_inside.
Qed.

(** The cut position found after a section was appended is the length of
    the original text. *)
Lemma cut_index_after text rest marker :
  marker_free text = true → marker ∈ markers →
  startswith marker (String "010" (String "010" rest)) = true →
  foldl (cut_step (text +:+ String "010" (String "010" rest))) None markers
    = Some (len text).
Proof.
  intros Hfree Hin Hsw.
  assert (find marker (String "010" (String "010" rest)) = Some 0%nat) as Hhere
    by (by rewrite find_unfold, Hsw).
  assert (∀ m, m ∈ markers →
            find m (text +:+ String "010" (String "010" rest)) =
            (λ j, len text + j)%nat <$> find m (String "010" (String "010" rest)))
    as Hafter by (intros m Hm; by apply find_marker_after).
  unfold markers in Hin, Hafter |- *. cbn [foldl]. unfold cut_step.
  rewrite !Hafter by (rewrite !elem_of_cons; auto).
  clear Hafter Hsw.
  apply elem_of_cons in Hin as [->|Hin]; [|apply list_elem_of_singleton in Hin as ->];
    rewrite Hhere; clear Hhere; cbn [fmap option_fmap option_map];
    rewrite Nat.add_0_r.
  - destruct (find _ (String "010" (String "010" rest))) as [j|];
      cbn [fmap option_fmap option_map]; [|done].
    by rewrite (proj2 (Nat.ltb_ge _ _)) by lia.
  - destruct (find _ (String "010" (String "010" rest))) as [j|];
      cbn [fmap option_fmap option_map]; [|done].
    destruct (Nat.ltb_spec (len text) (len text + j)); [done|].
    f_equal. lia.
Qed.

Lemma set_memory_restore item text :
  set_memory (set_memory item text) (memory item) = item.
Proof. by destruct item. Qed.

Lemma detach_after_section item rest marker :
  marker_free (memory item) = true → marker ∈ markers →
  startswith marker (String "010" (String "010" rest)) = true →
  _detach_related_content
    (set_memory item (memory item +:+ String "010" (String "010" rest))) = item.
Proof.
  intros Hfree Hin Hsw. unfold _detach_related_content.
  cbn [memory set_memory].
  rewrite (cut_index_after _ _ _ Hfree Hin Hsw), prefix_of_len_app.
  apply set_memory_restore.
Qed.

Lemma detach_marker_free item :
  marker_free (memory item) = true → _detach_related_content item = item.
Proof.
  intros Hfree. unfold _detach_related_content, markers. cbn [foldl].
  unfold cut_step.
  by rewrite !(marker_free_find _ _ Hfree)
    by (unfold markers; rewrite !elem_of_cons; auto).
Qed.

Lemma detach_append_item item duplicates conflicts :
  marker_free (memory item) = true →
  _detach_related_content (_append_related_content item duplicates conflicts) = item.
Proof.
  intros Hfree. unfold _append_related_content.
  destruct conflicts as [|c conflicts].
  - destruct duplicates as [|d duplicates].
    + by apply detach_marker_free.
    + cbn [_format_section]. rewrite app_empty_l.
      apply (detach_after_section item _ (nl +:+ nl +:+ DUPLICATE_MEMORY_TITLE +:+ ":"));
        [done|unfold markers; rewrite !elem_of_cons; auto|].
      apply (startswith_app (nl +:+ nl +:+ DUPLICATE_MEMORY_TITLE +:+ ":")
               (format_items "" (d :: duplicates))).
  - apply (detach_after_section item _ (nl +:+ nl +:+ CONFLICT_MEMORY_TITLE +:+ ":"));
      [done|unfold markers; rewrite !elem_of_cons; auto|].
    apply (startswith_app (nl +:+ nl +:+ CONFLICT_MEMORY_TITLE +:+ ":")
             (format_items "" (c :: conflicts)
              +:+ _format_section DUPLICATE_MEMORY_TITLE duplicates)).
Qed.

(** C9 (as amended): for every memory item whose text contains neither
    section marker, and for every pair of duplicate and conflict text lists,
    [_append_related_content] followed by [_detach_related_content] restores
    the item's memory text (indeed the whole item) exactly. *)
Theorem detach_append_restores_memory item duplicates conflicts :
  marker_free (memory item) = true →
  memory (_detach_related_content (_append_related_content item duplicates conflicts))
    = memory item
  ∧ _detach_related_content (_append_related_content item duplicates conflicts) = item.
Proof.
  intros Hfree. by rewrite detach_append_item.
Qed.

Lemma detach_append_restores_memory_witness :
  marker_free (memory test_item) = true
  ∧ (memory (_detach_related_content
       (_append_related_content test_item
          ["Duplicate 1"; "Duplicate 2"] ["Conflict 1"; "Conflict 2"]))
       = memory test_item
     ∧ _detach_related_content
         (_append_related_content test_item
            ["Duplicate 1"; "Duplicate 2"] ["Conflict 1"; "Conflict 2"]) = test_item).
Proof.
  split; [reflexivity|].
  apply (detach_append_restores_memory test_item); reflexivity.
Defined.

(** C9 as stated fails: the text of [quoting_item] is cut at the marker it
    already contained, so the round trip returns only "Report". *)
Lemma detach_append_loses_quoted_marker :
  memory (_detach_related_content
            (_append_related_content quoting_item ["Duplicate A"] []))
    = "Report"
  ∧ memory quoting_item ≠ "Report".
Proof. split; [by vm_compute|]. by vm_compute. Qed.

(** The loop of [_format_section] keeps the text it builds within bounds. *)
Lemma format_items_len section_content items :
  (len section_content ≤ max_section_len - 2 →
   len (format_items section_content items) ≤ max_section_len + 27)%nat.
Proof.
  revert section_content.
  induction items as [|mem items IH]; intros acc Hacc; cbn [format_items]; [lia|].
  set (snippet := if (max_per_item_len <? len mem)%nat
                  then prefix_of_len max_per_item_len mem +:+ "..." else mem).
  destruct (Nat.ltb_spec max_section_len (len acc + len snippet + 5));
    unfold max_section_len in *.
  - rewrite !len_app. change (len nl) with 1%nat.
    change (len "- ... (more items truncated)") with 28%nat. lia.
  - apply IH. rewrite !len_app. change (len nl) with 1%nat.
    change (len "- ") with 2%nat. lia.
Qed.

Lemma _format_section_len title items :
  (len (_format_section title items) ≤ len title + 1030)%nat.
Proof.
  destruct items as [|mem items]; [unfold len; simpl; lia|].
  unfold _format_section. rewrite !len_app.
  pose proof (format_items_len "" (mem :: items)) as Hlen.
  change (len "") with 0%nat in Hlen. unfold max_section_len in Hlen.
  change (len nl) with 1%nat. change (len ":") with 1%nat. lia.
Qed.

(** X1: [_append_related_content] only appends to the memory text: the old
    text is kept as a prefix, the identifier and the metadata are untouched,
    and whatever the number and the size of the related memories the text
    grows by no more than 2120 characters. *)
Theorem append_related_content_bounded item duplicates conflicts :
  let appended := _append_related_content item duplicates conflicts in
  (∃ append_text, memory appended = memory item +:+ append_text)
  ∧ (len (memory appended) ≤ len (memory item) + 2120)%nat
  ∧ id appended = id item
  ∧ metadata appended = metadata item.
Proof.
  unfold _append_related_content.
  pose proof (_format_section_len CONFLICT_MEMORY_TITLE conflicts) as Hc.
  pose proof (_format_section_len DUPLICATE_MEMORY_TITLE duplicates) as Hd.
  change (len CONFLICT_MEMORY_TITLE) with 31%nat in Hc.
  change (len DUPLICATE_MEMORY_TITLE) with 29%nat in Hd.
  destruct (_ +:+ _) as [|c rest] eqn:Htext.
  - simpl. split; [|split; [lia|done]].
    exists "". clear. induction (memory item) as [|c s IH]; [done|].
    by rewrite app_cons, <- IH.
  - cbn [memory set_memory id metadata]. split; [by eexists|]. split; [|done].
    rewrite <- Htext, !len_app. lia.
Qed.

(** The cut position is at or before the first occurrence of every marker. *)
Lemma cut_index_first text marker cut_index j :
  foldl (cut_step text) None markers = Some cut_index →
  marker ∈ markers → find marker text = Some j → (cut_index ≤ j)%nat.
Proof.
  unfold markers. cbn [foldl]. unfold cut_step.
  rewrite !elem_of_cons, elem_of_nil.
  intros Hcut [->|[->|[]]] Hj; rewrite Hj in Hcut;
    repeat case_match; simplify_eq; try lia;
    match goal with H : (_ <? _)%nat = _ |- _ =>
      first [apply Nat.ltb_lt in H|apply Nat.ltb_ge in H]; lia end.
Qed.

Lemma cut_index_None text :
  foldl (cut_step text) None markers = None → marker_free text = true.
Proof.
  unfold marker_free, markers. cbn [foldl forallb]. unfold cut_step.
  destruct (find (nl +:+ nl +:+ CONFLICT_MEMORY_TITLE +:+ ":") text);
    destruct (find (nl +:+ nl +:+ DUPLICATE_MEMORY_TITLE +:+ ":") text);
    try done.
  by case_match.
Qed.

(** X2: whatever the text, [_detach_related_content] leaves a text without
    markers: the result is a prefix of the old text, and detaching a second
    time changes nothing. *)
Theorem detach_related_content_idempotent item :
  marker_free (memory (_detach_related_content item)) = true
  ∧ (∃ rest, memory item = memory (_detach_related_content item) +:+ rest)
  ∧ _detach_related_content (_detach_related_content item)
    = _detach_related_content item.
Proof.
  assert (marker_free (memory (_detach_related_content item)) = true) as Hfree.
  { unfold _detach_related_content.
    destruct (foldl _ None markers) as [cut_index|] eqn:Hcut;
      [|by apply cut_index_None].
    cbn [memory set_memory]. unfold marker_free.
    apply forallb_forall. intros marker Hin%list_elem_of_In.
    apply bool_decide_eq_true. apply find_prefix_of_len.
    - revert Hin. unfold markers. rewrite !elem_of_cons, elem_of_nil.
      by intros [->|[->|[]]].
    - intros j. by apply cut_index_first. }
  split; [done|]. split; [|by apply detach_marker_free].
  unfold _detach_related_content.
  destruct (foldl _ None markers) as [cut_index|].
  - exists (suffix_from cut_index (memory item)). cbn [memory set_memory].
    by rewrite prefix_suffix.
  - exists "". clear. induction (memory item) as [|c s IH]; [done|].
    by rewrite app_cons, <- IH.
Qed.

End HistoryManagerFacts.

(** ** Facts about the list primitives *)

Module PyListFacts.
Import PyList.

Lemma slice_to_nonneg {A} (k : Z) (l : list A) :
  0 ≤ k → slice_to k l = take (Z.to_nat k) l.
Proof. intros Hk. unfold slice_to. by rewrite (proj2 (Z.ltb_ge _ _)). Qed.

Lemma slice_to_sublist {A} (k : Z) (l : list A) : slice_to k l `sublist_of` l.
Proof. unfold slice_to. destruct (k <? 0); apply sublist_take. Qed.

Lemma slice_to_length {A} (k : Z) (l : list A) :
  0 ≤ k → Z.of_nat (length (slice_to k l)) ≤ k.
Proof. intros Hk. rewrite slice_to_nonneg, length_take by done. lia. Qed.

Lemma index_elem_of {A} (l : list A) (i : Z) (x : A) : index l i = Some x → x ∈ l.
Proof.
  unfold index. intros Hx.
  repeat case_match; try done; by eapply list_elem_of_lookup_2.
Qed.

Lemma fromkeys_go_spec seen l x :
  x ∈ fromkeys_go seen l ↔ x ∈ l ∧ x ∉ seen.
Proof.
  revert seen. induction l as [|y l IH]; intros seen; simpl.
  - rewrite elem_of_nil. naive_solver.
  - case_bool_decide as Hy.
    + rewrite IH, elem_of_cons. naive_solver.
    + rewrite !elem_of_cons, IH, elem_of_cons. split.
      * intros [->|[? ?]]; naive_solver.
      * intros [[->|?] ?]; [by left|].
        destruct (decide (x = y)) as [->|]; [by left|right; naive_solver].
Qed.

Lemma fromkeys_go_NoDup seen l : NoDup (fromkeys_go seen l).
Proof.
  revert seen. induction l as [|y l IH]; intros seen; simpl; [constructor|].
  case_bool_decide; [done|]. constructor; [|done].
  rewrite fromkeys_go_spec, elem_of_cons. naive_solver.
Qed.

Lemma fromkeys_NoDup l : NoDup (fromkeys l).
Proof. apply fromkeys_go_NoDup. Qed.

Lemma fromkeys_elem_of l x : x ∈ fromkeys l ↔ x ∈ l.
Proof.
  unfold fromkeys. rewrite fromkeys_go_spec, elem_of_nil. naive_solver.
Qed.

Lemma length_omap_le {A B} (f : A → option B) (l : list A) :
  (length (omap f l) ≤ length l)%nat.
Proof.
  induction l as [|x l IH]; csimpl; [done|]. destruct (f x); csimpl; lia.
Qed.

Lemma length_omap_filter {A B} (f : A → option B) (l : list A) :
  length (omap f l) = length (filter (λ x, is_Some (f x)) l).
Proof.
  induction l as [|x l IH]; [done|]. csimpl.
  rewrite filter_cons. destruct (f x) as [y|] eqn:Hfx.
  - rewrite decide_True by (by eexists). csimpl. by rewrite IH.
  - rewrite decide_False; [done|]. by intros [? ?].
Qed.

Lemma length_omap_total {A B} (f : A → option B) (l : list A) :
  (∀ x, x ∈ l → is_Some (f x)) → length (omap f l) = length l.
Proof.
  intros Htotal. rewrite length_omap_filter. f_equal.
  induction l as [|x l IH]; [done|].
  rewrite filter_cons, decide_True by (apply Htotal; left).
  f_equal. apply IH. intros y Hy. apply Htotal. by right.
Qed.

(** When nothing is skipped, [omap] is a [map]. *)
Lemma omap_total {A B} (f : A → option B) (g : A → B) (l : list A) :
  (∀ x, x ∈ l → f x = Some (g x)) → omap f l = g <$> l.
Proof.
  induction l as [|x l IH]; intros Hf; [done|]. csimpl.
  rewrite (Hf x) by left. csimpl. f_equal. apply IH.
  intros y Hy. apply Hf. by right.
Qed.

Lemma fst_zip_take {A B} (l : list A) (k : list B) :
  (zip l k).*1 = take (length k) l.
Proof.
  rewrite <- (zip_with_take_l pair l k).
  apply fst_zip. rewrite length_take. lia.
Qed.

Lemma snd_zip_take {A B} (l : list A) (k : list B) :
  (zip l k).*2 = take (length l) k.
Proof.
  rewrite <- (zip_with_take_r pair l k).
  apply snd_zip. rewrite length_take. lia.
Qed.

Lemma bind_concat_groups {K A B} (groups : list (K * list A)) (f : K * list A → list B)
    (g : B → list A) :
  (∀ group, group ∈ groups → f group ≫= g ≡ₚ group.2) →
  (groups ≫= f) ≫= g ≡ₚ concat groups.*2.
Proof.
  induction groups as [|group groups IH]; intros Hf; [done|].
  csimpl. rewrite bind_app, Hf by left. f_equiv. apply IH.
  intros ? ?. apply Hf. by right.
Qed.

Lemma fmap_bind {A B C} (f : B → C) (g : A → list B) (l : list A) :
  f <$> (l ≫= g) = l ≫= λ x, f <$> g x.
Proof.
  induction l as [|x l IH]; [done|]. csimpl. by rewrite fmap_app, IH.
Qed.

Lemma NoDup_bind_groups {K A B} (groups : list (K * A)) (f : K * A → list B)
    (key_of : B → K) :
  NoDup groups.*1 →
  (∀ group, group ∈ groups → NoDup (f group)) →
  (∀ group x, group ∈ groups → x ∈ f group → key_of x = group.1) →
  NoDup (groups ≫= f).
Proof.
  induction groups as [|group groups IH]; intros Hkeys Hf Hkey; [constructor|].
  csimpl. rewrite fmap_cons in Hkeys. apply NoDup_cons in Hkeys as [Hnew Hkeys].
  apply NoDup_app. split; [apply Hf; left|]. split.
  - intros x Hx (group' & Hx' & Hin)%list_elem_of_bind. apply Hnew.
    rewrite <- (Hkey group x) by (done || left).
    rewrite (Hkey group' x) by (done || by right).
    apply list_elem_of_fmap. by exists group'.
  - apply IH; [done|..].
    + intros ? ?. apply Hf. by right.
    + intros ? ? ? ?. apply Hkey; [by right|done].
Qed.

Lemma filter_partition {A} (P Q R : A → Prop)
    `{∀ x, Decision (P x)} `{∀ x, Decision (Q x)} `{∀ x, Decision (R x)} (l : list A) :
  (∀ x, R x ↔ P x ∨ Q x) → (∀ x, P x → Q x → False) →
  filter P l ++ filter Q l ≡ₚ filter R l.
Proof.
  intros HR Hdisjoint. induction l as [|x l IH]; [done|].
  rewrite !filter_cons.
  destruct (decide (P x)) as [HP|HP], (decide (Q x)) as [HQ|HQ].
  - by destruct (Hdisjoint x).
  - rewrite decide_True by (apply HR; by left). csimpl. by rewrite IH.
  - rewrite decide_True by (apply HR; by right).
    rewrite <- Permutation_middle. by rewrite IH.
  - rewrite decide_False by (rewrite HR; naive_solver). done.
Qed.

Lemma length_bind_le {A B} (f : A → list B) (l : list A) (bound : Z) :
  0 ≤ bound →
  (∀ x, Z.of_nat (length (f x)) ≤ bound) →
  Z.of_nat (length (l ≫= f)) ≤ Z.of_nat (length l) * bound.
Proof.
  intros Hbound Hf. induction l as [|x l IH]; [simpl; lia|].
  csimpl. rewrite length_app. specialize (Hf x). simpl length. lia.
Qed.

End PyListFacts.

(** ** Facts about the rerank pipeline *)

Module RerankFacts.
Import PyList PyListFacts RerankPipeline.

Section Facts.
Context `{Retriever}.

(** Every entry of the map is an input item filed under its own key. *)
Lemma memory_map_lookup combined key mem_obj :
  memory_map combined !! key = Some mem_obj →
  mem_obj ∈ combined ∧ transform_name_to_key (memory mem_obj) = key.
Proof.
  unfold memory_map. revert key mem_obj.
  induction combined as [|x l IH] using rev_ind; intros key mem_obj.
  - simpl. by rewrite lookup_empty.
  - rewrite foldl_snoc, lookup_insert. case_decide as Hk.
    + intros [= <-]. split; [set_solver|done].
    + intros [? ?]%IH. split; [set_solver|done].
Qed.

(** Every input item has its key in the map. *)
Lemma memory_map_covers combined mem_obj :
  mem_obj ∈ combined →
  is_Some (memory_map combined !! transform_name_to_key (memory mem_obj)).
Proof.
  unfold memory_map.
  induction combined as [|x l IH] using rev_ind; [by rewrite elem_of_nil|].
  rewrite elem_of_app, list_elem_of_singleton, foldl_snoc, lookup_insert.
  intros [Hin| ->]; case_decide; try done; by auto.
Qed.

Lemma map_back_elem_of combined texts mem_obj :
  mem_obj ∈ map_back (memory_map combined) texts → mem_obj ∈ combined.
Proof.
  unfold map_back. rewrite list_elem_of_omap.
  intros (text & _ & Hlook). by apply memory_map_lookup in Hlook as [? _].
Qed.

(** The key of a mapped-back item is the key of the text it stands for. *)
Lemma map_back_keys combined texts :
  (transform_name_to_key ∘ memory) <$> map_back (memory_map combined) texts
  = filter (λ key, is_Some (memory_map combined !! key))
           (transform_name_to_key <$> texts).
Proof.
  unfold map_back. induction texts as [|t texts IH]; [done|]. csimpl.
  rewrite filter_cons.
  destruct (memory_map combined !! transform_name_to_key t) as [m|] eqn:Hm.
  - rewrite decide_True by (by eexists). csimpl.
    apply memory_map_lookup in Hm as [_ ->]. by rewrite IH.
  - rewrite decide_False; [done|]. by intros [? ?].
Qed.

Lemma select_length {A} (l : list A) (order : json) (k : Z) new_order picked :
  0 ≤ k →
  PyJson.slice_to order k = Some new_order →
  PyJson.select l new_order = Some picked →
  Z.of_nat (length picked) ≤ k.
Proof.
  intros Hk Hslice Hsel. destruct order; simplify_eq/=.
  - destruct (String.string_of_list_ascii _); simplify_eq/=. lia.
  - apply length_mapM in Hsel. rewrite <- Hsel. by apply slice_to_length.
Qed.

Lemma select_elem_of {A} (l : list A) (new_order : json) picked x :
  PyJson.select l new_order = Some picked → x ∈ picked → x ∈ l.
Proof.
  intros Hsel Hx. destruct new_order as [| | | |s|idxs|]; simplify_eq/=.
  - destruct s; simplify_eq/=. by apply elem_of_nil in Hx.
  - apply mapM_Some_1 in Hsel.
    induction Hsel as [|idx y idxs picked Hidx _ IH]; [by apply elem_of_nil in Hx|].
    apply elem_of_cons in Hx as [->|Hx]; [|by apply IH].
    destruct idx; simplify_eq/=; by eapply index_elem_of.
Qed.

(** What [rerank_try] returns on success has at most [top_k] entries, all
    of them among the texts it was given. *)
Lemma rerank_try_Some response original_memories top_k texts :
  rerank_try response original_memories top_k = Some texts →
  (0 ≤ top_k → Z.of_nat (length texts) ≤ top_k)
  ∧ (∀ text, text ∈ texts → text ∈ original_memories).
Proof.
  unfold rerank_try. intros Htry.
  destruct (extract_json_obj response) as [parsed|]; simplify_eq/=.
  destruct (PyJson.getitem parsed "new_order") as [order|]; simplify_eq/=.
  destruct (PyJson.slice_to order top_k) as [new_order|] eqn:Hslice; simplify_eq/=.
  destruct (PyJson.select original_memories new_order) as [picked|] eqn:Hsel;
    simplify_eq/=.
  destruct (PyJson.getitem parsed "reasoning"); simplify_eq/=.
  split.
  - intros Hk. by eapply select_length.
  - intros text. by eapply select_elem_of.
Qed.

Lemma rerank_memories_Ok query queries original_memories top_k :
  ∃ texts ok,
    rerank_memories (query :: queries) original_memories top_k = Ok (texts, ok)
    ∧ (0 ≤ top_k → Z.of_nat (length texts) ≤ top_k)
    ∧ (∀ text, text ∈ texts → text ∈ original_memories).
Proof.
  unfold rerank_memories.
  destruct (rerank_try _ original_memories top_k) as [texts|] eqn:Htry.
  - exists texts, true. split; [done|]. by eapply rerank_try_Some.
  - exists (slice_to top_k original_memories), false. split; [done|]. split.
    + apply slice_to_length.
    + intros text Ht. eapply elem_of_sublist; [done|apply slice_to_sublist].
Qed.

(** When the two text filters only select among the texts they are given,
    every candidate is the text of an input item, so its key is in the map. *)
Lemma candidates_covered original_memory new_memory text :
  (∀ texts, filter_vector_based_similar_memories texts ⊆ texts) →
  (∀ texts threshold, filter_too_short_memories texts threshold ⊆ texts) →
  text ∈ unique_memory original_memory new_memory →
  is_Some (memory_map (original_memory ++ new_memory) !! transform_name_to_key text).
Proof.
  intros Hsimilar Hshort. unfold unique_memory.
  rewrite fromkeys_elem_of. intros Hin%Hshort%Hsimilar.
  apply list_elem_of_fmap in Hin as (mem_obj & -> & Hin).
  by apply memory_map_covers.
Qed.

Lemma process_and_rerank_unfold query queries original_memory new_memory top_k texts ok :
  rerank_memories (query :: queries) (unique_memory original_memory new_memory) top_k
    = Ok (texts, ok) →
  process_and_rerank_memories (query :: queries) original_memory new_memory top_k
    = Ok (map_back (memory_map (original_memory ++ new_memory)) texts, ok).
Proof. unfold process_and_rerank_memories. by intros ->. Qed.


(** C2 (as amended): the fallback (first [top_k] candidates, [ok = false])
    is taken when the reply does not parse, when it lacks [new_order] or
    [reasoning], and also when it parses but one of the first [top_k]
    entries of [new_order] is not a valid position; otherwise the texts picked
    in the order of [new_order], cut to [top_k], are returned with
    [ok = true].  In every case the texts are mapped back to item objects,
    and in the fallback no candidate is skipped when the two text filters only
    select among the texts they are given. *)
Theorem process_and_rerank_outcomes
    query queries original_memory new_memory top_k :
  let candidates := unique_memory original_memory new_memory in
  let mm := memory_map (original_memory ++ new_memory) in
  let response := generate (rerank_prompt query candidates) in
  let outcome :=
    process_and_rerank_memories (query :: queries) original_memory new_memory top_k in
  let fallback := Ok (map_back mm (slice_to top_k candidates), false) in
  (extract_json_obj response = None → outcome = fallback)
  ∧ (∀ parsed, extract_json_obj response = Some parsed →
       PyJson.getitem parsed "new_order" = None
       ∨ PyJson.getitem parsed "reasoning" = None →
       outcome = fallback)
  ∧ (∀ parsed idxs, extract_json_obj response = Some parsed →
       PyJson.getitem parsed "new_order" = Some (JArr idxs) →
       is_Some (PyJson.getitem parsed "reasoning") →
       match mapM (PyJson.index_by candidates) (slice_to top_k idxs) with
       | Some texts => outcome = Ok (map_back mm texts, true)
       | None => outcome = fallback
       end)
  ∧ ((∀ texts, filter_vector_based_similar_memories texts ⊆ texts) →
     (∀ texts threshold, filter_too_short_memories texts threshold ⊆ texts) →
     length (map_back mm (slice_to top_k candidates))
     = length (slice_to top_k candidates)).
Proof.
  intros candidates mm response outcome fallback.
  assert (∀ r, rerank_try response candidates top_k = r →
            outcome = match r with
                      | Some texts => Ok (map_back mm texts, true)
                      | None => fallback
                      end) as Hout.
  { intros r Hr. unfold outcome, process_and_rerank_memories, rerank_memories.
    fold candidates response. rewrite Hr. by destruct r. }
  split; [|split; [|split]].
  - intros Hparse. apply (Hout None). unfold rerank_try. by rewrite Hparse.
  - intros parsed Hparse Hmiss. apply (Hout None). unfold rerank_try.
    rewrite Hparse. simpl.
    destruct Hmiss as [->| Hreason]; [done|].
    destruct (PyJson.getitem parsed "new_order") as [order|]; [simpl|done].
    destruct (PyJson.slice_to order top_k) as [new_order|]; [simpl|done].
    destruct (PyJson.select candidates new_order); [simpl|done].
    by rewrite Hreason.
  - intros parsed idxs Hparse Horder [reason Hreason].
    rewrite (Hout (mapM (PyJson.index_by candidates) (slice_to top_k idxs)));
      [by destruct (mapM _ _)|].
    unfold rerank_try. rewrite Hparse. simpl. rewrite Horder. simpl.
    destruct (mapM _ _); simpl; [by rewrite Hreason|done].
  - intros Hsimilar Hshort. unfold map_back. apply length_omap_total.
    intros text Hin. apply candidates_covered; [done..|].
    eapply elem_of_sublist; [done|apply slice_to_sublist].
Qed.

End Facts.


(** Scenario S4 of the specification: the reply is not JSON, the items are
    [x, y, z, w] and [top_k = 2]. *)
Lemma process_and_rerank_outcomes_witness :
  @extract_json_obj (Mock.retriever None)
    (@generate (Mock.retriever None)
       (@rerank_prompt (Mock.retriever None) "which one?"
          (@unique_memory (Mock.retriever None)
             [Mock.x; Mock.y; Mock.z; Mock.w] []))) = None
  ∧ @process_and_rerank_memories (Mock.retriever None)
      ["which one?"] [Mock.x; Mock.y; Mock.z; Mock.w] [] 2
    = Ok (@map_back (Mock.retriever None)
            (@memory_map (Mock.retriever None) ([Mock.x; Mock.y; Mock.z; Mock.w] ++ []))
            (slice_to 2 (@unique_memory (Mock.retriever None)
                           [Mock.x; Mock.y; Mock.z; Mock.w] [])),
          false).
Proof.
  split; [reflexivity|].
  destruct (@process_and_rerank_outcomes (Mock.retriever None)
              "which one?" [] [Mock.x; Mock.y; Mock.z; Mock.w] [] 2)
    as (Hunparseable & _ & _ & _).
  apply Hunparseable. reflexivity.
Defined.

Example process_and_rerank_success :
  @process_and_rerank_memories (Mock.retriever (Some (Mock.reply [3; 0; 1])))
    ["which one?"] [Mock.x; Mock.y] [Mock.z; Mock.w] 2
  = Ok ([Mock.w; Mock.x], true).
Proof. by vm_compute. Qed.

Example process_and_rerank_not_json :
  @process_and_rerank_memories (Mock.retriever None)
    ["which one?"] [Mock.x; Mock.y; Mock.z; Mock.w] [] 2
  = Ok ([Mock.x; Mock.y], false).
Proof. by vm_compute. Qed.

(** C2 as stated fails: the reply parses and carries both fields, yet the
    position 5 names none of the four candidates, so the fallback is returned
    with [ok = false] instead of a reordered list with [ok = true]. *)
Lemma process_and_rerank_bad_position :
  PyJson.getitem (Mock.reply [5; 0]) "new_order" = Some (JArr [JInt 5; JInt 0])
  ∧ PyJson.getitem (Mock.reply [5; 0]) "reasoning" = Some (JStr "by relevance")
  ∧ @process_and_rerank_memories (Mock.retriever (Some (Mock.reply [5; 0])))
      ["which one?"] [Mock.x; Mock.y; Mock.z; Mock.w] [] 2
    = Ok ([Mock.x; Mock.y], false).
Proof. repeat split; by vm_compute. Qed.

Section Facts.
Context `{Retriever}.

(** The map files every key under the last item that has it. *)
Lemma memory_map_last combined key :
  memory_map combined !! key
  = last (filter (λ mem_obj, transform_name_to_key (memory mem_obj) = key) combined).
Proof.
  unfold memory_map. induction combined as [|x l IH] using rev_ind; [done|].
  rewrite foldl_snoc, filter_app, filter_cons, filter_nil, lookup_insert.
  case_decide as Hx.
  - by rewrite last_snoc.
  - by rewrite app_nil_r.
Qed.

(** X3: when several of the items given to [process_and_rerank_memories]
    have the same normalized key, only the last of them, in the order
    [original_memory + new_memory], can be returned: an item of [new_memory]
    takes the place of every earlier item with its key. *)
Theorem process_and_rerank_prefers_later
    queries original_memory new_memory top_k items ok mem_obj :
  process_and_rerank_memories queries original_memory new_memory top_k = Ok (items, ok) →
  mem_obj ∈ items →
  last (filter (λ other, transform_name_to_key (memory other)
                         = transform_name_to_key (memory mem_obj))
               (original_memory ++ new_memory)) = Some mem_obj.
Proof.
  unfold process_and_rerank_memories.
  destruct (rerank_memories _ _ _) as [[texts ok']|]; [|done].
  cbn [bind_result]. intros [= <- _]. unfold map_back.
  rewrite list_elem_of_omap. intros (text & _ & Hlook).
  destruct (memory_map_lookup _ _ _ Hlook) as [_ Hkey].
  by rewrite Hkey, <- memory_map_last.
Qed.

End Facts.

Lemma process_and_rerank_prefers_later_witness :
  @process_and_rerank_memories (Mock.retriever (Some (Mock.reply [0])))
    ["which one?"] [Mock.item "old" "x-ray memory" []]
    [Mock.item "new" "x-ray memory" ["mode:fast"]] 1
  = Ok ([Mock.item "new" "x-ray memory" ["mode:fast"]], true)
  ∧ last (filter (λ other,
                    @transform_name_to_key (Mock.retriever (Some (Mock.reply [0])))
                      (memory other)
                    = @transform_name_to_key (Mock.retriever (Some (Mock.reply [0])))
                        (memory (Mock.item "new" "x-ray memory" ["mode:fast"])))
                 ([Mock.item "old" "x-ray memory" []]
                  ++ [Mock.item "new" "x-ray memory" ["mode:fast"]]))
    = Some (Mock.item "new" "x-ray memory" ["mode:fast"]).
Proof.
  split; [reflexivity|].
  eapply (@process_and_rerank_prefers_later (Mock.retriever (Some (Mock.reply [0])))
            ["which one?"] [Mock.item "old" "x-ray memory" []]
            [Mock.item "new" "x-ray memory" ["mode:fast"]] 1).
  - reflexivity.
  - left.
Defined.

End RerankFacts.

(** ** Facts about the monitor of the specification *)

Module WorkingMemoryMonitorFacts.
Import WorkingMemoryMonitor.

(** Collapsing only removes entries. *)
Lemma collapse_sublist seen entries : collapse seen entries `sublist_of` entries.
Proof.
  revert seen. induction entries as [|one rest IH]; intros seen; [done|].
  simpl. case_bool_decide.
  - by apply sublist_cons.
  - by apply sublist_skip.
Qed.

(** What is left has pairwise distinct keys, none of them seen before. *)
Lemma collapse_keys seen entries :
  NoDup (tree_memory_item_mapping_key <$> collapse seen entries)
  ∧ ∀ key, key ∈ tree_memory_item_mapping_key <$> collapse seen entries → key ∉ seen.
Proof.
  revert seen. induction entries as [|one rest IH]; intros seen.
  - simpl. split; [constructor|]. intros key Hkey. by apply elem_of_nil in Hkey.
  - simpl. case_bool_decide as Hseen; [apply IH|].
    destruct (IH (tree_memory_item_mapping_key one :: seen)) as [Hnodup Hfresh].
    csimpl. split.
    + constructor; [|done]. intros Hin. apply Hfresh in Hin.
      apply Hin. by left.
    + intros key [->|Hin]%elem_of_cons; [done|]. apply Hfresh in Hin.
      intros Hkey. apply Hin. by right.
Qed.

(** Entries whose keys are pairwise distinct are all kept. *)
Lemma collapse_distinct seen entries :
  NoDup (tree_memory_item_mapping_key <$> entries) →
  (∀ key, key ∈ tree_memory_item_mapping_key <$> entries → key ∉ seen) →
  collapse seen entries = entries.
Proof.
  revert seen. induction entries as [|one rest IH]; intros seen Hnodup Hfresh; [done|].
  csimpl in *. apply NoDup_cons in Hnodup as [Hone Hnodup].
  rewrite bool_decide_eq_false_2 by (apply Hfresh; by left).
  f_equal. apply IH; [done|].
  intros key Hkey [->|Hseen]%elem_of_cons; [done|].
  by apply (Hfresh key); [right|].
Qed.

Lemma insert_desc_Permutation one sorted : insert_desc one sorted ≡ₚ one :: sorted.
Proof.
  induction sorted as [|other rest IH]; [done|]. simpl.
  destruct (_ <=? _); [done|]. rewrite IH. apply Permutation_swap.
Qed.

Lemma sort_desc_Permutation entries : sort_desc entries ≡ₚ entries.
Proof.
  unfold sort_desc. induction entries as [|one rest IH]; [done|]. simpl.
  by rewrite insert_desc_Permutation, IH.
Qed.

Lemma insert_desc_Sorted one sorted :
  Sorted (λ a b, sorting_score b ≤ sorting_score a) sorted →
  Sorted (λ a b, sorting_score b ≤ sorting_score a) (insert_desc one sorted).
Proof.
  induction sorted as [|other rest IH]; intros Hsorted.
  - repeat constructor.
  - simpl. destruct (Z.leb_spec (sorting_score other) (sorting_score one)).
    + constructor; [done|]. by constructor.
    + apply Sorted_inv in Hsorted as [Hrest Hhead].
      constructor; [by apply IH|].
      destruct rest as [|next rest]; simpl.
      * constructor. lia.
      * destruct (_ <=? _); constructor; [lia|]. by apply HdRel_inv in Hhead.
Qed.

Lemma sort_desc_Sorted entries :
  Sorted (λ a b, sorting_score b ≤ sorting_score a) (sort_desc entries).
Proof.
  unfold sort_desc. induction entries as [|one rest IH]; [constructor|].
  simpl. by apply insert_desc_Sorted.
Qed.

(** The sort is stable: entries that are in descending order already stay
    as they are, equal scores included. *)
Lemma sort_desc_sorted entries :
  Sorted (λ a b, sorting_score b ≤ sorting_score a) entries →
  sort_desc entries = entries.
Proof.
  unfold sort_desc. induction entries as [|one rest IH]; [done|].
  intros [Hrest Hhead]%Sorted_inv. simpl. rewrite IH by done.
  destruct rest as [|next rest]; [done|]. apply HdRel_inv in Hhead. simpl.
  by rewrite (proj2 (Z.leb_le _ _)).
Qed.

End WorkingMemoryMonitorFacts.

(** ** Facts about the working-memory operations *)

Module MemoryOpsFacts.
Import PyList PyListFacts RerankPipeline RerankFacts MemoryOps.
Import WorkingMemoryMonitorFacts.

Section Facts.
Context `{Retriever} {S : Type} `{Monitor S}.

Lemma keyword_loop_sum (query_keywords : list (string * Z)) (text : string) (start : Z) :
  foldl (λ keywords_score kc,
           let keyword_count := Z.of_nat (PyStr.count text kc.1) in
           if 0 <? keyword_count then keywords_score + keyword_count * kc.2
           else keywords_score)
        start query_keywords
  = start + weighted_occurrences query_keywords text.
Proof.
  unfold weighted_occurrences. revert start.
  induction query_keywords as [|kc kws IH]; intros start; simpl; [lia|].
  rewrite IH, filter_cons.
  destruct (Z.ltb_spec 0 (Z.of_nat (PyStr.count text kc.1))).
  - rewrite decide_True by lia. csimpl. lia.
  - rewrite decide_False by lia. done.
Qed.

Lemma keywords_score_of_spec (query_keywords : list (string * Z)) (text : string) :
  keywords_score_of query_keywords text
  = if bool_decide (text = "") then 0 else weighted_occurrences query_keywords text.
Proof.
  unfold keywords_score_of.
  destruct (decide (text = "")) as [->|Htext].
  - by rewrite andb_false_r.
  - rewrite (bool_decide_eq_false_2 (text = "")) by done.
    rewrite (bool_decide_eq_true_2 (text ≠ "")) by done.
    destruct query_keywords as [|kc kws]; [done|].
    rewrite (bool_decide_eq_true_2 (kc :: kws ≠ [])) by done.
    by rewrite keyword_loop_sum.
Qed.

(** C8 (as amended): the entry made for the item at position [idx] carries
    the item, [sorting_score = len(memories) - idx], and a [keywords_score]
    that is the weighted sum of keyword occurrences, except that an item with
    an empty text scores 0. *)
Theorem transform_working_memories_to_monitors_entry
    (query_keywords : list (string * Z)) (memories : list TextualMemoryItem) (idx : nat) :
  transform_working_memories_to_monitors query_keywords memories !! idx
  = (λ mem,
       {| memory_text := memory mem;
          tree_memory_item := mem;
          tree_memory_item_mapping_key := transform_name_to_key (memory mem);
          sorting_score := Z.of_nat (length memories) - Z.of_nat idx;
          keywords_score :=
            if bool_decide (memory mem = "") then 0
            else weighted_occurrences query_keywords (memory mem);
          recording_count := 1 |})
    <$> memories !! idx.
Proof.
  unfold transform_working_memories_to_monitors.
  rewrite list_lookup_imap.
  destruct (memories !! idx) as [mem|]; [simpl|done].
  by rewrite keywords_score_of_spec.
Qed.

Lemma transform_items (query_keywords : list (string * Z)) memories :
  tree_memory_item <$> transform_working_memories_to_monitors query_keywords memories
  = memories.
Proof.
  unfold transform_working_memories_to_monitors. apply list_eq. intros idx.
  rewrite list_lookup_fmap, list_lookup_imap.
  by destruct (memories !! idx).
Qed.

Lemma set_sorting_score_items score (monitors : list MemoryMonitorItem) :
  tree_memory_item <$> (set_sorting_score score <$> monitors)
  = tree_memory_item <$> monitors.
Proof. rewrite <- list_fmap_compose. by apply list_fmap_ext. Qed.

(** The list the monitor entries are made from: a part of the reranked
    list, in its order. *)
Lemma filtered_sublist (query_history : list string) (items : list TextualMemoryItem) :
  (∀ qs ms, (filter_unrelated_memories qs ms).1 `sublist_of` ms) →
  (let '(filtered_memories, filter_success_flag) :=
     filter_unrelated_memories query_history items in
   if filter_success_flag : bool then filtered_memories else items)
  `sublist_of` items.
Proof.
  intros Hfilter. specialize (Hfilter query_history items).
  destruct (filter_unrelated_memories query_history items) as [filtered []];
    [done|reflexivity].
Qed.

(** Every entry made of a memory is filed under the key of its text. *)
Lemma transform_mapping_keys (query_keywords : list (string * Z)) memories :
  Forall (λ one, tree_memory_item_mapping_key one
                 = transform_name_to_key (memory (tree_memory_item one)))
         (transform_working_memories_to_monitors query_keywords memories).
Proof.
  apply Forall_forall. intros one Hone.
  unfold transform_working_memories_to_monitors in Hone.
  apply list_elem_of_lookup in Hone as [idx Hidx].
  rewrite list_lookup_imap in Hidx.
  destruct (memories !! idx) as [mem|]; by simplify_eq/=.
Qed.

(** The tree branch of [replace_working_memory], once the reranker has
    answered: the entries handed to the monitor, what is written back and what
    is returned. *)
Lemma replace_working_memory_tree
    (top_k : Z) (monitor : S) (original_memory new_memory items : list TextualMemoryItem)
    (ok : bool) :
  process_and_rerank_memories
    (get_queries_with_timesort (sync_with_orm monitor))
    (filter (λ origin_mem, "mode:fast" ∉ tags (metadata origin_mem)) original_memory)
    new_memory top_k = Ok (items, ok) →
  let final :=
    (let '(filtered_memories, filter_success_flag) :=
       filter_unrelated_memories
         (get_queries_with_timesort (sync_with_orm monitor)) items in
     if filter_success_flag : bool then filtered_memories else items) in
  let entries :=
    (if ok
     then transform_working_memories_to_monitors
            (get_keywords_collections (sync_with_orm monitor)) final
     else set_sorting_score 0
            <$> transform_working_memories_to_monitors
                  (get_keywords_collections (sync_with_orm monitor)) final) in
  let after := update_working_memory_monitors entries (sync_with_orm monitor) in
  replace_working_memory top_k TreeTextMemory monitor original_memory new_memory
  = Ok {| monitor_after := after;
          written_back := Some (tree_memory_item <$> get_sorted_mem_monitors after);
          returned := final |}
  ∧ tree_memory_item <$> entries = final
  ∧ Forall (λ one, tree_memory_item_mapping_key one
                   = transform_name_to_key (memory (tree_memory_item one))) entries.
Proof.
  intros Hrerank final entries after. split; [|split].
  - unfold replace_working_memory. rewrite Hrerank. cbn [bind_result].
    unfold after, entries, final.
    by destruct (filter_unrelated_memories _ items) as [filtered []].
  - unfold entries.
    destruct ok; [|rewrite set_sorting_score_items]; by rewrite transform_items.
  - unfold entries. destruct ok; [apply transform_mapping_keys|].
    apply Forall_fmap. eapply Forall_impl; [apply transform_mapping_keys|]. done.
Qed.

End Facts.

Section SpecMonitor.
Context `{Retriever}.

(** C1 (as amended): with the monitor of the specification, a [top_k] that
    is not negative, a query history that is not empty and an
    unrelated-filter that only removes items, the working set written back by
    the tree branch of [replace_working_memory] has at most [top_k] items, its
    normalized keys are pairwise distinct, and each of its items is an item of
    [new] or an item of [original] without the tag [mode:fast]: an item of
    [original] that carries the tag is in it only when [new] supplies it as
    well. *)
Theorem replace_working_memory_written_back
    (top_k : Z) (st : WorkingMemoryMonitor.state)
    (original_memory new_memory : list TextualMemoryItem) :
  0 ≤ top_k →
  WorkingMemoryMonitor.queries st ≠ [] →
  (∀ qs ms, (filter_unrelated_memories qs ms).1 `sublist_of` ms) →
  ∃ working_set,
    written (@replace_working_memory _ _ WorkingMemoryMonitor.monitor
               top_k TreeTextMemory st original_memory new_memory) = Some working_set
    ∧ Z.of_nat (length working_set) ≤ top_k
    ∧ NoDup ((transform_name_to_key ∘ memory) <$> working_set)
    ∧ ∀ mem_obj, mem_obj ∈ working_set →
        mem_obj ∈ new_memory
        ∨ (mem_obj ∈ original_memory ∧ "mode:fast" ∉ tags (metadata mem_obj)).
Proof.
  intros Hk Hqueries Hfilter.
  destruct (WorkingMemoryMonitor.queries st) as [|query queries] eqn:Hq; [done|].
  clear Hqueries.
  set (kept := filter (λ origin_mem, "mode:fast" ∉ tags (metadata origin_mem))
                      original_memory).
  destruct (rerank_memories_Ok query queries (unique_memory kept new_memory) top_k)
    as (texts & ok & Hrerank & Hlen & _).
  specialize (Hlen Hk).
  pose proof (process_and_rerank_unfold _ _ _ _ _ _ _ Hrerank) as Hproc.
  set (items := map_back (memory_map (kept ++ new_memory)) texts) in Hproc.
  destruct (@replace_working_memory_tree _ _ WorkingMemoryMonitor.monitor
              top_k st original_memory new_memory items ok)
    as (Hreplace & Hitems & Hkeys).
  { cbn [sync_with_orm get_queries_with_timesort WorkingMemoryMonitor.monitor].
    by rewrite Hq. }
  cbn [sync_with_orm get_queries_with_timesort get_keywords_collections
       update_working_memory_monitors get_sorted_mem_monitors
       WorkingMemoryMonitor.monitor WorkingMemoryMonitor.entries]
    in Hreplace, Hitems, Hkeys.
  rewrite Hq in Hreplace, Hitems, Hkeys.
  pose proof (filtered_sublist (query :: queries) items Hfilter) as Hsub.
  set (final := let '(filtered_memories, filter_success_flag) :=
                  filter_unrelated_memories (query :: queries) items in
                if filter_success_flag : bool then filtered_memories else items)
    in Hreplace, Hitems, Hkeys, Hsub.
  set (entries :=
         if ok
         then transform_working_memories_to_monitors (WorkingMemoryMonitor.keywords st) final
         else set_sorting_score 0
                <$> transform_working_memories_to_monitors
                      (WorkingMemoryMonitor.keywords st) final)
    in Hreplace, Hitems, Hkeys.
  set (kept_entries := WorkingMemoryMonitor.collapse [] entries) in Hreplace.
  pose proof (sort_desc_Permutation kept_entries) as Hperm.
  pose proof (collapse_sublist [] entries) as Hcollapse. fold kept_entries in Hcollapse.
  exists (tree_memory_item <$> WorkingMemoryMonitor.sort_desc kept_entries).
  split; [by rewrite Hreplace|]. split; [|split].
  - rewrite length_fmap, Hperm.
    apply sublist_length in Hcollapse, Hsub.
    rewrite <- Hitems, length_fmap in Hsub.
    pose proof (length_omap_le
                  (λ text, memory_map (kept ++ new_memory)
                             !! transform_name_to_key text) texts) as Hle.
    fold (map_back (memory_map (kept ++ new_memory)) texts) in Hle. fold items in Hle.
    lia.
  - rewrite <- list_fmap_compose, Hperm.
    assert ((transform_name_to_key ∘ memory ∘ tree_memory_item) <$> kept_entries
            = tree_memory_item_mapping_key <$> kept_entries) as ->.
    { apply Forall_fmap_ext_1, Forall_forall. intros one Hone.
      rewrite Forall_forall in Hkeys. simpl. symmetry. apply Hkeys.
      by eapply elem_of_sublist. }
    apply collapse_keys.
  - intros mem_obj Hin. rewrite Hperm in Hin.
    assert (mem_obj ∈ items) as Hitem.
    { eapply elem_of_sublist; [|done]. rewrite <- Hitems.
      eapply elem_of_sublist; [done|]. by apply fmap_sublist. }
    apply map_back_elem_of, elem_of_app in Hitem as [Hkept|Hnew]; [right|by left].
    by apply list_elem_of_filter in Hkept as [? ?].
Qed.

End SpecMonitor.

Lemma mock_filter_sublist answer (qs : list string) (ms : list TextualMemoryItem) :
  (@filter_unrelated_memories (Mock.retriever answer) qs ms).1 `sublist_of` ms.
Proof. reflexivity. Qed.

(** Scenario S1 of the specification: working set [A, B, C], the search
    brings [D, E], the reranker answers [D, A, B]. *)
Lemma replace_working_memory_written_back_witness :
  0 ≤ 3
  ∧ WorkingMemoryMonitor.queries Mock.s1_monitor ≠ []
  ∧ ∃ working_set,
      written (@replace_working_memory (Mock.retriever (Some (Mock.reply [3; 0; 1])))
                 _ WorkingMemoryMonitor.monitor 3 TreeTextMemory Mock.s1_monitor
                 [Mock.A; Mock.B; Mock.C] [Mock.D; Mock.E]) = Some working_set
      ∧ Z.of_nat (length working_set) ≤ 3
      ∧ NoDup ((@transform_name_to_key (Mock.retriever (Some (Mock.reply [3; 0; 1])))
                  ∘ memory) <$> working_set)
      ∧ ∀ mem_obj, mem_obj ∈ working_set →
          mem_obj ∈ [Mock.D; Mock.E]
          ∨ (mem_obj ∈ [Mock.A; Mock.B; Mock.C]
             ∧ "mode:fast" ∉ tags (metadata mem_obj)).
Proof.
  split; [lia|]. split; [discriminate|].
  apply (@replace_working_memory_written_back
           (Mock.retriever (Some (Mock.reply [3; 0; 1])))
           3 Mock.s1_monitor [Mock.A; Mock.B; Mock.C] [Mock.D; Mock.E]).
  - lia.
  - discriminate.
  - apply mock_filter_sublist.
Defined.

(** Scenario S1 evaluated: the working set becomes [D, A, B]. *)
Example replace_working_memory_s1 :
  written (@replace_working_memory (Mock.retriever (Some (Mock.reply [3; 0; 1])))
             _ Mock.monitor 3 TreeTextMemory Mock.s1_monitor
             [Mock.A; Mock.B; Mock.C] [Mock.D; Mock.E])
  = Some [Mock.D; Mock.A; Mock.B].
Proof. by vm_compute. Qed.

(** C1 as stated fails: the filter on [mode:fast] runs over [original]
    only.  With [F], tagged [mode:fast], in the working memory and brought
    again by the search, the candidates are [A, F, D], the reranker puts the
    second before the first, and [F] is written back: an item of [original]
    whose tags include [mode:fast]. *)
Lemma replace_working_memory_fast_again :
  written (@replace_working_memory (Mock.retriever (Some (Mock.reply [1; 0])))
             _ WorkingMemoryMonitor.monitor 2 TreeTextMemory Mock.s1_monitor
             [Mock.A; Mock.F] [Mock.F; Mock.D])
  = Some [Mock.F; Mock.A]
  ∧ Mock.F ∈ [Mock.A; Mock.F]
  ∧ "mode:fast" ∈ tags (metadata Mock.F).
Proof. split; [by vm_compute|]. split; [by right; left|by left]. Qed.

(** A reranker that names a position twice: the list returned has the item
    twice, the monitor keeps one entry for its key, and the working set
    written back has the item once. *)
Example replace_working_memory_repeated_position :
  (λ replaced, (written_back replaced, returned replaced))
    <$> (match @replace_working_memory (Mock.retriever (Some (Mock.reply [0; 0])))
                 _ WorkingMemoryMonitor.monitor 2 TreeTextMemory Mock.s1_monitor
                 [] [Mock.D; Mock.E] with
         | Ok replaced => Some replaced
         | Raise _ => None
         end)
  = Some (Some [Mock.D], [Mock.D; Mock.D]).
Proof. by vm_compute. Qed.

(** C8 as stated fails on an item with an empty text when the empty string
    is among the keywords: Python counts one occurrence of "" in "", so the
    sum of the specification is 1, but the guard on the text leaves the score
    at 0. *)
Lemma empty_text_scores_zero :
  keywords_score
    <$> (@transform_working_memories_to_monitors (Mock.retriever None)
           [("", 1)] [Mock.item "e" "" []] !! 0%nat) = Some 0
  ∧ PyStr.count "" "" = 1%nat
  ∧ weighted_occurrences [("", 1)] "" = 1.
Proof. repeat split; by vm_compute. Qed.

Example keywords_score_example :
  keywords_score
    <$> (@transform_working_memories_to_monitors (Mock.retriever None)
           [("memory", 2); ("zebra", 5); ("a", 1)]
           [Mock.item "m" "a memory of a memory" []] !! 0%nat) = Some 6.
Proof. by vm_compute. Qed.

Section Facts.
Context `{Retriever} {S : Type} `{Monitor S}.

Lemma transform_scores (query_keywords : list (string * Z)) memories :
  sorting_score <$> transform_working_memories_to_monitors query_keywords memories
  = (λ idx, Z.of_nat (length memories) - Z.of_nat idx) <$> seq 0 (length memories).
Proof.
  unfold transform_working_memories_to_monitors. apply list_eq. intros idx.
  rewrite !list_lookup_fmap, list_lookup_imap.
  destruct (memories !! idx) as [mem|] eqn:Hidx; simpl.
  - apply lookup_lt_Some in Hidx. by rewrite lookup_seq_lt.
  - apply lookup_ge_None in Hidx. by rewrite lookup_seq_ge.
Qed.

Lemma descending_scores (n : nat) (base : Z) (start : nat) :
  Sorted (λ a b : Z, b ≤ a) ((λ idx, base - Z.of_nat idx) <$> seq start n)
  ∧ NoDup ((λ idx, base - Z.of_nat idx) <$> seq start n).
Proof.
  split.
  - revert start. induction n as [|n IH]; intros start; [constructor|].
    cbn [seq fmap list_fmap]. constructor; [apply IH|].
    destruct n; [constructor|]. cbn [seq fmap list_fmap]. constructor. lia.
  - apply NoDup_fmap_2; [|apply NoDup_seq]. intros i j. lia.
Qed.

(** The entries made of a list of memories, sorted by descending
    [sorting_score], are in the order of the list, and no other arrangement
    of them is. *)
Lemma sorted_monitors_unique (query_keywords : list (string * Z)) memories sorted :
  sorted ≡ₚ transform_working_memories_to_monitors query_keywords memories →
  Sorted (λ a b, sorting_score b ≤ sorting_score a) sorted →
  sorted = transform_working_memories_to_monitors query_keywords memories.
Proof.
  intros Hperm Hsorted.
  set (monitors := transform_working_memories_to_monitors query_keywords memories) in *.
  destruct (descending_scores (length memories) (Z.of_nat (length memories)) 0)
    as [Hdesc Hdistinct].
  rewrite <- (transform_scores query_keywords) in Hdesc, Hdistinct.
  fold monitors in Hdesc, Hdistinct.
  assert (Transitive (λ a b : MemoryMonitorItem, sorting_score b ≤ sorting_score a))
    as Htrans by (intros a b c; lia).
  apply (Sorted_unique_strong (λ a b, sorting_score b ≤ sorting_score a));
    [ |done| |done].
  - intros x1 x2 Hx1 Hx2 H12 H21. rewrite Hperm in Hx1.
    apply list_elem_of_lookup in Hx1 as [i Hi], Hx2 as [j Hj].
    assert (i = j) as ->; [|congruence].
    eapply (NoDup_lookup _ _ _ (sorting_score x1) Hdistinct);
      rewrite list_lookup_fmap.
    + by rewrite Hi.
    + rewrite Hj. simpl. f_equal. lia.
  - clear Hdistinct Hperm Hsorted.
    induction monitors as [|a l IH]; [constructor|].
    cbn [fmap list_fmap] in Hdesc. apply Sorted_inv in Hdesc as [Htail Hhead].
    constructor; [by apply IH|].
    destruct l; [constructor|]. cbn [fmap list_fmap] in Hhead.
    apply HdRel_inv in Hhead. by constructor.
Qed.

(** X4: on a tree text memory whose rerank succeeds, when the snapshot the
    monitor gives after this update holds the entries of this update, by
    descending [sorting_score], the working set written back to the mem-cube
    is the list the call returns: the reranked items, less those the
    unrelated-filter removed, in the order the reranker gave them. *)
Theorem replace_working_memory_keeps_rerank_order
    (top_k : Z) (monitor : S) (original_memory new_memory items : list TextualMemoryItem) :
  process_and_rerank_memories
    (get_queries_with_timesort (sync_with_orm monitor))
    (filter (λ origin_mem, "mode:fast" ∉ tags (metadata origin_mem)) original_memory)
    new_memory top_k = Ok (items, true) →
  let final :=
    (let '(filtered_memories, filter_success_flag) :=
       filter_unrelated_memories
         (get_queries_with_timesort (sync_with_orm monitor)) items in
     if filter_success_flag : bool then filtered_memories else items) in
  let entries :=
    transform_working_memories_to_monitors
      (get_keywords_collections (sync_with_orm monitor)) final in
  let snapshot :=
    get_sorted_mem_monitors
      (update_working_memory_monitors entries (sync_with_orm monitor)) in
  snapshot ≡ₚ entries →
  Sorted (λ a b, sorting_score b ≤ sorting_score a) snapshot →
  ∃ replaced,
    replace_working_memory top_k TreeTextMemory monitor original_memory new_memory
    = Ok replaced
    ∧ written_back replaced = Some (returned replaced)
    ∧ returned replaced = final.
Proof.
  intros Hrerank final entries snapshot Hperm Hsorted.
  destruct (replace_working_memory_tree top_k monitor original_memory new_memory
              items true Hrerank) as (Hreplace & _ & _).
  cbv zeta in Hreplace. fold final in Hreplace. fold entries in Hreplace.
  fold snapshot in Hreplace.
  eexists. split; [done|]. cbn [written_back returned]. split; [|done].
  f_equal. rewrite (sorted_monitors_unique _ _ _ Hperm Hsorted). apply transform_items.
Qed.

End Facts.

(** Scenario S1 once more, with the monitor of the specification: the three
    entries have three keys, so the monitor keeps them all. *)
Lemma replace_working_memory_keeps_rerank_order_witness :
  ∃ replaced,
    @replace_working_memory (Mock.retriever (Some (Mock.reply [3; 0; 1])))
      _ WorkingMemoryMonitor.monitor 3 TreeTextMemory Mock.s1_monitor
      [Mock.A; Mock.B; Mock.C] [Mock.D; Mock.E]
    = Ok replaced
    ∧ written_back replaced = Some (returned replaced)
    ∧ returned replaced = [Mock.D; Mock.A; Mock.B].
Proof.
  apply (@replace_working_memory_keeps_rerank_order
           (Mock.retriever (Some (Mock.reply [3; 0; 1]))) _ WorkingMemoryMonitor.monitor
           3 Mock.s1_monitor [Mock.A; Mock.B; Mock.C] [Mock.D; Mock.E]
           [Mock.D; Mock.A; Mock.B]).
  - reflexivity.
  - cbn [get_sorted_mem_monitors update_working_memory_monitors
         WorkingMemoryMonitor.monitor WorkingMemoryMonitor.entries].
    rewrite sort_desc_Permutation.
    by rewrite collapse_distinct by (vm_compute; by repeat constructor; set_solver).
  - apply sort_desc_Sorted.
Defined.

End MemoryOpsFacts.

(** ** Facts about the memory-update handler *)

Module MemoryUpdateHandlerFacts.
Import MemoryUpdateHandler.

Section Facts.
Context `{Retriever} {S : Type} `{Monitor S} `{HandlerContext}.

(** On a tree text memory the session turn ends in the bare [return] exactly
    when neither the intent nor the timer asks for retrieval. *)
Lemma process_session_turn_None (queries : list string) (top_k : Z) :
  process_session_turn TreeTextMemory queries top_k = None
  ↔ trigger_retrieval
      (detect_intent queries (memory <$> PyList.slice_to top_k get_working_memory))
    = false ∧ timed_trigger = false.
Proof.
  unfold process_session_turn.
  destruct (trigger_retrieval _), timed_trigger; simpl; naive_solver.
Qed.

(** The caller cannot unpack that value. *)
Lemma long_memory_update_process_raises
    (top_k : Z) (monitor : S) (content : string) (contents : list string) :
  process_session_turn TreeTextMemory (content :: contents) top_k = None →
  long_memory_update_process TreeTextMemory top_k monitor (content :: contents)
  = Raise "TypeError".
Proof. unfold long_memory_update_process. by intros ->. Qed.

(** When retrieval is triggered the value is a pair whose first component
    is the current working memory. *)
Lemma process_session_turn_Some (queries : list string) (top_k : Z) :
  process_session_turn TreeTextMemory queries top_k ≠ None →
  ∃ new_candidates,
    process_session_turn TreeTextMemory queries top_k
    = Some (PyList.slice_to top_k get_working_memory, new_candidates).
Proof.
  unfold process_session_turn.
  destruct (negb _ && negb _); [done|]. intros _. by eexists.
Qed.

End Facts.

(** C3, the code at the failing input: with no retrieval triggered and the
    timer not elapsed, [process_session_turn] returns [None] rather than the
    pair (current working memory, []), and [long_memory_update_process] raises
    when it unpacks that value. *)
Lemma process_session_turn_quiet_turn :
  @process_session_turn Mock.quiet_context TreeTextMemory ["hello again"] 10 = None
  ∧ @long_memory_update_process (Mock.retriever None) _ Mock.monitor Mock.quiet_context
      TreeTextMemory 10 Mock.s1_monitor ["hello again"] = Raise "TypeError"
  ∧ @process_session_turn Mock.quiet_context UnsupportedTextMemory ["hello again"] 10
    = Some ([], []).
Proof. repeat split; by vm_compute. Qed.

Import PyListFacts.

(** The share of each evidence, times the number of evidences. *)
Lemma k_per_evidence_total (top_k n : Z) :
  0 ≤ n →
  n * Z.max 1 (top_k `div` Z.max 1 n) ≤ Z.max top_k n.
Proof.
  intros Hn. destruct (decide (n = 0)) as [->|Hpos]; [lia|].
  rewrite (Z.max_r 1 n) by lia.
  destruct (Z.max_spec 1 (top_k `div` n)) as [[_ ->]|[_ ->]]; [|lia].
  pose proof (Z.mul_div_le top_k n). lia.
Qed.

Section Facts.
Context `{Retriever} {S : Type} `{Monitor S} `{HandlerContext}.

(** X6: how much a session turn asks for.  When every search gives at most
    [factor] items for each item asked for, a turn that searches for [n]
    evidences collects at most [factor * max(top_k, n)] candidates: [top_k] is
    shared among the evidences, but each evidence gets at least one.  The
    current working memory it returns has at most [top_k] items. *)
Theorem process_session_turn_candidates
    (text_mem_base : TextMemKind) (queries : list string) (top_k factor : Z)
    cur_working_memory new_candidates :
  0 ≤ top_k → 0 ≤ factor →
  (∀ item k, 1 ≤ k → Z.of_nat (length (retriever_search item k)) ≤ factor * k) →
  (∀ item k found, 1 ≤ k → naive_search item k = Some found →
     Z.of_nat (length found) ≤ factor * k) →
  process_session_turn text_mem_base queries top_k
  = Some (cur_working_memory, new_candidates) →
  let intent_result := detect_intent queries (memory <$> cur_working_memory) in
  let evidences :=
    if trigger_retrieval intent_result then missing_evidences intent_result
    else queries in
  Z.of_nat (length cur_working_memory) ≤ top_k
  ∧ (text_mem_base ≠ UnsupportedTextMemory →
     Z.of_nat (length new_candidates)
     ≤ factor * Z.max top_k (Z.of_nat (length evidences))).
Proof.
  intros Hk Hfactor Hsearch Hnaive. unfold process_session_turn.
  assert (∀ kind missing k, 1 ≤ k →
            Z.of_nat (length (search_evidences kind missing k))
            ≤ Z.of_nat (length missing) * (factor * k)) as Hfound.
  { intros kind missing k Hk'. unfold search_evidences.
    apply length_bind_le; [lia|]. intros item.
    destruct kind; try by apply Hsearch.
    destruct (naive_search item k) as [found|] eqn:Hfound; simpl; [by eapply Hnaive|lia]. }
  assert (∀ kind missing,
            Z.of_nat (length (search_evidences kind missing
                                (Z.max 1 (top_k `div` Z.max 1 (Z.of_nat (length missing))))))
            ≤ factor * Z.max top_k (Z.of_nat (length missing))) as Hall.
  { intros kind missing. etrans; [apply Hfound; lia|].
    pose proof (k_per_evidence_total top_k (Z.of_nat (length missing))). nia. }
  destruct text_mem_base.
  - destruct (trigger_retrieval _) eqn:Htrigger, timed_trigger; cbn [negb andb];
      try done; intros [= <- <-]; cbn zeta; rewrite Htrigger;
      (split; [by apply PyListFacts.slice_to_length|]); intros _; apply Hall.
  - destruct (trigger_retrieval _) eqn:Htrigger, timed_trigger; cbn [negb andb];
      try done; intros [= <- <-]; cbn zeta; cbn [fmap list_fmap] in *;
      rewrite Htrigger; (split; [simpl; lia|]); intros _; apply Hall.
  - intros [= <- <-]. split; [simpl; lia|done].
Qed.

End Facts.

Lemma process_session_turn_candidates_witness :
  0 ≤ 10 ∧ 0 ≤ 1
  ∧ @process_session_turn Mock.busy_context TreeTextMemory ["q1"; "q2"; "q3"] 10
    = Some ([Mock.A; Mock.B; Mock.C], [Mock.D; Mock.E; Mock.D; Mock.E; Mock.D; Mock.E])
  ∧ Z.of_nat (length [Mock.A; Mock.B; Mock.C]) ≤ 10
  ∧ (TreeTextMemory ≠ UnsupportedTextMemory →
     Z.of_nat (length [Mock.D; Mock.E; Mock.D; Mock.E; Mock.D; Mock.E])
     ≤ 1 * Z.max 10 (Z.of_nat (length ["q1"; "q2"; "q3"]))).
Proof.
  split; [lia|]. split; [lia|]. split; [reflexivity|].
  apply (@process_session_turn_candidates Mock.busy_context
           TreeTextMemory ["q1"; "q2"; "q3"] 10 1).
  - lia.
  - lia.
  - intros item k Hk. simpl. rewrite length_take. simpl. lia.
  - intros item k found Hk [= <-]. rewrite length_take. simpl. lia.
  - reflexivity.
Defined.

End MemoryUpdateHandlerFacts.

(** ** Facts about grouping *)

Module PyDictFacts.
Import PyDict.

Section Grouping.
Context {K V : Type} `{EqDecision K}.

Lemma setdefault_append_sound (P : V → K → Prop) k v (groups : list (K * list V)) :
  (∀ k' vs x, (k', vs) ∈ groups → x ∈ vs → P x k') →
  P v k →
  ∀ k' vs x, (k', vs) ∈ setdefault_append k v groups → x ∈ vs → P x k'.
Proof.
  intros Hgroups Hv. induction groups as [|[k0 vs0] rest IH]; intros k' vs x; simpl.
  - rewrite list_elem_of_singleton. intros [= -> ->].
    by rewrite list_elem_of_singleton; intros ->.
  - case_decide as Hk; rewrite elem_of_cons.
    + intros [[= -> ->]|Hin] Hx.
      * apply elem_of_app in Hx as [Hx|Hx%list_elem_of_singleton].
        -- eapply Hgroups; [left|done].
        -- by subst.
      * eapply Hgroups; [by right|done].
    + intros [[= -> ->]|Hin] Hx.
      * eapply Hgroups; [left|done].
      * eapply IH; [|done..]. intros ? ? ? ?. eapply Hgroups. by right.
Qed.



(** Every member of a group comes from the list and has the group's key. *)
Lemma group_by_sound (key : V → K) (l : list V) k vs x :
  (k, vs) ∈ group_by key l → x ∈ vs → x ∈ l ∧ key x = k.
Proof.
  unfold group_by. revert k vs x.
  induction l as [|v l IH] using rev_ind; intros k vs x.
  - simpl. by rewrite elem_of_nil.
  - rewrite foldl_snoc.
    apply (setdefault_append_sound (λ x k, x ∈ l ++ [v] ∧ key x = k)).
    + intros k' vs' x' Hin Hx'. destruct (IH _ _ _ Hin Hx'). set_solver.
    + set_solver.
Qed.


End Grouping.
Section Partition.
Context {K V : Type} `{EqDecision K}.

Lemma setdefault_append_concat k v (groups : list (K * list V)) :
  concat (setdefault_append k v groups).*2 ≡ₚ concat groups.*2 ++ [v].
Proof.
  induction groups as [|[k0 vs0] rest IH]; simpl; [done|].
  case_decide; csimpl.
  - rewrite <- !(assoc_L (++)). f_equiv. apply Permutation_app_comm.
  - by rewrite IH, (assoc_L (++)).
Qed.

(** Grouping neither loses nor repeats an element. *)
Lemma group_by_concat (key : V → K) (l : list V) :
  concat (group_by key l).*2 ≡ₚ l.
Proof.
  unfold group_by. induction l as [|v l IH] using rev_ind; [done|].
  by rewrite foldl_snoc, setdefault_append_concat, IH.
Qed.

Lemma setdefault_append_keys k v (groups : list (K * list V)) :
  (setdefault_append k v groups).*1
  = if decide (k ∈ groups.*1) then groups.*1 else groups.*1 ++ [k].
Proof.
  induction groups as [|[k0 vs0] rest IH]; [done|].
  cbn [setdefault_append].
  destruct (decide (k0 = k)) as [->|Hne]; rewrite !fmap_cons; cbn [fst].
  - by rewrite decide_True by left.
  - rewrite IH. destruct (decide (k ∈ rest.*1)) as [Hin|Hnot].
    + by rewrite decide_True by (by right).
    + rewrite decide_False; [done|]. rewrite elem_of_cons. naive_solver.
Qed.

(** There is one group for each key. *)
Lemma group_by_keys_NoDup (key : V → K) (l : list V) :
  NoDup (group_by key l).*1.
Proof.
  unfold group_by. induction l as [|v l IH] using rev_ind; [constructor|].
  rewrite foldl_snoc, setdefault_append_keys. case_decide; [done|].
  apply NoDup_app. split; [done|]. split; [|apply NoDup_singleton].
  intros k Hk ->%list_elem_of_singleton. done.
Qed.

Lemma setdefault_append_Forall (P : list V → Prop) (Q : list V → Prop) k v
    (groups : list (K * list V)) :
  (∀ vs, P vs → Q vs) → (∀ vs, P vs → Q (vs ++ [v])) → Q [v] →
  Forall (λ g, P g.2) groups →
  Forall (λ g, Q g.2) (setdefault_append k v groups).
Proof.
  intros Hkeep Hgrow Hnew. induction 1 as [|[k0 vs0] rest Hhead Hrest IH]; simpl.
  - by constructor.
  - case_decide.
    + constructor; [by apply Hgrow|]. eapply Forall_impl; [done|]. naive_solver.
    + constructor; [by apply Hkeep|done].
Qed.

(** Every group is non-empty and keeps the order of the list. *)
Lemma group_by_sublist (key : V → K) (l : list V) :
  Forall (λ g, g.2 ≠ [] ∧ g.2 `sublist_of` l) (group_by key l).
Proof.
  unfold group_by. induction l as [|v l IH] using rev_ind; [constructor|].
  rewrite foldl_snoc.
  apply (setdefault_append_Forall (λ vs, vs ≠ [] ∧ vs `sublist_of` l)
           (λ vs, vs ≠ [] ∧ vs `sublist_of` l ++ [v])); [| | |done].
  - intros vs [? Hsub]. split; [done|]. by apply sublist_inserts_r.
  - intros vs [? Hsub]. split; [by destruct vs|]. by apply sublist_app.
  - split; [done|]. by apply sublist_inserts_l.
Qed.

End Partition.

End PyDictFacts.

(** ** Facts about the submitting path *)

Module QueueOpsFacts.
Import PyDict PyDictFacts QueueOps.

Section Facts.
Context {Handler : Type} `{Scheduler Handler}.



Lemma on_queue_submit_messages (messages : list ScheduleMessageItem) :
  on_queue (submit_messages messages)
  = filter (λ msg, is_queued msg = true) (stamp <$> messages).
Proof.
  unfold on_queue, submit_messages. simpl.
  by destruct (filter _ (stamp <$> messages)).
Qed.



Lemma without_dequeue_ts_dequeue_immediate (immediate_msgs : list ScheduleMessageItem) :
  without_dequeue_ts <$> dequeue_immediate immediate_msgs
  = without_dequeue_ts <$> immediate_msgs.
Proof.
  unfold dequeue_immediate. apply list_eq. intros position.
  rewrite !list_lookup_fmap, list_lookup_imap.
  by destruct (immediate_msgs !! position).
Qed.


End Facts.


Example submit_messages_s3 :
  @submit_messages _ (Registry.scheduler None)
    [Registry.message "m1" "answer"; Registry.message "m2" "mem_reorganize"]
  = {| executed :=
         [ mkExecuteTask "user" "cube" "answer"
             [Msg.mk "m1" "task" "user" "cube" "answer" "content"
                (Some 1700000000) (Some "trace-1") (Some 1700000002)]
             "answer" ];
       queue_submitted :=
         Some [Msg.mk "m2" "task" "user" "cube" "mem_reorganize" "content"
                 (Some 1700000000) (Some "trace-1") None] |}.
Proof. by vm_compute. Qed.


Import PyListFacts.

Section Facts.
Context {Handler : Type} `{Scheduler Handler}.

Lemma execute_immediate_msgs (immediate_msgs : list ScheduleMessageItem) :
  execute_immediate immediate_msgs ≫= call_msgs ≡ₚ immediate_msgs.
Proof.
  unfold execute_immediate, group_messages_by_user_and_mem_cube.
  rewrite <- (group_by_concat Msg.user_id immediate_msgs) at 2.
  induction (group_by Msg.user_id immediate_msgs) as [|[user by_user] groups IH];
    [done|].
  csimpl. rewrite bind_app, IH. f_equiv.
  rewrite <- (group_by_concat Msg.mem_cube_id by_user) at 2.
  apply bind_concat_groups. intros [cube by_cube] _. cbn [fst snd].
  rewrite <- (group_by_concat Msg.label by_cube) at 2.
  induction (group_by Msg.label by_cube) as [|[label by_label] labels IHl]; [done|].
  csimpl. by rewrite IHl.
Qed.

(** X7: [submit_messages] handles every enabled message exactly once: the
    messages passed to [dispatcher.execute_task], over all its calls, are the
    enabled [LEVEL_1] messages of the batch, each once and with its
    [_dequeue_ts] set; the task queue gets the other enabled messages in the
    order of the batch; nothing else is executed or queued.  Every call gets
    at least one message, and its messages are in the order of the batch. *)
Theorem submit_messages_exactly_once (messages : list ScheduleMessageItem) :
  let outcome := submit_messages messages in
  let stamped := stamp <$> messages in
  let inline := dequeue_immediate (filter (λ msg, is_immediate msg = true) stamped) in
  executed outcome ≫= call_msgs ≡ₚ inline
  ∧ on_queue outcome = filter (λ msg, is_queued msg = true) stamped
  ∧ without_dequeue_ts <$> ((executed outcome ≫= call_msgs) ++ on_queue outcome)
    ≡ₚ without_dequeue_ts <$> filter (λ msg, is_disabled msg = false) stamped
  ∧ Forall (λ call, call_msgs call ≠ [] ∧ call_msgs call `sublist_of` inline)
           (executed outcome).
Proof.
  intros outcome stamped inline.
  assert (executed outcome ≫= call_msgs ≡ₚ inline) as Hexec
    by apply execute_immediate_msgs.
  assert (on_queue outcome = filter (λ msg, is_queued msg = true) stamped) as Hqueue
    by apply on_queue_submit_messages.
  split; [done|]. split; [done|]. split.
  { rewrite Hexec, Hqueue, fmap_app. unfold inline.
    rewrite without_dequeue_ts_dequeue_immediate, <- fmap_app. f_equiv.
    apply filter_partition.
    - intros msg. unfold is_immediate, is_queued.
      destruct (is_disabled msg), (bool_decide _); naive_solver.
    - intros msg. unfold is_immediate, is_queued.
      destruct (is_disabled msg), (bool_decide _); naive_solver. }
  apply Forall_forall. intros call Hcall.
  unfold outcome, submit_messages in Hcall. cbn [executed] in Hcall.
  fold stamped in Hcall. fold inline in Hcall.
  unfold execute_immediate, group_messages_by_user_and_mem_cube in Hcall.
  apply list_elem_of_bind in Hcall as (user_group & Hcall & Huser).
  apply list_elem_of_fmap in Huser as ([user by_user] & -> & Huser).
  apply list_elem_of_bind in Hcall as ([cube by_cube] & Hcall & Hcube).
  apply list_elem_of_fmap in Hcall as ([label by_label] & -> & Hlabel).
  cbn [fst snd call_msgs] in *.
  pose proof (group_by_sublist Msg.user_id inline) as Hu.
  pose proof (group_by_sublist Msg.mem_cube_id by_user) as Hc.
  pose proof (group_by_sublist Msg.label by_cube) as Hl.
  rewrite Forall_forall in Hu, Hc, Hl.
  destruct (Hu _ Huser) as [_ Hu'], (Hc _ Hcube) as [_ Hc'],
    (Hl _ Hlabel) as [Hne Hl']. cbn [snd] in *.
  split; [done|]. by etrans; [|etrans].
Qed.

(** X8: the calls of [dispatcher.execute_task] made by one [submit_messages]
    are keyed by user, mem-cube and label: no two calls have the same three,
    every message of a call has the user, the mem-cube and the label of the
    call, and the handler is the one registered for the label (the default
    handler when none is). *)
Theorem submit_messages_calls_keyed (messages : list ScheduleMessageItem) :
  let calls := executed (submit_messages messages) in
  NoDup ((λ call, (call_user_id call, call_mem_cube_id call, call_task_label call))
           <$> calls)
  ∧ Forall (λ call,
              call_handler call = handler_for (call_task_label call)
              ∧ Forall (λ msg, Msg.user_id msg = call_user_id call
                               ∧ Msg.mem_cube_id msg = call_mem_cube_id call
                               ∧ Msg.label msg = call_task_label call)
                       (call_msgs call))
           calls.
Proof.
  intros calls. unfold calls, submit_messages. cbn [executed].
  set (immediate_msgs := filter _ _). clearbody immediate_msgs. clear calls.
  unfold execute_immediate, group_messages_by_user_and_mem_cube. split.
  - rewrite list_fmap_bind, fmap_bind.
    apply (NoDup_bind_groups _ _ (λ key, key.1.1)).
    + apply group_by_keys_NoDup.
    + intros [user by_user] _. cbn [fst snd compose]. rewrite fmap_bind.
      apply (NoDup_bind_groups _ _ (λ key, key.1.2)).
      * apply group_by_keys_NoDup.
      * intros [cube by_cube] _. cbn [fst snd]. rewrite <- list_fmap_compose.
        apply (NoDup_fmap_1 (λ key, key.2)). rewrite <- list_fmap_compose.
        apply (group_by_keys_NoDup Msg.label by_cube).
      * intros [cube by_cube] key _ Hkey. cbn [fst snd] in *.
        rewrite <- list_fmap_compose in Hkey.
        by apply list_elem_of_fmap in Hkey as (? & -> & _).
    + intros [user by_user] key _ Hkey. cbn [fst snd compose] in *.
      apply list_elem_of_fmap in Hkey as (call & -> & Hcall).
      apply list_elem_of_bind in Hcall as (? & Hcall & _).
      by apply list_elem_of_fmap in Hcall as (? & -> & _).
  - apply Forall_forall. intros call Hcall.
    apply list_elem_of_bind in Hcall as (user_group & Hcall & Huser).
    apply list_elem_of_fmap in Huser as ([user by_user] & -> & Huser).
    apply list_elem_of_bind in Hcall as ([cube by_cube] & Hcall & Hcube).
    apply list_elem_of_fmap in Hcall as ([label by_label] & -> & Hlabel).
    cbn [fst snd call_handler call_task_label call_msgs call_user_id
         call_mem_cube_id] in *.
    split; [done|]. apply Forall_forall. intros msg Hmsg.
    destruct (group_by_sound _ _ _ _ _ Hlabel Hmsg) as [Hmsg' ?].
    destruct (group_by_sound _ _ _ _ _ Hcube Hmsg') as [Hmsg'' ?].
    by destruct (group_by_sound _ _ _ _ _ Huser Hmsg'') as [_ ?].
Qed.

End Facts.

End QueueOpsFacts.

(** ** Facts about the activation memory manager *)

Module ActivationMemoryManagerFacts.
Import ActivationMemoryManager.

Section Facts.
Context `{ActivationMemory}.

(** The skip: a last cache item that already holds the composed prompt
    leaves everything as it was. *)
Lemma update_activation_memory_skip new_memories now st pre_cache_item :
  last (cache st) = Some pre_cache_item →
  composed_text_memory (records pre_cache_item) = compose (text_list new_memories) →
  update_activation_memory new_memories now st = st.
Proof.
  intros Hlast Hsame. unfold update_activation_memory.
  destruct (text_list new_memories) as [|text rest] eqn:Htexts; [done|].
  destruct act_mem_kind; try done;
    by rewrite Hlast, bool_decide_eq_true_2.
Qed.

(** From an emptied cache, the extraction leaves the fresh item alone, or
    nothing when the extractor or [add] raised. *)
Lemma extract_and_add_outcome original new_text_memories new_text_memory now base st :
  cache base = [] →
  n_extract base = n_extract st → n_add base = n_add st →
  n_dump base = n_dump st → n_logged base = n_logged st →
  n_caught base = n_caught st →
  let st' := extract_and_add original new_text_memories new_text_memory now base in
  n_extract st' = S (n_extract st)
  ∧ match extract new_text_memory with
    | Some cache_item =>
        let fresh := stamp_records new_text_memories now cache_item in
        n_add st' = S (n_add st)
        ∧ if act_mem_add [fresh]
          then cache st' = [fresh]
               ∧ n_dump st' = S (n_dump st)
               ∧ if act_mem_dump [fresh]
                 then n_logged st' = S (n_logged st)
                      ∧ n_caught st'
                        = (if log_activation_memory_update_func original
                                new_text_memories
                           then n_caught st else S (n_caught st))
                 else n_logged st' = n_logged st ∧ n_caught st' = S (n_caught st)
          else cache st' = [] ∧ n_dump st' = n_dump st
               ∧ n_logged st' = n_logged st ∧ n_caught st' = S (n_caught st)
    | None =>
        cache st' = [] ∧ n_add st' = n_add st ∧ n_dump st' = n_dump st
        ∧ n_logged st' = n_logged st ∧ n_caught st' = S (n_caught st)
    end.
Proof.
  destruct base as [items deleted extracted added dumped logged handled].
  cbn [cache n_extract n_add n_dump n_logged n_caught].
  intros -> -> -> -> -> ->. unfold extract_and_add.
  destruct (extract new_text_memory) as [cache_item|]; [|done].
  cbn. destruct (act_mem_add _); [|done].
  destruct (act_mem_dump _); [|done].
  by destruct (log_activation_memory_update_func _ _).
Qed.

(** A refresh that is not skipped, and whose calls return up to the dump,
    leaves exactly the freshly extracted item in the cache. *)
Lemma update_activation_memory_refresh new_memories now st cache_item :
  text_list new_memories ≠ [] →
  act_mem_kind ≠ UnsupportedActMem →
  (∀ pre_cache_item, last (cache st) = Some pre_cache_item →
     composed_text_memory (records pre_cache_item) ≠ compose (text_list new_memories)) →
  extract (compose (text_list new_memories)) = Some cache_item →
  act_mem_add [stamp_records (text_list new_memories) now cache_item] = true →
  act_mem_dump [stamp_records (text_list new_memories) now cache_item] = true →
  let st' := update_activation_memory new_memories now st in
  cache st' = [stamp_records (text_list new_memories) now cache_item]
  ∧ n_add st' = S (n_add st)
  ∧ n_extract st' = S (n_extract st)
  ∧ n_dump st' = S (n_dump st).
Proof.
  intros Htexts Hkind Hfresh Hextract Hadd Hdump. unfold update_activation_memory.
  destruct (text_list new_memories) as [|text rest] eqn:Hlist; [done|].
  rewrite <- Hlist in *. clear Hlist text rest.
  assert (∀ original base, cache base = [] →
            n_extract base = n_extract st → n_add base = n_add st →
            n_dump base = n_dump st → n_logged base = n_logged st →
            n_caught base = n_caught st →
            let st' := extract_and_add original (text_list new_memories)
                         (compose (text_list new_memories)) now base in
            cache st' = [stamp_records (text_list new_memories) now cache_item]
            ∧ n_add st' = S (n_add st)
            ∧ n_extract st' = S (n_extract st)
            ∧ n_dump st' = S (n_dump st)) as Hbody.
  { intros original base Hc He Ha Hd Hl Hg.
    pose proof (extract_and_add_outcome original (text_list new_memories)
                  (compose (text_list new_memories)) now base st Hc He Ha Hd Hl Hg)
      as Hout.
    rewrite Hextract in Hout. cbv zeta in Hout. rewrite Hadd, Hdump in Hout.
    cbv zeta. naive_solver. }
  destruct act_mem_kind; try done.
  all: destruct (last (cache st)) as [pre|] eqn:Hlast.
  all: try rewrite bool_decide_eq_false_2 by (by apply Hfresh).
  all: apply Hbody; try done.
  all: by apply last_None.
Qed.

(** Two consecutive refreshes with the same memories: when the first is
    not skipped, its calls return, and the item it extracts records the prompt
    it was extracted from, the second is skipped, so exactly the first adds to
    the cache, and one item is left.  The manager itself never sets that
    field of the records. *)
Lemma update_activation_memory_idempotent new_memories now now' st cache_item :
  text_list new_memories ≠ [] →
  act_mem_kind ≠ UnsupportedActMem →
  (∀ pre_cache_item, last (cache st) = Some pre_cache_item →
     composed_text_memory (records pre_cache_item)
     ≠ compose (text_list new_memories)) →
  extract (compose (text_list new_memories)) = Some cache_item →
  composed_text_memory (records cache_item) = compose (text_list new_memories) →
  act_mem_add [stamp_records (text_list new_memories) now cache_item] = true →
  act_mem_dump [stamp_records (text_list new_memories) now cache_item] = true →
  let first := update_activation_memory new_memories now st in
  let second := update_activation_memory new_memories now' first in
  n_add first = S (n_add st)
  ∧ second = first
  ∧ length (cache second) = 1%nat
  ∧ n_add second = S (n_add st)
  ∧ n_extract second = S (n_extract st)
  ∧ n_dump second = S (n_dump st).
Proof.
  intros Htexts Hkind Hfresh Hextract Hrecords Hadd Hdump first second.
  destruct (update_activation_memory_refresh new_memories now st cache_item
              Htexts Hkind Hfresh Hextract Hadd Hdump) as (Hcache & Hnadd & Hext & Hndump).
  fold first in Hcache, Hnadd, Hext, Hndump.
  assert (second = first) as Hsecond.
  { unfold second.
    apply (update_activation_memory_skip _ _ _
             (stamp_records (text_list new_memories) now cache_item)).
    - by rewrite Hcache.
    - done. }
  rewrite Hsecond, Hcache. done.
Qed.

End Facts.

(** Scenario S5 with an extractor that records the prompt: the second of
    two refreshes of an unchanged working set is skipped. *)
Example update_activation_memory_recorded_prompt :
  @update_activation_memory MockActivation.recording MockActivation.s5_memories 200
    (@update_activation_memory MockActivation.recording
       MockActivation.s5_memories 100 MockActivation.empty_state)
  = @update_activation_memory MockActivation.recording
      MockActivation.s5_memories 100 MockActivation.empty_state
  ∧ n_add (@update_activation_memory MockActivation.recording
             MockActivation.s5_memories 100 MockActivation.empty_state) = 1%nat.
Proof. split; by vm_compute. Qed.

Example compose_s5 :
  @compose MockActivation.recording ["m1 likes tea"; "  "; " m2 lives in Oslo "]
  = "Working memories:" +:+ PyStr.nl
    +:+ "1. m1 likes tea" +:+ PyStr.nl
    +:+ "3. m2 lives in Oslo" +:+ PyStr.nl.
Proof. by vm_compute. Qed.

(** C5, the code at the failing input: scenario S5, two refreshes of the
    unchanged working set [m1, m2], with an extractor whose item has
    [composed_text_memory] at its default.  The manager stamps
    [text_memories] and [timestamp] on the item and not the composed prompt,
    the one field the skip test reads; so the second refresh is not skipped:
    it deletes the cache and extracts, adds, dumps and logs once more. *)
Lemma update_activation_memory_unrecorded_prompt :
  @update_activation_memory MockActivation.forgetful MockActivation.s5_memories 100
    MockActivation.empty_state
  = mkActState
      [mkCacheItem "kv" (mkRecords ["m1 likes tea"; "m2 lives in Oslo"] "" 100)]
      0 1 1 1 1 0
  ∧ @update_activation_memory MockActivation.forgetful MockActivation.s5_memories 200
      (@update_activation_memory MockActivation.forgetful
         MockActivation.s5_memories 100 MockActivation.empty_state)
    = mkActState
        [mkCacheItem "kv" (mkRecords ["m1 likes tea"; "m2 lives in Oslo"] "" 200)]
        1 2 2 2 2 0.
Proof. split; by vm_compute. Qed.

Section Facts.
Context `{ActivationMemory}.

(** X10: what a call of [update_activation_memory] can do.  Either the
    state stays as it is (no memories, an unsupported [act_mem], or a last
    cache item that holds the composed prompt: the cache is only read); or the
    extractor is called once, on a cache that has been emptied, and then:
    when the extractor raises, nothing is added, dumped or logged and the
    cache is left empty; when [add] raises, the same but for the failed [add];
    when [dump] raises, the fresh item is in the cache, alone, and the log
    function is not called; otherwise the fresh item is added, dumped and
    logged once.  Every exception ends in the handler, once, and old items
    are never kept beside a new one. *)
Theorem update_activation_memory_outcomes new_memories now st :
  let st' := update_activation_memory new_memories now st in
  let original :=
    match last (cache st) with
    | Some pre_cache_item => text_memories (records pre_cache_item)
    | None => []
    end in
  st' = st
  ∨ (n_extract st' = S (n_extract st)
     ∧ match extract (compose (text_list new_memories)) with
       | Some cache_item =>
           let fresh := stamp_records (text_list new_memories) now cache_item in
           n_add st' = S (n_add st)
           ∧ if act_mem_add [fresh]
             then cache st' = [fresh]
                  ∧ n_dump st' = S (n_dump st)
                  ∧ if act_mem_dump [fresh]
                    then n_logged st' = S (n_logged st)
                         ∧ n_caught st'
                           = (if log_activation_memory_update_func original
                                   (text_list new_memories)
                              then n_caught st else S (n_caught st))
                    else n_logged st' = n_logged st
                         ∧ n_caught st' = S (n_caught st)
             else cache st' = [] ∧ n_dump st' = n_dump st
                  ∧ n_logged st' = n_logged st ∧ n_caught st' = S (n_caught st)
       | None =>
           cache st' = [] ∧ n_add st' = n_add st ∧ n_dump st' = n_dump st
           ∧ n_logged st' = n_logged st ∧ n_caught st' = S (n_caught st)
       end).
Proof.
  intros st' original. unfold st', original, update_activation_memory.
  destruct (text_list new_memories) as [|text rest] eqn:Htexts; [by left|].
  rewrite <- Htexts. clear Htexts text rest.
  destruct act_mem_kind; [| |by left].
  all: destruct (last (cache st)) as [pre_cache_item|] eqn:Hlast.
  all: try (case_bool_decide; [by left|]).
  all: right; apply extract_and_add_outcome; try done.
  all: by apply last_None.
Qed.

(** X11: a refresh whose extraction fails loses the cache: when the cache
    holds an item for another prompt and the extractor raises on the new
    prompt, the old cache has already been deleted; the call ends with an
    empty cache, and nothing is added, dumped or logged: the exception is
    caught and the call returns. *)
Theorem update_activation_memory_failed_extract new_memories now st pre_cache_item :
  text_list new_memories ≠ [] →
  act_mem_kind ≠ UnsupportedActMem →
  last (cache st) = Some pre_cache_item →
  composed_text_memory (records pre_cache_item) ≠ compose (text_list new_memories) →
  extract (compose (text_list new_memories)) = None →
  let st' := update_activation_memory new_memories now st in
  cache st' = []
  ∧ n_delete_all st' = S (n_delete_all st)
  ∧ n_extract st' = S (n_extract st)
  ∧ n_add st' = n_add st
  ∧ n_dump st' = n_dump st
  ∧ n_logged st' = n_logged st
  ∧ n_caught st' = S (n_caught st).
Proof.
  intros Htexts Hkind Hlast Hdiffers Hextract st'.
  unfold st', update_activation_memory.
  destruct (text_list new_memories) as [|text rest] eqn:Hlist; [done|].
  rewrite <- Hlist in *. clear Hlist text rest.
  rewrite Hlast, bool_decide_eq_false_2 by done.
  unfold extract_and_add. rewrite Hextract.
  by destruct act_mem_kind.
Qed.

End Facts.

Lemma update_activation_memory_failed_extract_witness :
  text_list MockActivation.s5_memories ≠ []
  ∧ @act_mem_kind MockActivation.failing ≠ UnsupportedActMem
  ∧ last (cache MockActivation.stale_state)
    = Some (mkCacheItem "kv" (mkRecords ["old"] "old prompt" 1))
  ∧ @extract MockActivation.failing
      (@compose MockActivation.failing (text_list MockActivation.s5_memories)) = None
  ∧ (let st' :=
       @update_activation_memory MockActivation.failing
         MockActivation.s5_memories 100 MockActivation.stale_state in
     cache st' = []
     ∧ n_delete_all st' = 1%nat
     ∧ n_extract st' = 1%nat
     ∧ n_add st' = 0%nat
     ∧ n_dump st' = 0%nat
     ∧ n_logged st' = 0%nat
     ∧ n_caught st' = 1%nat).
Proof.
  split; [discriminate|]. split; [discriminate|]. split; [reflexivity|].
  split; [reflexivity|].
  apply (@update_activation_memory_failed_extract MockActivation.failing
           MockActivation.s5_memories 100 MockActivation.stale_state
           (mkCacheItem "kv" (mkRecords ["old"] "old prompt" 1))).
  - discriminate.
  - discriminate.
  - reflexivity.
  - discriminate.
  - reflexivity.
Defined.

End ActivationMemoryManagerFacts.

(** ** Facts about the web-log plane *)

Module WebLogOpsFacts.
Import WebLogOps.

Section Facts.
Context `{WebLogEnv}.

(** When no broker is configured, [_submit_web_logs], called any number of
    times, publishes nothing and leaves the in-memory web-log queue as it was,
    and a following [get_web_log_messages] returns, in normalized form, exactly
    the events the queue already held and empties it. *)
Lemma submit_web_logs_without_broker
    (queue pub : list WebLog.ScheduleLogForWebItem)
    (batches : list (list WebLog.ScheduleLogForWebItem)) :
  let st := mkWebLogState None queue pub in
  let st' := foldl _submit_web_logs st batches in
  st' = st
  ∧ get_web_log_messages st' = (_normalize_item <$> queue, mkWebLogState None [] pub)
  ∧ (get_web_log_messages (get_web_log_messages st').2).1 = [].
Proof.
  intros st st'.
  assert (st' = st) as ->.
  { unfold st'. induction batches as [|messages batches IH]; [done|]. apply IH. }
  done.
Qed.

(** With a broker, the messages go to the broker and still not to the
    queue. *)
Lemma submit_web_logs_with_broker config
    (queue pub messages : list WebLog.ScheduleLogForWebItem) :
  _web_log_message_queue
    (_submit_web_logs (mkWebLogState (Some config) queue pub) messages) = queue
  ∧ (∀ message, message ∈ messages → rabbitmq_publish_message message = true →
       message ∈ published
         (_submit_web_logs (mkWebLogState (Some config) queue pub) messages)).
Proof.
  split; [done|]. intros message Hin Hok. simpl.
  apply elem_of_app. right. by apply list_elem_of_filter.
Qed.

Lemma get_web_log_messages_drains st :
  _web_log_message_queue (get_web_log_messages st).2 = []
  ∧ length (get_web_log_messages st).1 = length (_web_log_message_queue st).
Proof. split; [done|]. simpl. by rewrite length_fmap. Qed.

End Facts.

(** C6, the code at the failing input: an event submitted while no broker
    is configured is not put on the queue, which nothing in the module ever
    fills, and the following [get_web_log_messages] returns nothing. *)
Lemma submit_web_logs_drops_event :
  _web_log_message_queue
    (@_submit_web_logs MockWebLog.env (mkWebLogState None [] [])
       [MockWebLog.event "e1" "query"]) = []
  ∧ (@get_web_log_messages MockWebLog.env
       (@_submit_web_logs MockWebLog.env (mkWebLogState None [] [])
          [MockWebLog.event "e1" "query"])).1 = [].
Proof. split; reflexivity. Qed.

Example normalize_query_event :
  @_normalize_item MockWebLog.env (MockWebLog.event "e1" "query")
  = WebLog.mkNormalized "e1" "task" "user" "c1" "addMessage" "said hello"
      [] [] (Some "cube c1") 1 "".
Proof. by vm_compute. Qed.

Lemma assoc_app key (fields more : list (string * json)) :
  PyJson.assoc key (fields ++ more)
  = match PyJson.assoc key fields with
    | Some v => Some v
    | None => PyJson.assoc key more
    end.
Proof.
  induction fields as [|[k v] fields IH]; [done|]. simpl.
  by case_bool_decide.
Qed.

Section Facts.
Context `{WebLogEnv}.

(** X12: [_with_memory_time] makes sure a metadata entry has a
    [memory_time]: an entry that has one is returned as it is; otherwise the
    key is added with the value of [updated_at], or of [update_at] when
    [updated_at] is missing or falsy, or [None] when neither is there; no
    other key is touched, and enriching twice is enriching once. *)
Theorem with_memory_time_adds_key (meta : list (string * json)) :
  is_Some (PyJson.assoc "memory_time" (_with_memory_time meta))
  ∧ (is_Some (PyJson.assoc "memory_time" meta) → _with_memory_time meta = meta)
  ∧ (PyJson.assoc "memory_time" meta = None →
     PyJson.assoc "memory_time" (_with_memory_time meta)
     = Some match PyJson.assoc "updated_at" meta with
            | Some v => if truthy v then v
                        else default JNull (PyJson.assoc "update_at" meta)
            | None => default JNull (PyJson.assoc "update_at" meta)
            end)
  ∧ (∀ key, key ≠ "memory_time" →
       PyJson.assoc key (_with_memory_time meta) = PyJson.assoc key meta)
  ∧ _with_memory_time (_with_memory_time meta) = _with_memory_time meta.
Proof.
  unfold _with_memory_time.
  destruct (PyJson.assoc "memory_time" meta) as [v|] eqn:Hmt.
  - rewrite Hmt. split; [by eexists|]. by repeat split.
  - rewrite assoc_app, Hmt. cbn [PyJson.assoc].
    rewrite bool_decide_eq_true_2 by done.
    split; [by eexists|]. split; [by intros [? ?]|]. split; [done|]. split; [|done].
    intros key Hkey. rewrite assoc_app. cbn [PyJson.assoc].
    rewrite bool_decide_eq_false_2 by done. by destruct (PyJson.assoc key meta).
Qed.

(** X13: what [get_web_log_messages] makes of a queued item: the identifying
    fields and the log text are kept, the title is empty, a mem-cube name is
    always given (the item's own when it has a non-empty one, else the name
    [_map_memcube_name] gives for its mem-cube), and
    [memory_len] is the item's own when it has one; otherwise it is a count
    that is never negative and never more than the number of content entries,
    or 1 when there are none. *)
Theorem normalize_item_fields (item : WebLog.ScheduleLogForWebItem) :
  let data := _normalize_item item in
  let content := default [] (WebLog.memcube_log_content item) in
  WebLog.n_item_id data = WebLog.item_id item
  ∧ WebLog.n_task_id data = WebLog.task_id item
  ∧ WebLog.n_user_id data = WebLog.user_id item
  ∧ WebLog.n_mem_cube_id data = WebLog.mem_cube_id item
  ∧ WebLog.n_log_content data = WebLog.log_content item
  ∧ WebLog.n_log_title data = ""
  ∧ is_Some (WebLog.n_memcube_name data)
  ∧ (∀ name, WebLog.memcube_name item = Some name → name ≠ "" →
       WebLog.n_memcube_name data = Some name)
  ∧ (WebLog.memcube_name item = None ∨ WebLog.memcube_name item = Some "" →
     WebLog.n_memcube_name data = Some (_map_memcube_name (WebLog.mem_cube_id item)))
  ∧ (∀ len, WebLog.memory_len item = Some len → WebLog.n_memory_len data = len)
  ∧ (WebLog.memory_len item = None →
     0 ≤ WebLog.n_memory_len data ≤ Z.max 1 (Z.of_nat (length content)))
  ∧ (WebLog.memory_len item = None → WebLog.n_label data ≠ "mergeMemory" →
     content ≠ [] → WebLog.n_memory_len data = Z.of_nat (length content)).
Proof.
  intros data content. unfold data, _normalize_item. cbn.
  fold content.
  do 6 (split; [done|]). split; [|split; [|split; [|split; [|split]]]].
  - destruct (WebLog.memcube_name item) as [name|]; [case_bool_decide|]; by eexists.
  - intros name -> Hname. by rewrite bool_decide_eq_false_2.
  - by intros [->| ->].
  - by intros len ->.
  - intros ->. case_bool_decide.
    + pose proof (length_filter (λ c, not_post_merge c = true) content). lia.
    + destruct content; [case_bool_decide; simpl; lia|simpl length; lia].
  - intros -> Hlabel Hcontent. rewrite bool_decide_eq_false_2 by done.
    by destruct content.
Qed.

End Facts.

End WebLogOpsFacts.

(** ** Facts about the batch splitter *)

Module SplitBatchesFacts.
Import SplitBatches.

(** With a positive size the slices do not depend on the fuel, as long as
    there is enough of it. *)
Lemma slices_go_fuel {A} (fuel fuel' size : nat) (l : list A) :
  (0 < size)%nat → (length l ≤ fuel)%nat → (length l ≤ fuel')%nat →
  slices_go fuel size l = slices_go fuel' size l.
Proof.
  intros Hsize. revert fuel' l.
  induction fuel as [|fuel IH]; intros fuel' l Hfuel Hfuel'.
  - destruct l; [|simpl in Hfuel; lia]. by destruct fuel'.
  - destruct l as [|x l]; [by destruct fuel'|].
    destruct fuel' as [|fuel']; [simpl in Hfuel'; lia|].
    cbn [slices_go]. f_equal.
    apply IH; rewrite length_drop; simpl in *; lia.
Qed.

(** The slices, put together again, are the list; none is empty or longer
    than the size, and all but the last are full. *)
Lemma slices_go_spec {A} (fuel size : nat) (l : list A) :
  (0 < size)%nat → (length l ≤ fuel)%nat →
  let batches := slices_go fuel size l in
  concat batches = l
  ∧ Forall (λ batch, (0 < length batch ≤ size)%nat) batches
  ∧ (∀ i batch, batches !! i = Some batch → (S i < length batches)%nat →
       length batch = size).
Proof.
  intros Hsize. revert l. induction fuel as [|fuel IH]; intros l Hfuel.
  - destruct l; [|simpl in Hfuel; lia]. simpl. repeat split; [constructor|].
    intros i ?. by rewrite lookup_nil.
  - destruct l as [|x l].
    { simpl. repeat split; [constructor|]. intros i ?. by rewrite lookup_nil. }
    cbn [slices_go].
    destruct (IH (drop size (x :: l))) as (Hconcat & Hall & Hfull).
    { rewrite length_drop. simpl in *. lia. }
    cbn zeta. split; [|split].
    + cbn [concat]. rewrite Hconcat. apply take_drop.
    + constructor; [|done]. rewrite length_take. simpl. lia.
    + intros [|i] batch; cbn [lookup list_lookup length].
      * intros [= <-] Hmore. rewrite length_take.
        destruct (slices_go fuel size (drop size (x :: l)))
          as [|next rest] eqn:Hnext; [simpl in Hmore; lia|].
        destruct fuel; [done|].
        destruct (drop size (x :: l)) eqn:Hdrop; [done|].
        apply (f_equal length) in Hdrop. rewrite length_drop in Hdrop.
        simpl in *. lia.
      * intros Hi Hmore. apply (Hfull i); [done|lia].
Qed.

Lemma slice_inside {A} (start stop : Z) (l : list A) :
  0 ≤ start ≤ stop → stop ≤ Z.of_nat (length l) →
  slice start stop l = take (Z.to_nat (stop - start)) (drop (Z.to_nat start) l).
Proof.
  intros Hstart Hstop. unfold slice, clamp.
  rewrite !(proj2 (Z.ltb_ge _ _)) by lia.
  by rewrite !Z.min_l by lia.
Qed.

(** A slice is a part of the list, in its order. *)
Lemma slice_sublist {A} (start stop : Z) (l : list A) : slice start stop l `sublist_of` l.
Proof. unfold slice. etrans; [apply sublist_take|apply sublist_drop]. Qed.

(** Whatever the batch size, a batch the loop makes is a slice of the list. *)
Lemma split_loop_elem_of {A} (fuel : nat) (memories : list A) (batch_size start : Z)
    batches batch :
  split_loop fuel memories batch_size start = Some batches →
  batch ∈ batches.*2 → batch `sublist_of` memories.
Proof.
  revert start batches. induction fuel as [|fuel IH]; intros start batches; [done|].
  cbn [split_loop]. destruct (_ <? _); [|intros [= <-]; by rewrite elem_of_nil].
  destruct (split_loop fuel memories batch_size _) as [rest|] eqn:Hrest; [|done].
  intros [= <-]. cbn [fmap list_fmap snd]. intros [->|Hin]%elem_of_cons.
  - apply slice_sublist.
  - by eapply IH.
Qed.

(** From [start] on, the loop cuts what is left of the list into its
    consecutive slices. *)
Lemma split_loop_spec {A} (fuel : nat) (memories : list A) (batch_size start : Z) :
  0 < batch_size →
  0 ≤ start ≤ Z.of_nat (length memories) →
  (length memories - Z.to_nat start < fuel)%nat →
  ∃ batches,
    split_loop fuel memories batch_size start = Some batches
    ∧ batches.*2
      = slices_go (length (drop (Z.to_nat start) memories)) (Z.to_nat batch_size)
          (drop (Z.to_nat start) memories)
    ∧ (∀ i first stop batch, batches !! i = Some (first, stop, batch) →
         first = start + Z.of_nat i * batch_size
         ∧ stop = Z.min (first + batch_size) (Z.of_nat (length memories))
         ∧ batch = slice first stop memories).
Proof.
  intros Hsize. revert start.
  induction fuel as [|fuel IH]; intros start Hstart Hfuel; [lia|].
  cbn [split_loop].
  destruct (Z.ltb_spec start (Z.of_nat (length memories))) as [Hlt|Hge].
  - destruct (drop (Z.to_nat start) memories) as [|m rest] eqn:Hdrop.
    { apply (f_equal length) in Hdrop. rewrite length_drop in Hdrop.
      simpl in Hdrop. lia. }
    assert (length rest = length memories - Z.to_nat start - 1)%nat as Hrest.
    { apply (f_equal length) in Hdrop. rewrite length_drop in Hdrop.
      simpl in Hdrop. lia. }
    cbn [length slices_go]. rewrite <- Hdrop.
    destruct (Z.min_spec (start + batch_size) (Z.of_nat (length memories)))
      as [[Hmore ->]|[Hlast ->]].
    + destruct (IH (start + batch_size)) as (batches & -> & Hbatches & Hspans);
        [lia|lia|].
      eexists. split; [done|]. split.
      * cbn [fmap list_fmap snd]. f_equal.
        -- rewrite slice_inside by lia. f_equal. lia.
        -- change (list_fmap _ _ snd batches) with (batches.*2). rewrite Hbatches.
           rewrite drop_drop.
           replace (Z.to_nat (start + batch_size))
             with (Z.to_nat start + Z.to_nat batch_size)%nat by lia.
           apply slices_go_fuel; [lia|done|rewrite length_drop; lia].
      * intros [|i] first stop batch; cbn [lookup list_lookup].
        -- intros [= <- <- <-]. split; [lia|]. split; [lia|done].
        -- intros Hi. destruct (Hspans _ _ _ _ Hi) as (-> & -> & ->).
           split; [lia|done].
    + assert (split_loop fuel memories batch_size (Z.of_nat (length memories))
              = Some []) as ->.
      { destruct fuel; [lia|]. cbn [split_loop]. by rewrite Z.ltb_irrefl. }
      eexists. split; [done|]. split.
      * cbn [fmap list_fmap snd]. f_equal.
        -- rewrite slice_inside by lia.
           rewrite !take_ge; [done|rewrite length_drop; lia..].
        -- rewrite (drop_ge (drop _ _)) by (rewrite length_drop; lia).
           by destruct (length rest).
      * intros [|i] first stop batch; cbn [lookup list_lookup]; [|done].
        intros [= <- <- <-]. split; [lia|]. split; [lia|done].
  - exists []. split; [done|]. split.
    + rewrite drop_ge by lia. done.
    + intros i ? ? ?. by rewrite lookup_nil.
Qed.

(** With a positive batch size and the fuel the pipeline gives it, the loop
    ends with the consecutive slices of the list. *)
Lemma split_batches_slices {A} (memories : list A) (batch_size : Z) :
  0 < batch_size →
  ∃ batches,
    _split_batches (S (length memories)) memories batch_size = Some batches
    ∧ batches.*2 = slices memories batch_size
    ∧ concat (batches.*2) = memories.
Proof.
  intros Hsize. unfold _split_batches.
  destruct (split_loop_spec (S (length memories)) memories batch_size 0)
    as (batches & Hloop & Hbatches & _); [done|lia|lia|].
  change (Z.to_nat 0) with 0%nat in Hbatches. rewrite drop_0 in Hbatches.
  exists batches. split; [done|]. split; [done|]. rewrite Hbatches.
  apply (slices_go_spec (length memories) (Z.to_nat batch_size) memories); lia.
Qed.

(** With a batch size of zero or less the loop never gets past the first
    element of a non-empty list. *)
Lemma split_loop_stuck {A} (fuel : nat) (memories : list A) (batch_size start : Z) :
  batch_size ≤ 0 → memories ≠ [] → start ≤ 0 →
  split_loop fuel memories batch_size start = None.
Proof.
  intros Hsize Hne.
  assert (0 < Z.of_nat (length memories)) as Hlen by (destruct memories; [done|simpl; lia]).
  revert start. induction fuel as [|fuel IH]; intros start Hstart; [done|].
  cbn [split_loop]. rewrite (proj2 (Z.ltb_lt _ _)) by lia.
  by rewrite IH by lia.
Qed.

Section Splitting.
Context {A : Type}.

(** X20: for a positive batch size the loop of [_split_batches] ends, and its
    batches are consecutive slices of the list: the i-th one starts at
    [i * batch_size] and stops [batch_size] further on or at the end of the
    list; put together again they are the list; none of them is empty or
    longer than the batch size, and all but the last are full. *)
Theorem split_batches_positive (memories : list A) (batch_size : Z) :
  0 < batch_size →
  ∃ batches,
    _split_batches (S (length memories)) memories batch_size = Some batches
    ∧ concat (batches.*2) = memories
    ∧ Forall (λ batch, 0 < Z.of_nat (length batch) ≤ batch_size) (batches.*2)
    ∧ (∀ i first stop batch, batches !! i = Some (first, stop, batch) →
         first = Z.of_nat i * batch_size
         ∧ stop = Z.min (first + batch_size) (Z.of_nat (length memories))
         ∧ batch = slice first stop memories
         ∧ ((S i < length batches)%nat → Z.of_nat (length batch) = batch_size))
    ∧ batches.*2 = slices memories batch_size.
Proof.
  intros Hsize. unfold _split_batches.
  destruct (split_loop_spec (S (length memories)) memories batch_size 0)
    as (batches & Hloop & Hbatches & Hspans); [done|lia|lia|].
  change (Z.to_nat 0) with 0%nat in Hbatches. rewrite drop_0 in Hbatches.
  destruct (slices_go_spec (length memories) (Z.to_nat batch_size) memories)
    as (Hconcat & Hall & Hfull); [lia|done|].
  rewrite <- Hbatches in Hconcat, Hall, Hfull.
  exists batches. split; [done|]. split; [done|]. split; [|split; [|done]].
  - eapply Forall_impl; [done|]. intros batch; simpl. lia.
  - intros i first stop batch Hi.
    destruct (Hspans _ _ _ _ Hi) as (-> & -> & ->).
    split; [lia|]. split; [done|]. split; [done|]. intros Hmore.
    rewrite (Hfull i); [lia| |by rewrite length_fmap].
    by rewrite list_lookup_fmap, Hi.
Qed.

(** X21: with a batch size of zero or less the loop of [_split_batches] never
    ends on a non-empty list: [start] never gets past the first element, so
    no amount of fuel suffices. *)
Theorem split_batches_nonpositive (fuel : nat) (memories : list A) (batch_size : Z) :
  batch_size ≤ 0 → memories ≠ [] →
  _split_batches fuel memories batch_size = None.
Proof.
  intros Hsize Hne. by apply split_loop_stuck.
Qed.

End Splitting.

Lemma split_batches_positive_witness :
  0 < 2
  ∧ ∃ batches,
      _split_batches 6 [Mock.A; Mock.B; Mock.C; Mock.D; Mock.E] 2 = Some batches
      ∧ concat (batches.*2) = [Mock.A; Mock.B; Mock.C; Mock.D; Mock.E]
      ∧ Forall (λ batch, 0 < Z.of_nat (length batch) ≤ 2) (batches.*2)
      ∧ (∀ i first stop batch, batches !! i = Some (first, stop, batch) →
           first = Z.of_nat i * 2
           ∧ stop = Z.min (first + 2) 5
           ∧ batch = slice first stop [Mock.A; Mock.B; Mock.C; Mock.D; Mock.E]
           ∧ ((S i < length batches)%nat → Z.of_nat (length batch) = 2))
      ∧ batches.*2 = slices [Mock.A; Mock.B; Mock.C; Mock.D; Mock.E] 2.
Proof.
  split; [lia|].
  apply (split_batches_positive [Mock.A; Mock.B; Mock.C; Mock.D; Mock.E] 2). lia.
Defined.

Lemma split_batches_nonpositive_witness :
  0 ≤ 0 ∧ [Mock.A; Mock.B] ≠ []
  ∧ _split_batches 1000 [Mock.A; Mock.B] 0 = None.
Proof.
  split; [lia|]. split; [discriminate|].
  apply (split_batches_nonpositive 1000 [Mock.A; Mock.B] 0); [lia|discriminate].
Defined.

End SplitBatchesFacts.

(** ** Facts about the enhancement pipeline *)

Module EnhancementPipelineFacts.
Import EnhancementPipeline SplitBatchesFacts.

Section Facts.
Context `{Enhancer}.

Lemma attempt_loop_all_fail fuel batch_index memories retries attempt :
  (∀ a, try_enhance batch_index a memories = None) →
  (attempt ≤ passes retries)%nat →
  (passes retries - attempt < fuel)%nat →
  attempt_loop fuel batch_index memories retries attempt
  = Some (mkBatchOutcome memories false (passes retries)).
Proof.
  intros Hfail. revert attempt.
  induction fuel as [|fuel IH]; intros attempt Hle Hfuel; [lia|]. simpl.
  unfold passes in *.
  destruct (Z.leb_spec (Z.of_nat attempt) (Z.max 0 retries + 1)).
  - rewrite Hfail. apply IH; lia.
  - do 2 f_equal. lia.
Qed.

(** The loop ends within the fuel, after at most [passes retries] calls,
    and a failed batch is the input, unchanged. *)
Lemma attempt_loop_total fuel batch_index memories retries attempt :
  (attempt ≤ passes retries)%nat →
  (passes retries - attempt < fuel)%nat →
  ∃ outcome,
    attempt_loop fuel batch_index memories retries attempt = Some outcome
    ∧ (llm_calls outcome ≤ passes retries)%nat
    ∧ (ok outcome = false → enhanced outcome = memories
                            ∧ llm_calls outcome = passes retries).
Proof.
  revert attempt.
  induction fuel as [|fuel IH]; intros attempt Hle Hfuel; [lia|]. simpl.
  unfold passes in *.
  destruct (Z.leb_spec (Z.of_nat attempt) (Z.max 0 retries + 1)).
  - destruct (try_enhance batch_index attempt memories) as [enhanced_memories|].
    + eexists. split; [done|]. simpl. split; [lia|done].
    + apply IH; lia.
  - eexists. split; [done|]. simpl. split; [lia|]. intros _. split; [done|lia].
Qed.

Lemma process_enhancement_batch_total batch_index query query_history memories retries :
  ∃ outcome,
    _process_enhancement_batch batch_index (query :: query_history) memories retries
    = Ok outcome
    ∧ (llm_calls outcome ≤ passes retries)%nat
    ∧ (ok outcome = false → enhanced outcome = memories
                            ∧ llm_calls outcome = passes retries).
Proof.
  unfold _process_enhancement_batch.
  destruct (attempt_loop_total (enough_fuel retries) batch_index memories retries 0)
    as (outcome & -> & Hcalls & Hfailed).
  - lia.
  - unfold passes, enough_fuel. lia.
  - by exists outcome.
Qed.

(** When every pass fails, the batch makes [max(0, retries) + 2] calls. *)
Lemma process_enhancement_batch_all_fail
    batch_index query query_history memories retries :
  (∀ a, try_enhance batch_index a memories = None) →
  _process_enhancement_batch batch_index (query :: query_history) memories retries
  = Ok (mkBatchOutcome memories false (Z.to_nat (Z.max 0 retries + 2))).
Proof.
  intros Hfail. unfold _process_enhancement_batch.
  rewrite (attempt_loop_all_fail _ _ _ _ _ Hfail); [done|lia|].
  unfold passes, enough_fuel. lia.
Qed.

Lemma forallb_Permutation {A} (f : A → bool) (l k : list A) :
  l ≡ₚ k → forallb f l = forallb f k.
Proof.
  induction 1 as [|x l k _ IH|x y l|l k m _ IH1 _ IH2]; simpl.
  - done.
  - by rewrite IH.
  - by destruct (f x), (f y).
  - by rewrite IH1.
Qed.

(** With several batches the overall flag is the conjunction of the flags
    of the batches, in whatever order they complete. *)
Lemma enhance_flag_is_conjunction query_history memories size batches outcomes :
  batch_size = Some size →
  size < Z.of_nat (length memories) →
  memories ≠ [] →
  (∀ A (l : list A), as_completed l ≡ₚ l) →
  SplitBatches._split_batches (S (length memories)) memories size = Some batches →
  run_batches 0 query_history (batches.*2) retries_config = Ok outcomes →
  snd <$> enhance_memories_with_query query_history memories
  = Some (forallb ok outcomes).
Proof.
  intros Hsize Hmany Hne Hperm Hsplit Hrun. unfold enhance_memories_with_query.
  destruct memories as [|first rest] eqn:Hmem; [done|]. rewrite <- Hmem in *.
  rewrite Hsize. rewrite (proj2 (Z.leb_gt _ _)) by done.
  simpl default. rewrite Hsplit. cbn [mbind option_bind]. rewrite Hrun.
  cbn [fmap option_fmap option_map snd]. f_equal. by apply forallb_Permutation.
Qed.

End Facts.

(** C7, the code at the failing input: with [retries = 1] and an LLM that
    fails on every call, the batch makes three generation attempts, one more
    than [retries + 1], before it returns its input with [ok = false]. *)
Lemma process_enhancement_batch_three_attempts :
  @_process_enhancement_batch MockEnhancer.failing 0 ["what do I like?"]
    [Mock.x; Mock.y] 1
  = Ok (mkBatchOutcome [Mock.x; Mock.y] false 3)
  ∧ (1 + 1 < 3)%nat.
Proof. split; [by vm_compute|lia]. Qed.

Example process_enhancement_batch_rewrite :
  @_process_enhancement_batch MockEnhancer.rewriting 0 ["what do I like?"]
    [Mock.x; Mock.y] 1
  = Ok (mkBatchOutcome
          [ mkItem "y" "yankee, rewritten" (metadata Mock.y);
            mkItem "x" "x-ray, rewritten" (metadata Mock.x) ]
          true 1).
Proof. by vm_compute. Qed.

Section Facts.
Context `{Enhancer}.

Lemma attempt_loop_first_success fuel batch_index memories retries attempt k enhanced_memories :
  (∀ a, (attempt ≤ a < k)%nat → try_enhance batch_index a memories = None) →
  try_enhance batch_index k memories = Some enhanced_memories →
  (attempt ≤ k)%nat →
  Z.of_nat k ≤ Z.max 0 retries + 1 →
  (k - attempt < fuel)%nat →
  attempt_loop fuel batch_index memories retries attempt
  = Some (mkBatchOutcome enhanced_memories true (S k)).
Proof.
  intros Hfail Hok. revert attempt Hfail.
  induction fuel as [|fuel IH]; intros attempt Hfail Hle Hk Hfuel; [lia|].
  cbn [attempt_loop]. rewrite (proj2 (Z.leb_le _ _)) by lia.
  destruct (decide (attempt = k)) as [->|Hne].
  - by rewrite Hok.
  - rewrite Hfail by lia. apply IH; [|lia..]. intros a Ha. apply Hfail. lia.
Qed.

Lemma attempt_loop_fail_within fuel batch_index memories retries attempt :
  (∀ a, Z.of_nat a ≤ Z.max 0 retries + 1 → try_enhance batch_index a memories = None) →
  (attempt ≤ passes retries)%nat →
  (passes retries - attempt < fuel)%nat →
  attempt_loop fuel batch_index memories retries attempt
  = Some (mkBatchOutcome memories false (passes retries)).
Proof.
  intros Hfail. revert attempt.
  induction fuel as [|fuel IH]; intros attempt Hle Hfuel; [lia|].
  cbn [attempt_loop]. unfold passes in *.
  destruct (Z.leb_spec (Z.of_nat attempt) (Z.max 0 retries + 1)).
  - rewrite Hfail by done. apply IH; lia.
  - do 2 f_equal. lia.
Qed.

(** X14: the number of LLM calls of a batch, for every setting of
    [retries], negative ones included: the batch returns at the first pass
    that succeeds, after one call for every pass made, provided that pass is
    among the first [max(0, retries) + 2]; when all of these fail it has made
    [max(0, retries) + 2] calls and returns its input with [ok = false]. *)
Theorem process_enhancement_batch_calls
    batch_index query query_history memories retries :
  (∀ k enhanced_memories,
     (∀ a, (a < k)%nat → try_enhance batch_index a memories = None) →
     try_enhance batch_index k memories = Some enhanced_memories →
     Z.of_nat k ≤ Z.max 0 retries + 1 →
     _process_enhancement_batch batch_index (query :: query_history) memories retries
     = Ok (mkBatchOutcome enhanced_memories true (S k)))
  ∧ ((∀ a, Z.of_nat a ≤ Z.max 0 retries + 1 →
        try_enhance batch_index a memories = None) →
     _process_enhancement_batch batch_index (query :: query_history) memories retries
     = Ok (mkBatchOutcome memories false (Z.to_nat (Z.max 0 retries + 2)))).
Proof.
  unfold _process_enhancement_batch. split.
  - intros k enhanced_memories Hfail Hok Hk.
    rewrite (attempt_loop_first_success _ _ _ _ 0 k enhanced_memories);
      [done| |done|lia|done|unfold enough_fuel; lia].
    intros a Ha. apply Hfail. lia.
  - intros Hfail. rewrite attempt_loop_fail_within; [done|done|lia|].
    unfold passes, enough_fuel. lia.
Qed.

(** What a batch returns satisfies whatever holds of its input and of all
    that a pass can make of it. *)
Lemma attempt_loop_inv (P : list TextualMemoryItem → Prop)
    fuel batch_index memories retries attempt outcome :
  P memories →
  (∀ a enhanced_memories,
     try_enhance batch_index a memories = Some enhanced_memories → P enhanced_memories) →
  attempt_loop fuel batch_index memories retries attempt = Some outcome →
  P (enhanced outcome).
Proof.
  intros Hinput Hpass. revert attempt.
  induction fuel as [|fuel IH]; intros attempt; [done|]. cbn [attempt_loop].
  destruct (_ <=? _); [|by intros [= <-]].
  destruct (try_enhance _ _ _) as [enhanced_memories|] eqn:Htry; [|apply IH].
  intros [= <-]. by eapply Hpass.
Qed.

Lemma process_enhancement_batch_inv (P : list TextualMemoryItem → Prop)
    batch_index query_history memories retries outcome :
  P memories →
  (∀ a enhanced_memories,
     try_enhance batch_index a memories = Some enhanced_memories → P enhanced_memories) →
  _process_enhancement_batch batch_index query_history memories retries = Ok outcome →
  P (enhanced outcome).
Proof.
  intros Hinput Hpass. unfold _process_enhancement_batch.
  destruct query_history; [done|].
  destruct (attempt_loop _ _ _ _ _) as [outcome'|] eqn:Hloop; [|done].
  intros [= <-]. by eapply attempt_loop_inv.
Qed.

(** The [REWRITE] loop gives every item it makes the identifier and the
    metadata of one of the memories. *)
Lemma rewrite_items_known memories processed_text_memories :
  Forall (λ one, ∃ mem, mem ∈ memories ∧ id one = id mem ∧ metadata one = metadata mem)
         (rewrite_items memories processed_text_memories).
Proof.
  apply Forall_forall. intros one. unfold rewrite_items.
  rewrite list_elem_of_omap. intros (orig & Hin & ->).
  apply list_elem_of_lookup in Hin as [j Hj]. rewrite list_lookup_imap in Hj.
  destruct (processed_text_memories !! j) as [item|]; [|done].
  simpl in Hj. destruct (_parse_index_and_text item) as [idx new_text].
  assert (∀ found : TextualMemoryItem, found ∈ memories →
            ∃ mem, mem ∈ memories
                   ∧ id (mkItem (id found) new_text (metadata found)) = id mem
                   ∧ metadata (mkItem (id found) new_text (metadata found))
                     = metadata mem) as Hknown
    by (intros found Hfound; by exists found).
  destruct idx as [i|]; [destruct (memories !! i) as [found|] eqn:Hi|].
  - simplify_eq/=. apply Hknown. by eapply list_elem_of_lookup_2.
  - destruct (memories !! j) eqn:Hmj; simplify_eq/=.
    apply Hknown. by eapply list_elem_of_lookup_2.
  - destruct (memories !! j) eqn:Hmj; simplify_eq/=.
    apply Hknown. by eapply list_elem_of_lookup_2.
Qed.

Lemma run_batches_inv (P : list TextualMemoryItem → list TextualMemoryItem → Prop)
    batch_index query_history batches retries outcomes :
  (∀ bi batch outcome, batch ∈ batches →
     _process_enhancement_batch bi query_history batch retries = Ok outcome →
     P batch (enhanced outcome)) →
  run_batches batch_index query_history batches retries = Ok outcomes →
  Forall2 P batches (enhanced <$> outcomes).
Proof.
  revert batch_index outcomes.
  induction batches as [|batch batches IH]; intros bi outcomes Hbatch.
  - intros [= <-]. constructor.
  - cbn [run_batches].
    destruct (_process_enhancement_batch _ _ _ _) as [outcome|] eqn:Hone; [|done].
    cbn [bind_result].
    destruct (run_batches _ _ _ _) as [outcomes'|] eqn:Hrest; [|done].
    intros [= <-]. constructor.
    + eapply Hbatch; [left|done].
    + eapply IH; [|done]. intros ? ? ? ?. apply Hbatch. by right.
Qed.

Lemma try_enhance_rewrite batch_index attempt memories enhanced_memories :
  FINE_STRATEGY = REWRITE →
  try_enhance batch_index attempt memories = Some enhanced_memories →
  ∃ processed_text_memories,
    enhanced_memories = rewrite_items memories processed_text_memories.
Proof.
  intros Hstrategy. unfold try_enhance. rewrite Hstrategy.
  destruct (llm_items batch_index attempt) as [texts|]; [|done]. simpl.
  destruct texts, memories; try done; intros [= <-]; by eexists.
Qed.

Lemma process_enhancement_batch_known batch_index query_history memories retries outcome :
  FINE_STRATEGY = REWRITE →
  _process_enhancement_batch batch_index query_history memories retries = Ok outcome →
  Forall (λ one, ∃ mem, mem ∈ memories ∧ id one = id mem ∧ metadata one = metadata mem)
         (enhanced outcome).
Proof.
  intros Hstrategy.
  apply (process_enhancement_batch_inv
           (Forall (λ one, ∃ mem, mem ∈ memories
                                  ∧ id one = id mem ∧ metadata one = metadata mem))).
  - apply Forall_forall. intros mem Hmem. by exists mem.
  - intros a e Htry.
    destruct (try_enhance_rewrite _ _ _ _ Hstrategy Htry) as [texts ->].
    apply rewrite_items_known.
Qed.

(** X15: under the [REWRITE] strategy [enhance_memories_with_query] invents
    no item: whether the batches succeed or fail, and however many there are,
    every item it returns carries the identifier and the metadata of one of
    the memories it was given (only the text may be new); and it does return
    when the batch size is unset or positive. *)
Theorem enhance_rewrite_keeps_identity query_history memories :
  FINE_STRATEGY = REWRITE →
  (∀ (l : list BatchOutcome) outcome, outcome ∈ as_completed l → outcome ∈ l) →
  ((∀ size, batch_size = Some size → 0 < size) →
   is_Some (enhance_memories_with_query query_history memories))
  ∧ ∀ enhanced_memories flag one,
      enhance_memories_with_query query_history memories
      = Some (enhanced_memories, flag) →
      one ∈ enhanced_memories →
      ∃ mem, mem ∈ memories ∧ id one = id mem ∧ metadata one = metadata mem.
Proof.
  intros Hstrategy Hcompleted. unfold enhance_memories_with_query. split.
  { intros Hsize. destruct memories as [|first rest] eqn:Hmem; [by eexists|].
    rewrite <- Hmem. clear Hmem first rest.
    destruct batch_size as [size|]; [|by eexists].
    destruct (_ <=? _); [by eexists|]. simpl default.
    destruct (split_batches_slices memories size) as (batches & -> & _);
      [by apply Hsize|by eexists]. }
  intros enhanced_memories flag one.
  destruct memories as [|first rest] eqn:Hmem;
    [intros [= <- _]; by rewrite elem_of_nil|].
  rewrite <- Hmem. clear Hmem first rest.
  assert (∀ mem, mem ∈ memories →
            ∃ mem', mem' ∈ memories ∧ id mem = id mem' ∧ metadata mem = metadata mem')
    as Hself by (intros mem ?; by exists mem).
  destruct (match batch_size with
            | Some size => Z.of_nat (length memories) <=? size
            | None => true
            end).
  - destruct (_process_enhancement_batch _ _ _ _) as [outcome|] eqn:Hbatch;
      [|intros [= <- _]; apply Hself].
    intros [= <- _]. revert one. apply Forall_forall.
    by eapply process_enhancement_batch_known.
  - destruct (SplitBatches._split_batches _ _ _) as [batches|] eqn:Hsplit; [|done].
    cbn [mbind option_bind].
    destruct (run_batches _ _ _ _) as [outcomes|] eqn:Hrun;
      [|intros [= <- _]; apply Hself].
    intros [= <- _].
    intros (outcome & Hone & Hout%Hcompleted)%list_elem_of_bind.
    eapply (run_batches_inv
              (λ batch enhanced_memories,
                 Forall (λ one, ∃ mem, mem ∈ batch
                                       ∧ id one = id mem ∧ metadata one = metadata mem)
                        enhanced_memories)) in Hrun.
    2:{ intros bi batch outcome' _ Hbatch.
        by eapply process_enhancement_batch_known. }
    apply list_elem_of_lookup in Hout as [i Hi].
    assert ((enhanced <$> outcomes) !! i = Some (enhanced outcome)) as Hi'
      by (by rewrite list_lookup_fmap, Hi).
    destruct (Forall2_lookup_r _ _ _ _ _ Hrun Hi') as (batch & Hbatch & Hknown).
    rewrite Forall_forall in Hknown.
    destruct (Hknown one Hone) as (mem & Hin & Hid & Hmeta).
    exists mem. split; [|done].
    eapply elem_of_sublist; [done|].
    eapply split_loop_elem_of; [done|]. by eapply list_elem_of_lookup_2.
Qed.

Lemma run_batches_all_fail batch_index query query_history batches retries :
  (∀ bi a, llm_items bi a = None) →
  ∃ outcomes,
    run_batches batch_index (query :: query_history) batches retries = Ok outcomes
    ∧ enhanced <$> outcomes = batches
    ∧ ok <$> outcomes = (λ _, false) <$> batches.
Proof.
  intros Hfail. revert batch_index.
  induction batches as [|batch batches IH]; intros bi; [by exists []|].
  cbn [run_batches].
  rewrite process_enhancement_batch_all_fail
    by (intros a; unfold try_enhance; by rewrite Hfail).
  cbn [bind_result]. destruct (IH (S bi)) as (outcomes & -> & Henh & Hok).
  eexists. split; [done|]. cbn [bind_result fmap list_fmap enhanced ok].
  split; f_equal; done.
Qed.

(** X16: when the LLM fails on every call, [enhance_memories_with_query]
    loses nothing: with a batch size that is unset or positive it returns the
    memories it was given, each exactly once (in the order in which the
    batches complete), with the flag [false]. *)
Theorem enhance_all_fail_keeps_memories query_history memories :
  memories ≠ [] →
  (∀ bi a, llm_items bi a = None) →
  (∀ size, batch_size = Some size → 0 < size) →
  (∀ l : list BatchOutcome, as_completed l ≡ₚ l) →
  ∃ enhanced_memories,
    enhance_memories_with_query query_history memories
    = Some (enhanced_memories, false)
    ∧ enhanced_memories ≡ₚ memories.
Proof.
  intros Hne Hfail Hsize Hcompleted. unfold enhance_memories_with_query.
  destruct memories as [|first rest] eqn:Hmem; [done|].
  rewrite <- Hmem. assert (memories ≠ []) as Hne' by (by rewrite Hmem).
  clear Hmem Hne first rest.
  destruct (match batch_size with
            | Some size => Z.of_nat (length memories) <=? size
            | None => true
            end) eqn:Hsingle.
  - destruct query_history as [|query query_history]; [by eexists|].
    rewrite process_enhancement_batch_all_fail
      by (intros a; unfold try_enhance; by rewrite Hfail).
    by eexists.
  - destruct batch_size as [size|] eqn:Hbs; [|done]. simpl default.
    destruct (split_batches_slices memories size) as (batches & -> & _ & Hconcat);
      [by apply Hsize|].
    cbn [mbind option_bind].
    destruct query_history as [|query query_history].
    { destruct (batches.*2) as [|batch rest]; [by destruct Hne'|by eexists]. }
    destruct (run_batches_all_fail 0 query query_history
                (batches.*2) retries_config Hfail)
      as (outcomes & -> & Henh & Hok).
    assert (forallb ok (as_completed outcomes) = false) as ->.
    { rewrite (forallb_Permutation _ _ outcomes) by done.
      destruct (batches.*2) as [|batch rest]; [by destruct Hne'|].
      destruct outcomes as [|o outcomes]; [done|].
      cbn [fmap list_fmap] in Hok. injection Hok as Ho _.
      simpl. by rewrite Ho. }
    eexists. split; [done|].
    rewrite Hcompleted.
    assert (∀ l : list BatchOutcome, l ≫= enhanced = concat (enhanced <$> l)) as ->.
    { induction l as [|o l IH]; [done|]. csimpl. by rewrite IH. }
    by rewrite Henh, Hconcat.
Qed.

End Facts.

Lemma enhance_all_fail_keeps_memories_witness :
  [Mock.A; Mock.B; Mock.C] ≠ []
  ∧ (∀ size, @batch_size MockEnhancer.failing = Some size → 0 < size)
  ∧ ∃ enhanced_memories,
      @enhance_memories_with_query MockEnhancer.failing ["what do I like?"]
        [Mock.A; Mock.B; Mock.C]
      = Some (enhanced_memories, false)
      ∧ enhanced_memories ≡ₚ [Mock.A; Mock.B; Mock.C].
Proof.
  split; [discriminate|]. split; [intros size [= <-]; lia|].
  apply (@enhance_all_fail_keeps_memories MockEnhancer.failing).
  - discriminate.
  - reflexivity.
  - intros size [= <-]. lia.
  - reflexivity.
Defined.

Lemma enhance_rewrite_keeps_identity_witness :
  @FINE_STRATEGY MockEnhancer.rewriting = REWRITE
  ∧ @enhance_memories_with_query MockEnhancer.rewriting ["what do I like?"]
      [Mock.x; Mock.y]
    = Some ([ mkItem "y" "yankee, rewritten" (metadata Mock.y);
              mkItem "x" "x-ray, rewritten" (metadata Mock.x) ], true)
  ∧ ∃ mem, mem ∈ [Mock.x; Mock.y]
           ∧ id (mkItem "y" "yankee, rewritten" (metadata Mock.y)) = id mem
           ∧ metadata (mkItem "y" "yankee, rewritten" (metadata Mock.y)) = metadata mem.
Proof.
  split; [reflexivity|]. split; [reflexivity|].
  destruct (@enhance_rewrite_keeps_identity MockEnhancer.rewriting ["what do I like?"]
              [Mock.x; Mock.y]) as [_ Hknown].
  - reflexivity.
  - intros l outcome Hin. exact Hin.
  - eapply Hknown; [reflexivity|left].
Defined.

Lemma process_enhancement_batch_calls_witness :
  (∀ a, (a < 0)%nat → @try_enhance MockEnhancer.rewriting 0 a [Mock.x; Mock.y] = None)
  ∧ @_process_enhancement_batch MockEnhancer.rewriting 0 ["what do I like?"]
      [Mock.x; Mock.y] (-5)
    = Ok (mkBatchOutcome
            [ mkItem "y" "yankee, rewritten" (metadata Mock.y);
              mkItem "x" "x-ray, rewritten" (metadata Mock.x) ]
            true 1)
  ∧ @_process_enhancement_batch MockEnhancer.failing 0 ["what do I like?"]
      [Mock.x; Mock.y] (-5)
    = Ok (mkBatchOutcome [Mock.x; Mock.y] false 2).
Proof.
  split; [intros a Ha; lia|].
  split.
  - apply (proj1 (@process_enhancement_batch_calls MockEnhancer.rewriting 0
                    "what do I like?" [] [Mock.x; Mock.y] (-5)) 0%nat).
    + intros a Ha. lia.
    + reflexivity.
    + lia.
  - apply (proj2 (@process_enhancement_batch_calls MockEnhancer.failing 0
                    "what do I like?" [] [Mock.x; Mock.y] (-5))).
    intros a _. reflexivity.
Defined.

Import PyStr PyStrFacts.

Section Facts.
Context `{Enhancer}.






End Facts.


End EnhancementPipelineFacts.

(** ** Facts about the resolution of the history through the NLI service *)

Module MemoryHistoryManagerFacts.
Import PyStr PyStrFacts PyListFacts HistoryManager HistoryManagerFacts MemoryHistoryManager.

Section Facts.
Context `{NLIClient}.

Lemma resolve_loop judged duplicates conflicts archived :
  foldl resolve_step (Ok (mkResolving duplicates conflicts (Some archived))) judged
  = Ok (mkResolving
          (duplicates ++ judged_as DUPLICATE judged)
          (conflicts ++ judged_as CONTRADICTION judged)
          (Some (archived ++ ((λ p, archive p.1 p.2) <$> judged)))).
Proof.
  revert duplicates conflicts archived.
  induction judged as [|[r_item nli_res] judged IH]; intros d c h.
  - unfold judged_as. simpl. by rewrite !app_nil_r.
  - cbn [foldl resolve_step bind_result history duplicate_memories conflict_memories].
    rewrite IH. unfold judged_as. rewrite !filter_cons. cbn [snd fst].
    destruct nli_res;
      repeat (rewrite decide_True by done || rewrite decide_False by done);
      csimpl; by rewrite <- ?(assoc_L (++)).
Qed.

(** Without a history to append to, the first judged item raises. *)
Lemma resolve_loop_unset judged duplicates conflicts :
  foldl resolve_step (Ok (mkResolving duplicates conflicts None)) judged
  = match judged with
    | [] => Ok (mkResolving duplicates conflicts None)
    | _ => Raise "AttributeError"
    end.
Proof.
  destruct judged as [|[r_item nli_res] judged]; [done|]. cbn [foldl].
  simpl. clear. by induction judged.
Qed.

Lemma judged_as_length judged :
  (length (judged_as DUPLICATE judged) + length (judged_as CONTRADICTION judged)
   ≤ length judged)%nat.
Proof.
  unfold judged_as. rewrite !length_fmap.
  induction judged as [|[r_item nli_res] judged IH]; [done|].
  rewrite !filter_cons. cbn [snd].
  destruct nli_res;
    repeat (rewrite decide_True by done || rewrite decide_False by done);
    simpl; lia.
Qed.

Lemma judged_as_elem_of verdict related_items nli_results text :
  text ∈ judged_as verdict (zip related_items nli_results) →
  ∃ r_item, r_item ∈ related_items ∧ memory (Related.item r_item) = text.
Proof.
  unfold judged_as. intros ([r_item nli_res] & -> & Hin)%list_elem_of_fmap.
  apply list_elem_of_filter in Hin as [_ Hin].
  exists r_item. split; [|done]. by apply elem_of_zip_l in Hin.
Qed.

(** X18: with a history to append to, [resolve_history_via_nli] returns the
    memories judged duplicate followed by those judged contradictory, each of
    them the text of a related item; it archives one entry for every related
    item that got a judgement, the unrelated ones included, in their order and
    under their identifiers; the related items beyond the length of the NLI
    answer are neither archived nor returned. *)
Theorem resolve_history_via_nli_judged
    new_item archived related_item related_items nli_results :
  compare_one_to_many (memory new_item)
    ((λ r, memory (Related.item r)) <$> related_item :: related_items)
  = Ok nli_results →
  let judged := zip (related_item :: related_items) nli_results in
  ∃ resolved archived' returned,
    resolve_history_via_nli new_item (Some archived) (related_item :: related_items)
    = Ok (resolved, Some archived', returned)
    ∧ returned = judged_as DUPLICATE judged ++ judged_as CONTRADICTION judged
    ∧ (length returned ≤ length (related_item :: related_items))%nat
    ∧ (∀ text, text ∈ returned →
         ∃ r_item, r_item ∈ related_item :: related_items
                   ∧ memory (Related.item r_item) = text)
    ∧ Archived.archived_memory_id <$> archived'
      = (Archived.archived_memory_id <$> archived)
        ++ ((λ r, id (Related.item r))
              <$> take (length nli_results) (related_item :: related_items))
    ∧ Archived.update_type <$> drop (length archived) archived'
      = update_type_of <$> take (length (related_item :: related_items)) nli_results.
Proof.
  intros Hnli judged. unfold resolve_history_via_nli. rewrite Hnli.
  cbn [bind_result]. fold judged. rewrite resolve_loop.
  cbn [bind_result history duplicate_memories conflict_memories app].
  eexists _, _, _. split; [done|]. split; [done|].
  split; [|split; [|split]].
  - rewrite length_app. pose proof (judged_as_length judged) as Hlen.
    assert (length judged ≤ length (related_item :: related_items))%nat
      by (unfold judged; rewrite length_zip; lia).
    lia.
  - intros text [Hin|Hin]%elem_of_app; by eapply judged_as_elem_of.
  - rewrite fmap_app. f_equal. rewrite <- list_fmap_compose.
    rewrite <- fst_zip_take, <- list_fmap_compose. by apply list_fmap_ext.
  - rewrite drop_app_length, <- list_fmap_compose.
    rewrite <- snd_zip_take, <- list_fmap_compose. by apply list_fmap_ext.
Qed.

(** X19: what [resolve_history_via_nli] appends to the text of a new item is
    taken off again by [_detach_related_content], and what it appends to the
    history of the item is not: when the text of the new item contains no
    section marker and the resolution returns, detaching restores the text
    (the identifier is never touched), while [metadata.history] stays as the
    resolution left it, the old history followed by one archived entry for
    every related item that got a judgement. *)
Theorem resolve_history_then_detach
    new_item new_item_history related_items resolved archived returned :
  marker_free (memory new_item) = true →
  resolve_history_via_nli new_item new_item_history related_items
  = Ok (resolved, archived, returned) →
  memory (_detach_related_content resolved) = memory new_item
  ∧ id (_detach_related_content resolved) = id new_item
  ∧ ∀ old_history, new_item_history = Some old_history →
      ∃ added,
        archived = Some (old_history ++ added)
        ∧ (length added ≤ length related_items)%nat
        ∧ Archived.archived_memory_id <$> added
          = (λ r, id (Related.item r)) <$> take (length added) related_items.
Proof.
  intros Hfree. unfold resolve_history_via_nli.
  destruct related_items as [|related_item related_items].
  - intros [= <- <- _]. rewrite detach_marker_free by done.
    split; [done|]. split; [done|]. intros old ->. exists [].
    by rewrite app_nil_r.
  - destruct (compare_one_to_many _ _) as [nli_results|]; [|done].
    cbn [bind_result].
    set (judged := zip (related_item :: related_items) nli_results).
    destruct new_item_history as [old|].
    + rewrite resolve_loop. cbn [bind_result history duplicate_memories conflict_memories].
      intros [= <- <- _]. rewrite detach_append_item by done.
      split; [done|]. split; [done|]. intros ? [= <-].
      exists ((λ p, archive p.1 p.2) <$> judged). split; [done|].
      assert (length judged ≤ length (related_item :: related_items))%nat as Hlen
        by (unfold judged; rewrite length_zip; lia).
      rewrite length_fmap. split; [done|].
      rewrite <- list_fmap_compose.
      assert (take (length judged) (related_item :: related_items) = judged.*1) as ->.
      { unfold judged. rewrite fst_zip_take, length_zip.
        rewrite Nat.min_comm, <- take_take. by rewrite firstn_all. }
      rewrite <- list_fmap_compose. by apply list_fmap_ext.
    + destruct (foldl _ _ _) as [st|]; [|done].
      cbn [bind_result]. intros [= <- _ _]. rewrite detach_append_item by done.
      split; [done|]. split; [done|]. by intros.
Qed.

End Facts.

Lemma resolve_history_via_nli_judged_witness :
  @compare_one_to_many (MockNLI.answering [DUPLICATE; OtherNLIResult; CONTRADICTION])
    (memory test_item)
    ((λ r, memory (Related.item r))
       <$> [MockNLI.related "r1" "Same fact"; MockNLI.related "r2" "Other fact";
            MockNLI.related "r3" "Opposite fact"; MockNLI.related "r4" "Late fact"])
  = Ok [DUPLICATE; OtherNLIResult; CONTRADICTION]
  ∧ ∃ resolved archived' returned,
      @resolve_history_via_nli
        (MockNLI.answering [DUPLICATE; OtherNLIResult; CONTRADICTION])
        test_item (Some [])
        [MockNLI.related "r1" "Same fact"; MockNLI.related "r2" "Other fact";
         MockNLI.related "r3" "Opposite fact"; MockNLI.related "r4" "Late fact"]
      = Ok (resolved, Some archived', returned)
      ∧ returned = ["Same fact"; "Opposite fact"]
      ∧ (length returned ≤ 4)%nat
      ∧ (∀ text, text ∈ returned →
           ∃ r_item,
             r_item ∈ [MockNLI.related "r1" "Same fact"; MockNLI.related "r2" "Other fact";
                       MockNLI.related "r3" "Opposite fact";
                       MockNLI.related "r4" "Late fact"]
             ∧ memory (Related.item r_item) = text)
      ∧ Archived.archived_memory_id <$> archived' = ["r1"; "r2"; "r3"]
      ∧ Archived.update_type <$> drop 0 archived' = ["duplicate"; "unrelated"; "conflict"].
Proof.
  split; [reflexivity|].
  apply (@resolve_history_via_nli_judged
           (MockNLI.answering [DUPLICATE; OtherNLIResult; CONTRADICTION])
           test_item [] (MockNLI.related "r1" "Same fact")
           [MockNLI.related "r2" "Other fact"; MockNLI.related "r3" "Opposite fact";
            MockNLI.related "r4" "Late fact"]
           [DUPLICATE; OtherNLIResult; CONTRADICTION]).
  reflexivity.
Defined.

Lemma resolve_history_then_detach_witness :
  marker_free (memory test_item) = true
  ∧ @resolve_history_via_nli (MockNLI.answering [DUPLICATE; CONTRADICTION])
      test_item (Some [])
      [MockNLI.related "r1" "Same fact"; MockNLI.related "r2" "Opposite fact"]
    = Ok (HistoryManager._append_related_content test_item ["Same fact"] ["Opposite fact"],
          Some [archive (MockNLI.related "r1" "Same fact") DUPLICATE;
                archive (MockNLI.related "r2" "Opposite fact") CONTRADICTION],
          ["Same fact"; "Opposite fact"])
  ∧ memory (_detach_related_content
              (HistoryManager._append_related_content test_item
                 ["Same fact"] ["Opposite fact"]))
    = memory test_item.
Proof.
  split; [reflexivity|]. split; [reflexivity|].
  eapply (@resolve_history_then_detach (MockNLI.answering [DUPLICATE; CONTRADICTION])
            test_item (Some [])
            [MockNLI.related "r1" "Same fact"; MockNLI.related "r2" "Opposite fact"]);
    reflexivity.
Defined.

End MemoryHistoryManagerFacts.

(** ** Facts about the metrics monitor of the queue *)

Module QueueMonitorFacts.
Import PyStr PyStrFacts QueueMonitor.

Section Facts.
Context `{QueueMetrics}.

Lemma not_total_size s t : s +:+ String ":" t ≠ "total_size".
Proof.
  intros Heq. apply (f_equal (contains ":")) in Heq.
  rewrite contains_app in Heq. simpl in Heq. by rewrite orb_true_r in Heq.
Qed.

(** X22: the user a queue length is reported under.  A stream key that ends
    in [:user:cube:label] is reported under [user], whatever precedes it; a
    key without a colon other than [total_size] is reported under itself; a
    key with exactly one colon is not reported. *)
Theorem reported_user_of_stream_key (user cube label : string) :
  contains ":" user = false → contains ":" cube = false → contains ":" label = false →
  (∀ prefix,
     reported_user (prefix +:+ ":" +:+ user +:+ ":" +:+ cube +:+ ":" +:+ label)
     = Some user)
  ∧ reported_user (user +:+ ":" +:+ cube +:+ ":" +:+ label) = Some user
  ∧ (user ≠ "total_size" → reported_user user = Some user)
  ∧ reported_user (cube +:+ ":" +:+ label) = None.
Proof.
  intros Huser Hcube Hlabel.
  assert (split ":" (user +:+ ":" +:+ cube +:+ ":" +:+ label) = [user; cube; label])
    as Hthree.
  { change (user +:+ ":" +:+ cube +:+ ":" +:+ label)
      with (user +:+ String ":" (cube +:+ String ":" label)).
    by rewrite !split_app, !split_free. }
  split; [|split; [|split]].
  - intros prefix. unfold reported_user.
    change (prefix +:+ ":" +:+ user +:+ ":" +:+ cube +:+ ":" +:+ label)
      with (prefix +:+ String ":" (user +:+ ":" +:+ cube +:+ ":" +:+ label)).
    rewrite bool_decide_eq_false_2 by apply not_total_size.
    rewrite split_app, Hthree. cbn zeta.
    rewrite (proj2 (Nat.leb_le _ _)) by (rewrite length_app; simpl; lia).
    unfold PyList.index.
    rewrite length_app. cbn [length].
    change (0 <=? -3) with false. cbn [andb].
    rewrite (proj2 (Z.leb_le _ _)) by lia. change (-3 <? 0) with true. cbn [andb].
    rewrite lookup_app_r by lia.
    by replace (Z.to_nat _ - length (split ":" prefix))%nat with 0%nat by lia.
  - unfold reported_user.
    rewrite bool_decide_eq_false_2
      by apply (not_total_size user (cube +:+ ":" +:+ label)).
    by rewrite Hthree.
  - intros Hne. unfold reported_user.
    rewrite bool_decide_eq_false_2 by done.
    rewrite split_free by done. simpl. by rewrite Huser.
  - unfold reported_user.
    rewrite bool_decide_eq_false_2 by apply not_total_size.
    change (cube +:+ ":" +:+ label) with (cube +:+ String ":" label).
    rewrite split_app, !split_free by done. cbn [app length Nat.leb].
    by rewrite contains_app, orb_true_r.
Qed.

End Facts.

Lemma reported_user_of_stream_key_witness :
  contains ":" "alice" = false ∧ contains ":" "cube1" = false
  ∧ contains ":" "query" = false
  ∧ reported_user ("scheduler:stream" +:+ ":" +:+ "alice" +:+ ":" +:+ "cube1"
                   +:+ ":" +:+ "query") = Some "alice"
  ∧ reported_user "cube1:query" = None.
Proof.
  split; [reflexivity|]. split; [reflexivity|]. split; [reflexivity|].
  destruct (reported_user_of_stream_key "alice" "cube1" "query")
    as (Hprefix & _ & _ & Hshort); [reflexivity..|].
  split; [apply (Hprefix "scheduler:stream")|apply Hshort].
Defined.

End QueueMonitorFacts.

(** ** Facts about the search pipeline *)

Module SearchPipelineFacts.
Import SearchPipeline.

Section Facts.
Context `{TreeSearch}.

(** X23: [SearchPipeline.search] gives all or nothing.  It returns the
    long-term results followed by the user results when the method is one of
    the two tree methods, the memory is a tree text memory and both searches
    succeed; in every other case, a failure of the second search after a
    success of the first included, it returns the empty list.  The two
    searches are made with the same arguments but for the memory type, so the
    result can be twice as long as [top_k]. *)
Theorem search_all_or_nothing
    (text_mem_base : TextMemKind) (query user_id mem_cube_id : string) (top_k : Z)
    (method : string) (search_args : option (list (string * json))) :
  let args := default [] search_args in
  let long_term := search_call query user_id mem_cube_id top_k args "LongTermMemory" in
  let user := search_call query user_id mem_cube_id top_k args "UserMemory" in
  let results := search text_mem_base query user_id mem_cube_id top_k method search_args in
  (results ≠ [] →
     (method = TreeTextMemory_SEARCH_METHOD ∨ method = TreeTextMemory_FINE_SEARCH_METHOD)
     ∧ text_mem_base = TreeTextMemory
     ∧ ∃ results_long_term results_user,
         text_mem_search long_term = Some results_long_term
         ∧ text_mem_search user = Some results_user
         ∧ results = results_long_term ++ results_user)
  ∧ (text_mem_search long_term = None ∨ text_mem_search user = None → results = [])
  ∧ (0 ≤ top_k →
     (∀ call found, text_mem_search call = Some found →
        Z.of_nat (length found) ≤ SearchCall.top_k call) →
     Z.of_nat (length results) ≤ 2 * top_k).
Proof.
  intros args long_term user results. unfold results, search.
  fold args long_term user.
  split; [|split].
  - case_bool_decide as Hmethod; [|done].
    destruct text_mem_base; try done.
    destruct (text_mem_search long_term) as [lt|]; [|done].
    destruct (text_mem_search user) as [us|]; [|done].
    cbn. intros _. split; [|by eauto 6].
    revert Hmethod. rewrite !elem_of_cons, elem_of_nil. naive_solver.
  - intros Hnone. case_bool_decide; [|done]. destruct text_mem_base; try done.
    destruct (text_mem_search long_term) as [lt|]; [|done].
    by destruct Hnone as [?| ->].
  - intros Hk Hbound. case_bool_decide; [|simpl; lia].
    destruct text_mem_base; try (simpl; lia).
    destruct (text_mem_search long_term) as [lt|] eqn:Hlt; [|simpl; lia].
    destruct (text_mem_search user) as [us|] eqn:Hus; [|simpl; lia].
    cbn. rewrite length_app.
    apply Hbound in Hlt, Hus. cbn in Hlt, Hus. lia.
Qed.

End Facts.

Lemma search_all_or_nothing_witness :
  @search MockSearch.finding TreeTextMemory "tea" "alice" "cube1" 1
    "tree_text_memory_search" None = [Mock.x; Mock.y]
  ∧ @search MockSearch.half_failing TreeTextMemory "tea" "alice" "cube1" 1
      "tree_text_memory_search" None = [].
Proof.
  split; [reflexivity|].
  apply (@search_all_or_nothing MockSearch.half_failing TreeTextMemory
           "tea" "alice" "cube1" 1 "tree_text_memory_search" None).
  right. reflexivity.
Defined.

End SearchPipelineFacts.

(** ** Facts about the answerability check and the recall hint *)

Module AnswerabilityFacts.
Import Answerability.

Section Facts.
Context `{LLM.ProcessLLM}.

(** X24: [evaluate_memory_answer_ability] never raises on a reply it cannot
    use, and it does not check what it returns: the value is what the reply
    holds under ["result"] when the reply parses to a [dict] with that key,
    whatever that value is, and [False] for every other reply (one that does
    not parse, a [dict] without the key, a list or a string even when it
    contains ["result"], any other value).  With [top_k = 0] the prompt is
    the one for no memories at all. *)
Theorem evaluate_memory_answer_ability_value
    (query : string) (memory_texts : list string) (top_k : option Z) :
  let response := LLM.generate (answerability_prompt query memory_texts top_k) in
  evaluate_memory_answer_ability query memory_texts top_k
  = match LLM.extract_json_obj response with
    | Some (JObj fields) => default (JBool false) (PyJson.assoc "result" fields)
    | _ => JBool false
    end
  ∧ evaluate_memory_answer_ability query memory_texts (Some 0)
    = evaluate_memory_answer_ability query [] top_k.
Proof.
  intros response. split.
  - unfold evaluate_memory_answer_ability. fold response.
    destruct (LLM.extract_json_obj response) as [[| | | |s|items|fields]|];
      try done; cbn [PyJson.contains PyJson.getitem].
    + by destruct (bool_decide _).
    + by destruct (existsb _ items).
    + case_bool_decide as Hkey; [done|].
      destruct (PyJson.assoc "result" fields); [|done].
      destruct Hkey. by eexists.
  - unfold evaluate_memory_answer_ability, answerability_prompt.
    change (PyList.slice_to 0 memory_texts) with (take 0 memory_texts).
    rewrite take_0. destruct top_k as [k|]; [|done].
    assert (PyList.slice_to k (@nil string) = []) as ->; [|done].
    unfold PyList.slice_to. destruct (k <? 0); apply take_nil.
Qed.

(** X25: [recall_for_missing_memories] never asks for a recall without a
    hint: when it returns, the hint has a length, and with a hint of length 0
    (or with none in the reply, which stands for the empty string) the flag is
    [False], whatever the reply says under ["trigger_recall"]. *)
Theorem recall_needs_a_hint (query : string) (memories : list string) hint flag :
  recall_for_missing_memories query memories = Ok (hint, flag) →
  ∃ fields hint_len,
    LLM.extract_json_obj
      (LLM.generate
         (LLM.build_prompt "enlarge_recall"
            [("query", query); ("memories_inline", bullet_list memories)]))
    = Some (JObj fields)
    ∧ hint = default (JStr "") (PyJson.assoc "hint" fields)
    ∧ PyJson.len hint = Some hint_len
    ∧ (hint_len = 0%nat → flag = JBool false)
    ∧ (hint_len ≠ 0%nat →
       flag = default (JBool false) (PyJson.assoc "trigger_recall" fields)).
Proof.
  unfold recall_for_missing_memories.
  destruct (LLM.extract_json_obj _) as [[| | | | | |fields]|]; try done.
  destruct (PyJson.len _) as [[|n]|] eqn:Hlen; [| |done].
  - intros [= <- <-]. exists fields, 0%nat. by repeat split.
  - intros [= <- <-]. exists fields, (Datatypes.S n). by repeat split.
Qed.

End Facts.

Lemma recall_needs_a_hint_witness :
  @recall_for_missing_memories
    (MockLLM.replying (Some (JObj [("hint", JStr ""); ("trigger_recall", JBool true)])))
    "what tea?" ["likes tea"]
  = Ok (JStr "", JBool false)
  ∧ ∃ fields hint_len,
      Some (JObj [("hint", JStr ""); ("trigger_recall", JBool true)])
      = Some (JObj fields)
      ∧ JStr "" = default (JStr "") (PyJson.assoc "hint" fields)
      ∧ PyJson.len (JStr "") = Some hint_len
      ∧ (hint_len = 0%nat → JBool false = JBool false)
      ∧ (hint_len ≠ 0%nat →
         JBool false = default (JBool false) (PyJson.assoc "trigger_recall" fields)).
Proof.
  split; [reflexivity|].
  apply (@recall_needs_a_hint
           (MockLLM.replying
              (Some (JObj [("hint", JStr ""); ("trigger_recall", JBool true)])))
           "what tea?" ["likes tea"] (JStr "") (JBool false)).
  reflexivity.
Defined.

End AnswerabilityFacts.
